(** * ClipAI: clip scoring, export jobs and the front-end that observes them

    A shallow embedding of the parts of the ClipAI front-end that carry
    behaviour (time formatting, subtitle lookup, simulated upload progress,
    export polling, the preset selector) together with models of the
    back-end contracts the front-end talks to (scoring, preset resolution,
    export job engine, batch orchestrator).

    JavaScript numbers that hold times, sizes and scores are embedded as
    rationals [Q]: every finite double is a rational. Comparison,
    [Math.floor] and [%] are exact on them; division rounds its result to
    the nearest double ([Js.div]). Progress percentages, which the code
    only ever writes as small integers, are [nat]. *)

From Stdlib Require Import ZArith QArith Qround Qabs Qpower String Ascii List Sorted Lia Lqa DecimalString.
From stdpp Require Import gmap strings list fin_maps.

Local Open Scope Z_scope.
Local Set Warnings "-register-all".

(** ** JavaScript primitives used by the components *)

Module Js.

(** *** Numbers

    A JavaScript number is an IEEE 754 binary64 value. The finite ones are
    embedded as the rationals they denote; [round] is the rounding every
    arithmetic operation applies to its exact result, and [is_double] says
    that a rational is such a value. *)

(** Powers of two, also negative ones. *)
Definition pow2 (e : Z) : Q := (2 ^ e)%Q.

(** The binade of a positive number: the [e] with [2^e <= x < 2^(e+1)]. *)
Definition binade (x : Q) : Z :=
  let e := Z.log2 (Qnum x) - Z.log2 (Zpos (Qden x)) in
  if Qle_bool (pow2 e) x then e else e - 1.

(** The nearest integer, the even one on a tie. *)
Definition nearest_even (m : Q) : Z :=
  let f := Qfloor m in
  match (m - inject_Z f ?= 1 # 2)%Q with
  | Lt => f
  | Gt => f + 1
  | Eq => if Z.even f then f else f + 1
  end.

(** The spacing of the doubles around a positive number: 53 significant
    bits, and the fixed spacing [2^-1074] of the subnormal range. *)
Definition ulp (a : Q) : Q := pow2 (Z.max (binade a) (-1022) - 52).

(** Rounding to the nearest double, ties to the even significand. The
    operations below apply it to quotients by 60 and by 1024 of finite
    doubles, which cannot overflow. *)
Definition round (x : Q) : Q :=
  if Qeq_bool x 0 then 0%Q
  else
    let a := Qabs x in
    let r := (inject_Z (nearest_even (a / ulp a)) * ulp a)%Q in
    if Qle_bool 0 x then r else (- r)%Q.

Definition is_double (x : Q) : Prop := (round x == x)%Q.

(** The operator [a / b]: the exact quotient, rounded. *)
Definition div (a b : Q) : Q := round (a / b).

(** [Math.floor]. *)
Definition floor (q : Q) : Z := Qfloor q.

(** Rounding toward zero, as the quotient inside [%] rounds. *)
Definition trunc (q : Q) : Z :=
  if Qle_bool 0 q then Qfloor q else Qceiling q.

(** The remainder operator [a % b] on numbers: [a - b * trunc (a / b)],
    which takes the sign of the dividend. Its result is a double whenever
    its operands are: [%] never rounds. *)
Definition rem (a b : Q) : Q :=
  (a - b * inject_Z (trunc (a / b)))%Q.

(** *** Strings *)

(** The decimal digits of an integer, with a leading minus sign for a
    negative one. *)
Definition digits (z : Z) : string :=
  NilZero.string_of_int (Z.to_int z).

(** [n] copies of [pad], one after the other. *)
Fixpoint repeat_string (n : nat) (pad : string) : string :=
  match n with
  | O => EmptyString
  | S k => String.append pad (repeat_string k pad)
  end.

(** [Number::toString] prints the shortest decimal significand [s], of
    [k] digits, for which [s * 10^(n-k)] reads back as the number.
    [reads_as v s n k]: this value rounds to [v]. *)
Definition reads_as (v s : Z) (n k : nat) : bool :=
  Qeq_bool (round (inject_Z (s * 10 ^ Z.of_nat (n - k)))) (inject_Z v).

Definition distance (v s : Z) (n k : nat) : Z :=
  Z.abs (s * 10 ^ Z.of_nat (n - k) - v).

(** The significands of [k] digits that read back as [v], an integer of
    [n] digits: only the two multiples of [10^(n-k)] around [v] need to be
    tried; the upper one is [10^(k-1)] at the next power of ten when it
    would have [k+1] digits. *)
Definition candidates (v : Z) (n k : nat) : list (Z * nat) :=
  let lo := v / 10 ^ Z.of_nat (n - k) in
  let hi := if lo + 1 <? 10 ^ Z.of_nat k
            then (lo + 1, n) else (10 ^ Z.of_nat (k - 1), S n) in
  List.filter (fun c => reads_as v (fst c) (snd c) k) [(lo, n); hi].

(** Of two candidates the one nearest to [v], the even one when both are
    as near. *)
Definition nearest (v : Z) (k : nat) (cs : list (Z * nat)) : option (Z * nat) :=
  match cs with
  | [] => None
  | [c] => Some c
  | c1 :: c2 :: _ =>
      let d1 := distance v (fst c1) (snd c1) k in
      let d2 := distance v (fst c2) (snd c2) k in
      if d1 <? d2 then Some c1
      else if d2 <? d1 then Some c2
      else if Z.even (fst c1) then Some c1 else Some c2
  end.

(** The shortest significand: the first [k] of [ks] that has a candidate. *)
Fixpoint shortest (v : Z) (n : nat) (ks : list nat) : option (Z * nat * nat) :=
  match ks with
  | [] => None
  | k :: rest =>
      match nearest v k (candidates v n k) with
      | Some (s, n') => Some (s, n', k)
      | None => shortest v n rest
      end
  end.

(** [Number::toString] on a positive integer value from 2^53 on: the
    significand followed by zeros up to 21 digits, exponent notation
    beyond. *)
Definition toString_large (v : Z) : string :=
  let n := String.length (digits v) in
  match shortest v n (List.seq 1 n) with
  | None => digits v
  | Some (s, n, k) =>
      if (n <=? 21)%nat
      then String.append (digits s) (repeat_string (n - k) "0")
      else
        let e := digits (Z.of_nat n - 1) in
        match digits s with
        | String c EmptyString => String c (String.append "e+" e)
        | String c more =>
            String c
              (String.append "." (String.append more (String.append "e+" e)))
        | EmptyString => EmptyString
        end
  end.

(** [Number.prototype.toString] on an integer value. Below 2^53 distinct
    integers are distinct doubles, so the shortest significand is the
    integer itself and the result is its digits. *)
Definition toString (z : Z) : string :=
  if Z.abs z <? 2 ^ 53 then digits z
  else if z <? 0 then String.append "-" (toString_large (- z))
  else toString_large z.

(** [String.prototype.padStart(target, pad)]: a string already [target]
    long is returned as it is, an empty [pad] adds nothing, otherwise the
    missing characters are taken from the front of [pad] repeated. *)
Definition padStart (target : nat) (pad : string) (s : string) : string :=
  let len := String.length s in
  if (target <=? len)%nat then s
  else match pad with
       | EmptyString => s
       | _ =>
           let fill := (target - len)%nat in
           String.append (substring 0 fill (repeat_string fill pad)) s
       end.

(** The decimal digit character of a value in 0..9. *)
Definition digit (z : Z) : ascii :=
  ascii_of_nat (48 + Z.to_nat z).

End Js.

(** ** [formatTime] (clips-manager.tsx and the clip card) *)

Module FormatTime.

(** The template literal [`${mins}:${secs.toString().padStart(2, "0")}`]
    with [mins = Math.floor(seconds / 60)] and
    [secs = Math.floor(seconds % 60)]. *)
Definition formatTime (seconds : Q) : string :=
  let mins := Js.floor (Js.div seconds 60) in
  let secs := Js.floor (Js.rem seconds 60) in
  String.append (Js.toString mins)
    (String.append ":" (Js.padStart 2 "0" (Js.toString secs))).

(** The two-character field of the specification: tens digit, units digit. *)
Definition two_digits (z : Z) : string :=
  String (Js.digit (z / 10)) (String (Js.digit (z mod 10)) EmptyString).

End FormatTime.

(** ** Subtitle overlay ([VideoSubtitles]) *)

Module VideoSubtitles.

Record WordSegment := {
  text : string;
  start_time : Q;
  end_time : Q
}.

(** The predicate handed to [segments.find]:
    [currentTime >= seg.start_time && currentTime <= seg.end_time]. *)
Definition covers (currentTime : Q) (seg : WordSegment) : bool :=
  Qle_bool (start_time seg) currentTime && Qle_bool currentTime (end_time seg).

(** The interval test of the specification, as a proposition. *)
Definition within (t : Q) (seg : WordSegment) : Prop :=
  (start_time seg <= t)%Q /\ (t <= end_time seg)%Q.

(** The value the second effect stores in [currentText]. The [segments]
    prop is optional, hence the [option]. *)
Definition currentText (segments : option (list WordSegment)) (currentTime : Q)
  : string :=
  match segments with
  | None => EmptyString
  | Some [] => EmptyString
  | Some segs =>
      match List.find (covers currentTime) segs with
      | Some currentSegment => text currentSegment
      | None => EmptyString
      end
  end.

(** What the component paints: nothing but the toggle button when
    subtitles are off or there are no segments, the overlay with
    [currentText] otherwise. *)
Definition overlay (showSubtitles : bool) (segments : option (list WordSegment))
    (currentTime : Q) : option string :=
  match segments with
  | None => None
  | Some [] => None
  | Some _ =>
      if showSubtitles then Some (currentText segments currentTime) else None
  end.

End VideoSubtitles.

(** ** File upload with simulated progress ([VideoUpload]) *)

Module VideoUpload.

Inductive Status := uploading | processing | completed | error.

Record UploadedFile := {
  name : string;
  id : string;
  progress : nat;
  status : Status;
  message : option string;
  jobId : option string
}.

(** The entry [onDrop] builds for an accepted file. *)
Definition newFile (file_name file_id : string) : UploadedFile :=
  {| name := file_name; id := file_id; progress := 0;
     status := uploading; message := None; jobId := None |}.

(** [setFiles((prev) => [...prev, ...newFiles])]. *)
Definition onDrop (prev : list UploadedFile) (accepted : list (string * string))
  : list UploadedFile :=
  prev ++ List.map (fun '(n, i) => newFile n i) accepted.

(** One firing of [progressInterval], on one entry:
    [f.id === fileData.id && f.progress < 90 ? {...f, progress: f.progress + 10} : f]. *)
Definition tick (fileId : string) (f : UploadedFile) : UploadedFile :=
  if String.eqb (id f) fileId && (progress f <? 90)%nat
  then {| name := name f; id := id f; progress := progress f + 10;
          status := status f; message := message f; jobId := jobId f |}
  else f.

(** The update after a successful response. *)
Definition markProcessing (fileId job : string) (f : UploadedFile) : UploadedFile :=
  if String.eqb (id f) fileId
  then {| name := name f; id := id f; progress := 100;
          status := processing; message := Some "Processing video..."%string;
          jobId := Some job |}
  else f.

(** The update in the [catch] block. *)
Definition markError (fileId : string) (f : UploadedFile) : UploadedFile :=
  if String.eqb (id f) fileId
  then {| name := name f; id := id f; progress := progress f;
          status := error;
          message := Some "Upload failed. Is the backend running?"%string;
          jobId := jobId f |}
  else f.

(** What [fetch] resolves to: the [ok] flag and the parsed body, [None]
    when [response.json()] rejects. *)
Record Response := {
  ok : bool;
  body : option string   (* data.id *)
}.

Inductive Event :=
| IntervalFires
| FetchRejects
| FetchResolves (response : Response).

(** The state one call of [uploadFile] works on: the file list, whether
    [progressInterval] is still armed, and whether the request has
    already settled. *)
Record Upload := {
  files : list UploadedFile;
  interval_armed : bool;
  settled : bool
}.

(** [uploadFile] up to its [await fetch(...)]: the interval is armed and
    the request is in flight. *)
Definition uploadFile (current : list UploadedFile) : Upload :=
  {| files := current; interval_armed := true; settled := false |}.

(** The continuation of [uploadFile] on each event. A rejected [fetch]
    jumps to [catch] and skips [clearInterval]; a resolved one clears the
    interval first and then either throws (response not ok, or the body
    does not parse) or records the success. *)
Definition step (fileId : string) (e : Event) (u : Upload) : Upload :=
  match e with
  | IntervalFires =>
      if interval_armed u
      then {| files := List.map (tick fileId) (files u);
              interval_armed := true; settled := settled u |}
      else u
  | FetchRejects =>
      if settled u then u
      else {| files := List.map (markError fileId) (files u);
              interval_armed := interval_armed u; settled := true |}
  | FetchResolves r =>
      if settled u then u
      else
        match ok r, body r with
        | true, Some job =>
            {| files := List.map (markProcessing fileId job) (files u);
               interval_armed := false; settled := true |}
        | _, _ =>
            {| files := List.map (markError fileId) (files u);
               interval_armed := false; settled := true |}
        end
  end.

Definition run (fileId : string) (events : list Event) (u : Upload) : Upload :=
  List.fold_left (fun acc e => step fileId e acc) events u.

(** Number of firings of the interval in [events]. *)
Definition ticks (events : list Event) : nat :=
  List.length (List.filter
    (fun e => match e with IntervalFires => true | _ => false end) events).

(** The entries of a file list that belong to one upload. *)
Definition entries (fileId : string) (l : list UploadedFile) : list UploadedFile :=
  List.filter (fun f => String.eqb (id f) fileId) l.

(** How the request of a call ended, read off its events: the first event
    that is not a firing of the interval decides. *)
Inductive Settlement := Pending | Succeeded (job : string) | Failed.

Fixpoint settlement (events : list Event) : Settlement :=
  match events with
  | [] => Pending
  | IntervalFires :: rest => settlement rest
  | FetchRejects :: _ => Failed
  | FetchResolves r :: _ =>
      match ok r, body r with
      | true, Some job => Succeeded job
      | _, _ => Failed
      end
  end.

(** The firings of [events] that find the interval armed: those before the
    request settles and, when [fetch] itself rejected (which skips
    [clearInterval]), those after it as well. *)
Fixpoint firings (events : list Event) : nat :=
  match events with
  | [] => 0%nat
  | IntervalFires :: rest => S (firings rest)
  | FetchRejects :: rest => ticks rest
  | FetchResolves _ :: _ => 0%nat
  end.

(** The three forms an entry of the upload takes: uploading after [n]
    counted firings, handed over to the job [job], failed after [n]
    counted firings. *)
Definition uploadingAt (n : nat) (f : UploadedFile) : UploadedFile :=
  {| name := name f; id := id f; progress := 10 * Nat.min n 9;
     status := uploading; message := message f; jobId := jobId f |}.

Definition processingAs (job : string) (f : UploadedFile) : UploadedFile :=
  {| name := name f; id := id f; progress := 100;
     status := processing; message := Some "Processing video..."%string;
     jobId := Some job |}.

Definition failedAt (n : nat) (f : UploadedFile) : UploadedFile :=
  {| name := name f; id := id f; progress := 10 * Nat.min n 9;
     status := error;
     message := Some "Upload failed. Is the backend running?"%string;
     jobId := jobId f |}.

(** The entry the events leave of an entry dropped as [f]. *)
Definition outcome (events : list Event) (f : UploadedFile) : UploadedFile :=
  match settlement events with
  | Pending => uploadingAt (ticks events) f
  | Succeeded job => processingAs job f
  | Failed => failedAt (firings events) f
  end.

(** Status reply of [/api/upload/status/{jobId}]. *)
Record JobStatus := {
  job_status : string;
  job_progress : nat;
  job_message : string
}.

Inductive PollOutcome :=
| PollThrows
| PollData (data : JobStatus).

(** The entry update inside [poll]. *)
Definition recordStatus (fileId : string) (data : JobStatus) (f : UploadedFile)
  : UploadedFile :=
  if String.eqb (id f) fileId
  then {| name := name f; id := id f; progress := job_progress data;
          status := if String.eqb (job_status data) "completed" then completed
                    else if String.eqb (job_status data) "failed" then error
                    else processing;
          message := Some (job_message data); jobId := jobId f |}
  else f.

(** One run of [poll] inside [pollJobStatus]: the new file list and
    whether [setTimeout(poll, 2000)] was called. *)
Definition poll (fileId : string) (o : PollOutcome) (current : list UploadedFile)
  : list UploadedFile * bool :=
  match o with
  | PollThrows => (current, true)
  | PollData data =>
      let updated := List.map (recordStatus fileId data) current in
      if String.eqb (job_status data) "completed" then (updated, false)
      else if String.eqb (job_status data) "failed" then (updated, false)
      else if negb (String.eqb (job_status data) "failed") then (updated, true)
      else (updated, false)
  end.

End VideoUpload.

(** ** Export job engine *)

Module ExportEngine.

(** Modelled from the spec: the states of an export job (section 4.5). *)
Inductive JobState := queued | rendering | completed | failed.

(** Modelled from the spec: the error kinds a failed job can carry
    (section 7). *)
Inductive ErrorKind := RenderFailure | Timeout | Cancelled.

(** Modelled from the spec: the [error] field of a job, a kind for
    programmatic branching with the text that came with it. *)
Record JobError := {
  kind : ErrorKind;
  detail : string
}.

(** Modelled from the spec: the ExportJob record of section 3. The
    options are an opaque pass-through, times are logical. *)
Record ExportJob := {
  id : nat;
  clip_id : string;
  preset : string;
  options : string;
  state : JobState;
  progress : nat;
  message : string;
  error : option JobError;
  artifact_path : option string;
  created_at : nat;
  updated_at : nat
}.

(** Modelled from the spec: [completed] and [failed] are the terminal
    states. *)
Definition terminal (s : JobState) : bool :=
  match s with
  | completed | failed => true
  | queued | rendering => false
  end.

(** Modelled from the spec: what can happen to one job (section 4.5): a
    worker picks it up, the renderer reports a stage, returns an artifact
    or raises, the wall-clock budget runs out, or the caller cancels.
    [now] is the time of the event. *)
Inductive Event :=
| Claimed (now : nat)
| Stage (now : nat) (percent : nat) (stage : string)
| Rendered (now : nat) (path : string)
| RenderError (now : nat) (err : string)
| TimedOut (now : nat) (note : string)
| CancelRequested (now : nat) (note : string).

(** The record [j] with its mutable fields replaced. *)
Definition with_state (j : ExportJob) (now : nat) (s : JobState) (p : nat)
    (msg : string) (err : option JobError) (path : option string) : ExportJob :=
  {| id := id j; clip_id := clip_id j; preset := preset j; options := options j;
     state := s; progress := p; message := msg; error := err;
     artifact_path := path; created_at := created_at j; updated_at := now |}.

(** Modelled from the spec: the Export Job Engine's state machine of
    section 4.5, whose code is not part of the sources. The only
    transitions are queued -> rendering, rendering -> completed and
    rendering -> failed; while rendering, a stage report is accepted
    only when it does not lower the progress and stays within 0..100; a
    renderer error is stored verbatim in [error] and [message]. [None]
    means the engine does not take the transition. *)
Definition transition (e : Event) (j : ExportJob) : option ExportJob :=
  match state j, e with
  | queued, Claimed now =>
      Some (with_state j now rendering (progress j) (message j) (error j)
              (artifact_path j))
  | rendering, Stage now percent stage =>
      if (progress j <=? percent)%nat && (percent <=? 100)%nat
      then Some (with_state j now rendering percent stage (error j)
                   (artifact_path j))
      else None
  | rendering, Rendered now path =>
      Some (with_state j now completed (progress j) (message j) (error j)
              (Some path))
  | rendering, RenderError now err =>
      Some (with_state j now failed (progress j) err
              (Some {| kind := RenderFailure; detail := err |})
              (artifact_path j))
  | rendering, TimedOut now note =>
      Some (with_state j now failed (progress j) note
              (Some {| kind := Timeout; detail := note |})
              (artifact_path j))
  | rendering, CancelRequested now note =>
      Some (with_state j now failed (progress j) note
              (Some {| kind := Cancelled; detail := note |})
              (artifact_path j))
  | _, _ => None
  end.

(** Modelled from the spec: a job as [submit_export] creates it, in
    state [queued] with progress 0. *)
Definition new_job (job_id : nat) (clip preset_name opts : string) (now : nat)
  : ExportJob :=
  {| id := job_id; clip_id := clip; preset := preset_name; options := opts;
     state := queued; progress := 0; message := EmptyString; error := None;
     artifact_path := None; created_at := now; updated_at := now |}.

(** Modelled from the spec: the engine's job table and the accessor
    [get_export_status(job_id)], a read of the current record. *)
Definition get_export_status (jobs : gmap nat ExportJob) (job_id : nat)
  : option ExportJob :=
  jobs !! job_id.

(** Modelled from the spec: one event addressed to one job of the table;
    each record is changed only by the events of its own job. Events that
    are not transitions of that job leave the table as it is. *)
Definition deliver (job_id : nat) (e : Event) (jobs : gmap nat ExportJob)
  : gmap nat ExportJob :=
  match jobs !! job_id with
  | None => jobs
  | Some j =>
      match transition e j with
      | None => jobs
      | Some j' => <[job_id := j']> jobs
      end
  end.

(** A sequence of events, each addressed to a job. *)
Definition deliver_all (events : list (nat * Event)) (jobs : gmap nat ExportJob)
  : gmap nat ExportJob :=
  List.fold_left (fun acc '(job_id, e) => deliver job_id e acc) events jobs.

(** Modelled from the spec: the name of a state as the status reply
    spells it; the card compares it with ["completed"] and ["failed"]. *)
Definition state_name (s : JobState) : string :=
  match s with
  | queued => "queued"
  | rendering => "rendering"
  | completed => "completed"
  | failed => "failed"
  end.

End ExportEngine.

(** ** The clip card: starting an export and polling its status *)

Module ClipCard.

(** Body of [GET /api/clips/export/{export_id}/status]. *)
Record StatusReply := {
  status : string;
  progress : nat;
  message : string;
  download_url : option string
}.

(** The export-related state hooks of [ClipCard]. *)
Record CardState := {
  exporting : bool;
  exportProgress : nat;
  exportMessage : string;
  downloadUrl : option string
}.

(** How one status request ends: [fetch] or [json()] rejects, the
    response is not ok, or a body arrives. *)
Inductive PollOutcome :=
| PollRejects
| PollNotOk
| PollOk (reply : StatusReply).

(** One run of [pollProgress]: the new card state and whether
    [setTimeout(pollProgress, ...)] was called. *)
Definition pollProgress (o : PollOutcome) (c : CardState) : CardState * bool :=
  match o with
  | PollRejects => (c, true)
  | PollNotOk => (c, false)
  | PollOk reply =>
      if String.eqb (status reply) "completed" then
        ({| exporting := false; exportProgress := progress reply;
            exportMessage := message reply;
            downloadUrl := download_url reply |}, false)
      else if String.eqb (status reply) "failed" then
        ({| exporting := false; exportProgress := progress reply;
            exportMessage := "Export failed";
            downloadUrl := downloadUrl c |}, false)
      else
        ({| exporting := exporting c; exportProgress := progress reply;
            exportMessage := message reply;
            downloadUrl := downloadUrl c |}, true)
  end.

(** How the initial [POST .../export/{clip.id}] ends. *)
Inductive PostOutcome :=
| PostRejects
| PostNotOk
| PostOk (export_id : nat).

(** [handleExport] up to the first call of [pollProgress]: the new card
    state and the export to poll, if any. *)
Definition handleExport (o : PostOutcome) (c : CardState) : CardState * option nat :=
  if exporting c then (c, None)
  else
    let started := {| exporting := true; exportProgress := 0;
                      exportMessage := "Starting export...";
                      downloadUrl := None |} in
    match o with
    | PostOk export_id => (started, Some export_id)
    | PostRejects | PostNotOk =>
        ({| exporting := false; exportProgress := 0;
            exportMessage := "Export failed"; downloadUrl := None |}, None)
    end.

(** The progress panel, painted only while [exporting]: the message and
    the percentage next to it. *)
Definition progressPanel (c : CardState) : option (string * nat) :=
  if exporting c then Some (exportMessage c, exportProgress c) else None.

End ClipCard.

(** ** A job and the card that watches it *)

Module Watch.
Import ExportEngine ClipCard.

(** Modelled from the spec: the status endpoint answers with a snapshot
    of the job record (section 6, [get_export_status]); the route itself
    is not part of the sources. *)
Definition snapshot (j : ExportJob) : StatusReply :=
  {| status := state_name (state j);
     progress := ExportEngine.progress j;
     message := ExportEngine.message j;
     download_url := artifact_path j |}.

Record World := {
  job : ExportJob;
  card : CardState;
  poll_pending : bool
}.

Inductive Network := Rejected | NotOk | Delivered.

Inductive Step :=
| Engine (e : ExportEngine.Event)
| Poll (n : Network).

Definition outcome (n : Network) (j : ExportJob) : PollOutcome :=
  match n with
  | Rejected => PollRejects
  | NotOk => PollNotOk
  | Delivered => PollOk (snapshot j)
  end.

(** One step of the job or of the card. A poll runs only when one is
    pending, and reads the job as it is at that moment. *)
Definition step (s : Step) (w : World) : option World :=
  match s with
  | Engine e =>
      match transition e (job w) with
      | None => None
      | Some j' => Some {| job := j'; card := card w;
                           poll_pending := poll_pending w |}
      end
  | Poll n =>
      if poll_pending w then
        let '(c', again) := pollProgress (outcome n (job w)) (card w) in
        Some {| job := job w; card := c'; poll_pending := again |}
      else None
  end.

(** The worlds passed through, the starting one first. *)
Fixpoint trace (steps : list Step) (w : World) : option (list World) :=
  match steps with
  | [] => Some [w]
  | s :: rest =>
      match step s w with
      | None => None
      | Some w' =>
          match trace rest w' with
          | None => None
          | Some t => Some (w :: t)
          end
      end
  end.

(** The world right after [handleExport] has started export [export_id]
    from an idle card. *)
Definition start (c : CardState) (export_id : nat) (clip preset_name opts : string)
    (now : nat) : World :=
  {| job := new_job export_id clip preset_name opts now;
     card := fst (handleExport (PostOk export_id) c);
     poll_pending := true |}.

(** The card never shows more than the job has reached. *)
Definition behind (w : World) : Prop :=
  (exportProgress (card w) <= ExportEngine.progress (job w))%nat
  /\ (ExportEngine.progress (job w) <= 100)%nat.

Definition advances (w w' : World) : Prop :=
  (ExportEngine.progress (job w) <= ExportEngine.progress (job w'))%nat
  /\ (exportProgress (card w) <= exportProgress (card w'))%nat.

End Watch.

(** ** The clips manager: preset selector and simulated batch export *)

Module ClipsManager.

Record PresetOption := {
  id : string;
  name : string;
  icon : string
}.

Definition quality_presets : list PresetOption := [
  {| id := "tiktok"; name := "TikTok"; icon := "smartphone" |};
  {| id := "instagram_reels"; name := "Instagram Reels"; icon := "instagram" |};
  {| id := "youtube_shorts"; name := "YouTube Shorts"; icon := "youtube" |};
  {| id := "youtube_standard"; name := "YouTube (HD)"; icon := "youtube" |};
  {| id := "twitter"; name := "Twitter/X"; icon := "twitter" |};
  {| id := "linkedin"; name := "LinkedIn"; icon := "linkedin" |};
  {| id := "high_quality"; name := "High Quality"; icon := "hd" |};
  {| id := "balanced"; name := "Balanced"; icon := "activity" |};
  {| id := "fast"; name := "Fast Export"; icon := "zap" |}
].

Record ExportOptions := {
  quality_preset : string;
  add_captions : bool;
  caption_theme : string;
  caption_style : string;
  use_gpu : bool
}.

(** The initial value of the [exportOptions] hook. *)
Definition initialOptions : ExportOptions :=
  {| quality_preset := "tiktok"; add_captions := true;
     caption_theme := "viral"; caption_style := "karaoke"; use_gpu := true |}.

(** [onChange] of the preset [<select>]: the user picks the [index]-th
    [<option>], whose value is that preset's [id]. *)
Definition selectPreset (index : nat) (o : ExportOptions) : ExportOptions :=
  match quality_presets !! index with
  | Some p =>
      {| quality_preset := id p; add_captions := add_captions o;
         caption_theme := caption_theme o; caption_style := caption_style o;
         use_gpu := use_gpu o |}
  | None => o
  end.

(** A sequence of picks in the selector. *)
Definition selectPresets (picks : list nat) (o : ExportOptions) : ExportOptions :=
  List.fold_left (fun acc index => selectPreset index acc) picks o.

(** The two per-clip hooks [exportStatus] and [exportProgress]. *)
Record ExportState := {
  exportStatus : gmap string string;
  exportProgress : gmap string nat
}.

Definition initialState : ExportState :=
  {| exportStatus := ∅; exportProgress := ∅ |}.

(** The state updates [handleExportSelected] issues. *)
Inductive Update :=
| SetStatus (clipId : string) (value : string)
| SetProgress (clipId : string) (value : nat).

Definition apply (u : Update) (s : ExportState) : ExportState :=
  match u with
  | SetStatus clipId value =>
      {| exportStatus := <[clipId := value]> (exportStatus s);
         exportProgress := exportProgress s |}
  | SetProgress clipId value =>
      {| exportStatus := exportStatus s;
         exportProgress := <[clipId := value]> (exportProgress s) |}
  end.

(** The values [i] takes in [for (let i = 0; i <= 100; i += 10)]. *)
Fixpoint loopValues (fuel i : nat) : list nat :=
  match fuel with
  | O => []
  | S k => if (i <=? 100)%nat then i :: loopValues k (i + 10) else []
  end.

(** The updates of one iteration of the outer loop. *)
Definition exportClip (clipId : string) : list Update :=
  [SetStatus clipId "processing"; SetProgress clipId 0]
  ++ List.map (SetProgress clipId) (loopValues 101 0)
  ++ [SetStatus clipId "completed"].

(** [handleExportSelected]: nothing but an alert on an empty selection,
    otherwise the updates of each selected clip, one clip after the
    other. *)
Definition handleExportSelected (selectedClips : list string) : list Update :=
  match selectedClips with
  | [] => []
  | _ => List.concat (List.map exportClip selectedClips)
  end.

(** The states after each update of a run. *)
Fixpoint states (updates : list Update) (s : ExportState) : list ExportState :=
  match updates with
  | [] => []
  | u :: rest => apply u s :: states rest (apply u s)
  end.

(** The progress values a run writes for one clip, in order. *)
Definition progressWrites (clipId : string) (updates : list Update) : list nat :=
  List.flat_map
    (fun u => match u with
              | SetProgress c v => if String.eqb c clipId then [v] else []
              | SetStatus _ _ => []
              end) updates.

Definition isProcessing (s : ExportState) (clipId : string) : Prop :=
  exportStatus s !! clipId = Some "processing"%string.

(** The state once all updates of a run are applied. *)
Definition final (updates : list Update) (s : ExportState) : ExportState :=
  List.fold_left (fun acc u => apply u acc) updates s.

(** No clip is being processed. *)
Definition idle_state (s : ExportState) : Prop :=
  forall c, ~ isProcessing s c.

(** No clip other than [clipId] is being processed. *)
Definition only_processing (clipId : string) (s : ExportState) : Prop :=
  forall c, isProcessing s c -> c = clipId.

Definition at_most_one_processing (s : ExportState) : Prop :=
  forall a b, isProcessing s a -> isProcessing s b -> a = b.

End ClipsManager.

(** ** The preset selector of the clips manager that exports through the API

    The second clips manager of the sources (app-sidebar.tsx, from line
    215) offers one preset more than the first one: [facebook]. *)

Module ApiClipsManager.

Record PresetOption := {
  id : string;
  name : string;
  icon : string;
  description : string
}.

Definition quality_presets : list PresetOption := [
  {| id := "tiktok"; name := "TikTok"; icon := "smartphone";
     description := "9:16, 60fps, 8000k" |};
  {| id := "instagram_reels"; name := "Instagram Reels"; icon := "instagram";
     description := "9:16, 60fps, 8000k" |};
  {| id := "youtube_shorts"; name := "YouTube Shorts"; icon := "youtube";
     description := "9:16, 60fps, 8000k" |};
  {| id := "youtube_standard"; name := "YouTube (HD)"; icon := "youtube";
     description := "16:9, 30fps, 5000k" |};
  {| id := "twitter"; name := "Twitter/X"; icon := "twitter";
     description := "1280x720, 30fps, 3000k" |};
  {| id := "linkedin"; name := "LinkedIn"; icon := "linkedin";
     description := "1280x720, 30fps, 3000k" |};
  {| id := "facebook"; name := "Facebook"; icon := "facebook";
     description := "1920x1080, 30fps, 4000k" |};
  {| id := "high_quality"; name := "High Quality"; icon := "hd";
     description := "1080p, 60fps, 10000k" |};
  {| id := "balanced"; name := "Balanced"; icon := "activity";
     description := "720p, 30fps, 3000k" |};
  {| id := "fast"; name := "Fast Export"; icon := "zap";
     description := "720p, 30fps, 2500k" |}
].

Record ExportOptions := {
  quality_preset : string;
  add_captions : bool;
  caption_theme : string;
  caption_style : string;
  use_gpu : bool;
  use_scene_detection : bool;
  use_camera_switching : bool
}.

(** The initial value of the [exportOptions] hook. *)
Definition initialOptions : ExportOptions :=
  {| quality_preset := "tiktok"; add_captions := true;
     caption_theme := "viral"; caption_style := "karaoke"; use_gpu := true;
     use_scene_detection := true; use_camera_switching := true |}.

(** [onValueChange] of the preset [<Select>]: the user picks the
    [index]-th [<SelectItem>], whose value is that preset's [id]. *)
Definition selectPreset (index : nat) (o : ExportOptions) : ExportOptions :=
  match quality_presets !! index with
  | Some p =>
      {| quality_preset := id p; add_captions := add_captions o;
         caption_theme := caption_theme o; caption_style := caption_style o;
         use_gpu := use_gpu o; use_scene_detection := use_scene_detection o;
         use_camera_switching := use_camera_switching o |}
  | None => o
  end.

(** A sequence of picks in the selector. *)
Definition selectPresets (picks : list nat) (o : ExportOptions) : ExportOptions :=
  List.fold_left (fun acc index => selectPreset index acc) picks o.

End ApiClipsManager.

(** ** Quality preset resolver and export submission *)

Module QualityPresets.
Import ExportEngine.

(** Modelled from the spec: the resolver's only failure (section 7). *)
Inductive ResolveError := UnknownPreset (name : string).

(** Modelled from the spec: the [QualityPreset] of section 3, with the
    encode parameters the README gives for each preset (resolution, frame
    rate, video bitrate in kbit/s). *)
Record QualityPreset := {
  name : string;
  width : Z;
  height : Z;
  fps : Z;
  video_bitrate : Z
}.

(** Modelled from the spec: the constant table of the resolver. The spec
    leaves the table to configuration and [backend/services/quality_presets.py]
    is not part of the sources; the table is the one the README lists for
    that file (part_010, section 7), under the names the selectors of the
    front end send. *)
Definition table : list QualityPreset := [
  {| name := "tiktok"; width := 1080; height := 1920; fps := 60;
     video_bitrate := 8000 |};
  {| name := "instagram_reels"; width := 1080; height := 1920; fps := 60;
     video_bitrate := 8000 |};
  {| name := "youtube_shorts"; width := 1080; height := 1920; fps := 60;
     video_bitrate := 8000 |};
  {| name := "youtube_standard"; width := 1920; height := 1080; fps := 30;
     video_bitrate := 5000 |};
  {| name := "twitter"; width := 1280; height := 720; fps := 30;
     video_bitrate := 3000 |};
  {| name := "linkedin"; width := 1280; height := 720; fps := 30;
     video_bitrate := 3000 |};
  {| name := "facebook"; width := 1920; height := 1080; fps := 30;
     video_bitrate := 4000 |};
  {| name := "high_quality"; width := 1920; height := 1080; fps := 60;
     video_bitrate := 10000 |};
  {| name := "balanced"; width := 1280; height := 720; fps := 30;
     video_bitrate := 3000 |};
  {| name := "fast"; width := 1280; height := 720; fps := 30;
     video_bitrate := 2500 |}
].

(** The names of the catalog. *)
Definition catalog : list string := List.map name table.

(** The nine names of the selector of clips-manager.tsx. *)
Definition listed : list string :=
  ["tiktok"; "instagram_reels"; "youtube_shorts"; "youtube_standard";
   "twitter"; "linkedin"; "high_quality"; "balanced"; "fast"]%string.

(** Modelled from the spec: the Quality Preset Resolver
    [resolve(name) -> QualityPreset] of section 4.4, a lookup by name in
    the fixed catalog that fails with [UnknownPreset] for any other
    name. *)
Definition resolve (preset_name : string) : ResolveError + QualityPreset :=
  match List.find (fun p => String.eqb (name p) preset_name) table with
  | Some p => inr p
  | None => inl (UnknownPreset preset_name)
  end.

(** Modelled from the spec: [list() -> [QualityPreset]]. *)
Definition list_quality_presets : list QualityPreset := table.

(** Modelled from the spec: the engine's job table with its next free
    job id. *)
Record Engine := {
  jobs : gmap nat ExportJob;
  next_id : nat
}.

(** Modelled from the spec: [submit_export(clip_id, preset_name, options)
    -> ExportJob.id] of section 6. The preset is resolved first; an
    unknown name is reported and leaves the job table as it was. *)
Definition submit_export (clip preset_name opts : string) (now : nat)
    (eng : Engine) : (ResolveError + nat) * Engine :=
  match resolve preset_name with
  | inl err => (inl err, eng)
  | inr p =>
      (inr (next_id eng),
       {| jobs := <[next_id eng :=
                      new_job (next_id eng) clip (name p) opts now]>
                    (jobs eng);
          next_id := S (next_id eng) |})
  end.

End QualityPresets.

(** ** Scoring engine *)

Module Scoring.

(** Modelled from the spec: the score breakdown of section 3, the four
    sub-scores of one candidate window; [None] marks an extractor that was
    unavailable. *)
Record ScoreBreakdown := {
  semantic : option Q;
  heuristic : option Q;
  audio : option Q;
  visual : option Q
}.

(** Modelled from the spec: the default weights 0.40, 0.25, 0.20, 0.15
    (also the README's 40%, 25%, 20%, 15%). *)
Definition w_semantic : Q := 40 # 100.
Definition w_heuristic : Q := 25 # 100.
Definition w_audio : Q := 20 # 100.
Definition w_visual : Q := 15 # 100.

(** The sub-scores paired with their default weights. *)
Definition signals (b : ScoreBreakdown) : list (Q * option Q) :=
  [(w_semantic, semantic b); (w_heuristic, heuristic b);
   (w_audio, audio b); (w_visual, visual b)].

(** The weights and values of the extractors that produced a value. *)
Definition present (b : ScoreBreakdown) : list (Q * Q) :=
  List.flat_map
    (fun '(w, s) => match s with Some v => [(w, v)] | None => [] end)
    (signals b).

Definition Qsum (l : list Q) : Q := List.fold_right Qplus 0%Q l.

(** The sum of the default weights of the present extractors. *)
Definition total_weight (b : ScoreBreakdown) : Q :=
  Qsum (List.map fst (present b)).

(** The present weights rescaled by their sum. *)
Definition renormalized (b : ScoreBreakdown) : list (Q * Q) :=
  List.map (fun '(w, v) => (w / total_weight b, v)%Q) (present b).

(** Modelled from the spec: the failure of section 4.1. *)
Inductive ScoreError := NoSignalAvailable.

(** Modelled from the spec: the Scoring Engine's composite score of
    section 4.1, the weighted sum of the present sub-scores under the
    default weights renormalized over the present extractors, and
    [NoSignalAvailable] when no extractor produced a value. The engine's
    code is not part of the sources. *)
Definition score (b : ScoreBreakdown) : ScoreError + Q :=
  match present b with
  | [] => inl NoSignalAvailable
  | _ => inr (Qsum (List.map (fun '(w, v) => w * v)%Q (renormalized b)))
  end.

End Scoring.

(** ** Batch orchestrator and worker pool *)

Module Batch.
Import ExportEngine.

(** Modelled from the spec: the batch-level statuses of section 4.6. *)
Inductive Rollup := pending | in_progress | completed | partial_failure | failed.

(** Equality test on job states. *)
Definition is_state (s : JobState) (x : JobState) : bool :=
  match s, x with
  | queued, queued | rendering, rendering => true
  | ExportEngine.completed, ExportEngine.completed => true
  | ExportEngine.failed, ExportEngine.failed => true
  | _, _ => false
  end.

(** Modelled from the spec: the batch-level status of section 4.6,
    computed on demand from the states of the batch's jobs: "pending while
    any job is queued, in_progress while any job is rendering, completed
    only when every job is completed, partial_failure if the batch reached
    a terminal rollup with at least one failed job and at least one
    completed job, failed if all jobs failed". The specification says when
    the rollup is [failed] ("if") and when alone it may be [completed]
    ("only when"), so [failed] is tested first: a batch without jobs, of
    which "all jobs failed" holds, is [failed]. The orchestrator's code is
    not part of the sources. *)
Definition rollup (states : list JobState) : Rollup :=
  if List.existsb (is_state queued) states then pending
  else if List.existsb (is_state rendering) states then in_progress
  else if List.forallb (is_state ExportEngine.failed) states then failed
  else if List.forallb (is_state ExportEngine.completed) states then completed
  else partial_failure.

(** Modelled from the spec: the BatchJob record of section 3, which
    holds job ids only. *)
Record BatchJob := {
  id : nat;
  job_ids : list nat;
  created_at : nat
}.

(** The states of the jobs a batch refers to, in the order of [job_ids]. *)
Definition job_states (jobs : gmap nat ExportJob) (b : BatchJob) : list JobState :=
  omap (fun job_id => state <$> jobs !! job_id) (job_ids b).

(** Modelled from the spec: [get_batch_status(batch_id) -> rollup]. *)
Definition get_batch_status (jobs : gmap nat ExportJob) (b : BatchJob) : Rollup :=
  rollup (job_states jobs b).

(** The default of the configurable worker count (README: "Configurable
    Workers: Adjustable parallel processing (default: 3)",
    [MAX_WORKERS=3]). *)
Definition default_max_workers : nat := 3.

(** Modelled from the spec: the pool of section 4.6, the job table, the
    ids waiting for a worker, and the ids a worker is rendering. *)
Record Pool := {
  jobs : gmap nat ExportJob;
  waiting : list nat;
  running : list nat
}.

(** Modelled from the spec: [submit(clip_ids, shared_options)] creates one
    queued job per clip id, numbered from [first_id], and enqueues all of
    them. *)
Fixpoint enqueue (clip_ids : list string) (preset_name opts : string)
    (now first_id : nat) (p : Pool) : Pool :=
  match clip_ids with
  | [] => p
  | clip :: rest =>
      enqueue rest preset_name opts now (S first_id)
        {| jobs := <[first_id := new_job first_id clip preset_name opts now]>
                     (jobs p);
           waiting := waiting p ++ [first_id];
           running := running p |}
  end.

(** The pool before any submission. *)
Definition empty_pool : Pool :=
  {| jobs := ∅; waiting := []; running := [] |}.

(** Modelled from the spec: [submit_batch(clip_ids, shared_options)],
    which returns the batch handle at once, all jobs still queued. *)
Definition submit_batch (batch_id : nat) (clip_ids : list string)
    (preset_name opts : string) (now : nat) : BatchJob * Pool :=
  ({| id := batch_id; job_ids := seq 0 (List.length clip_ids);
      created_at := now |},
   enqueue clip_ids preset_name opts now 0 empty_pool).

(** Modelled from the spec: what happens in the pool, a worker looking
    for work or a render reporting on its job. *)
Inductive PoolEvent :=
| WorkerFree (now : nat)
| Renderer (job_id : nat) (e : ExportEngine.Event).

(** The job [job_id] is gone or has reached a terminal state. *)
Definition is_terminal_in (jobs : gmap nat ExportJob) (job_id : nat) : bool :=
  match jobs !! job_id with
  | Some j => terminal (state j)
  | None => true
  end.

(** Modelled from the spec: the bounded worker pool of sections 4.6 and
    5. A free worker takes the head of the queue only while fewer than
    [max_workers] jobs are being rendered; the events of a render reach
    the job it belongs to while that job is held by a worker, and the
    worker is released when the job has reached a terminal state. *)
Definition pool_step (max_workers : nat) (ev : PoolEvent) (p : Pool) : Pool :=
  match ev with
  | WorkerFree now =>
      if (List.length (running p) <? max_workers)%nat then
        match waiting p with
        | [] => p
        | job_id :: rest =>
            {| jobs := deliver job_id (Claimed now) (jobs p);
               waiting := rest;
               running := job_id :: running p |}
        end
      else p
  | Renderer job_id e =>
      if List.existsb (Nat.eqb job_id) (running p) then
        let jobs' := deliver job_id e (jobs p) in
        {| jobs := jobs';
           waiting := waiting p;
           running :=
             if is_terminal_in jobs' job_id
             then List.filter (fun r => negb (Nat.eqb job_id r)) (running p)
             else running p |}
      else p
  end.

(** A sequence of pool events. *)
Definition pool_run (max_workers : nat) (events : list PoolEvent) (p : Pool) : Pool :=
  List.fold_left (fun acc ev => pool_step max_workers ev acc) events p.

(** A job of the table is in state [rendering]. *)
Definition is_rendering (p : Pool) (job_id : nat) : Prop :=
  exists j, jobs p !! job_id = Some j /\ state j = rendering.

(** Every rendering job is held by a worker, and no more than
    [max_workers] are held. *)
Definition bounded (max_workers : nat) (p : Pool) : Prop :=
  (List.length (running p) <= max_workers)%nat
  /\ forall job_id, is_rendering p job_id -> In job_id (running p).

End Batch.

(** ** Concrete scenarios *)

Module Scenarios.

(** Section 8: semantic 80, heuristic 60, audio unavailable, visual 40. *)
Definition audio_missing : Scoring.ScoreBreakdown :=
  {| Scoring.semantic := Some 80%Q; Scoring.heuristic := Some 60%Q;
     Scoring.audio := None; Scoring.visual := Some 40%Q |}.

(** One dropped file, two firings of the interval, then the connection
    fails while the interval keeps firing. *)
Definition dropped : list VideoUpload.UploadedFile :=
  VideoUpload.onDrop [] [("talk.mp4"%string, "f1"%string)].

Definition connection_lost : list VideoUpload.Event :=
  [VideoUpload.IntervalFires; VideoUpload.IntervalFires;
   VideoUpload.FetchRejects; VideoUpload.IntervalFires].

Definition after_connection_lost : VideoUpload.UploadedFile :=
  {| VideoUpload.name := "talk.mp4"; VideoUpload.id := "f1";
     VideoUpload.progress := 30; VideoUpload.status := VideoUpload.error;
     VideoUpload.message := Some "Upload failed. Is the backend running?"%string;
     VideoUpload.jobId := None |}.

(** Three word segments, the last two overlapping. *)
Definition hello : VideoSubtitles.WordSegment :=
  {| VideoSubtitles.text := "hello"; VideoSubtitles.start_time := 0;
     VideoSubtitles.end_time := 1 |}.
Definition brave : VideoSubtitles.WordSegment :=
  {| VideoSubtitles.text := "brave"; VideoSubtitles.start_time := 1;
     VideoSubtitles.end_time := 2 |}.
Definition world : VideoSubtitles.WordSegment :=
  {| VideoSubtitles.text := "world"; VideoSubtitles.start_time := 3 # 2;
     VideoSubtitles.end_time := 3 |}.

(** An idle clip card. *)
Definition idle : ClipCard.CardState :=
  {| ClipCard.exporting := false; ClipCard.exportProgress := 0;
     ClipCard.exportMessage := ""; ClipCard.downloadUrl := None |}.

(** Export 7 of clip "c1", started from the idle card. *)
Definition started : Watch.World :=
  Watch.start idle 7 "c1" "tiktok" "" 0.

(** The job is claimed, reports 40%, is polled, and completes. *)
Definition smooth_run : list Watch.Step :=
  [Watch.Engine (ExportEngine.Claimed 1);
   Watch.Poll Watch.Delivered;
   Watch.Engine (ExportEngine.Stage 2 40 "encoding");
   Watch.Poll Watch.Delivered;
   Watch.Poll Watch.Rejected;
   Watch.Engine (ExportEngine.Stage 3 90 "muxing captions");
   Watch.Engine (ExportEngine.Rendered 4 "/exports/c1.mp4");
   Watch.Poll Watch.Delivered].

Definition smooth_trace : list Watch.World :=
  Eval vm_compute in
    match Watch.trace smooth_run started with
    | Some t => t
    | None => []
    end.

(** The job at 40%, with a poll pending. *)
Definition rendering_at_40 : Watch.World :=
  Eval vm_compute in
    match Watch.trace
            [Watch.Engine (ExportEngine.Claimed 1);
             Watch.Engine (ExportEngine.Stage 2 40 "encoding");
             Watch.Poll Watch.Delivered] started with
    | Some t => List.last t started
    | None => started
    end.

(** A job whose render is under way. *)
Definition in_render : ExportEngine.ExportJob :=
  {| ExportEngine.id := 7; ExportEngine.clip_id := "c1";
     ExportEngine.preset := "tiktok"; ExportEngine.options := "";
     ExportEngine.state := ExportEngine.rendering;
     ExportEngine.progress := 40; ExportEngine.message := "encoding";
     ExportEngine.error := None; ExportEngine.artifact_path := None;
     ExportEngine.created_at := 0; ExportEngine.updated_at := 2 |}.

(** The same job after the renderer raised. *)
Definition render_failed : ExportEngine.ExportJob :=
  {| ExportEngine.id := 7; ExportEngine.clip_id := "c1";
     ExportEngine.preset := "tiktok"; ExportEngine.options := "";
     ExportEngine.state := ExportEngine.failed;
     ExportEngine.progress := 40;
     ExportEngine.message := "ffmpeg exited with code 1";
     ExportEngine.error :=
       Some {| ExportEngine.kind := ExportEngine.RenderFailure;
               ExportEngine.detail := "ffmpeg exited with code 1" |};
     ExportEngine.artifact_path := None;
     ExportEngine.created_at := 0; ExportEngine.updated_at := 3 |}.

(** A card in the middle of an export. *)
Definition busy : ClipCard.CardState :=
  {| ClipCard.exporting := true; ClipCard.exportProgress := 40;
     ClipCard.exportMessage := "encoding"; ClipCard.downloadUrl := None |}.

(** Section 8: a batch of three clips with two workers; the render of
    the second job raises, the other two return an artifact. *)
Definition three_clips : Batch.BatchJob * Batch.Pool :=
  Batch.submit_batch 1 ["c1"; "c2"; "c3"]%string "tiktok" "" 0.

Definition second_fails : list Batch.PoolEvent :=
  [Batch.WorkerFree 1; Batch.WorkerFree 1; Batch.WorkerFree 1;
   Batch.Renderer 0 (ExportEngine.Stage 2 50 "encoding");
   Batch.Renderer 1 (ExportEngine.RenderError 3 "ffmpeg exited with code 1");
   Batch.WorkerFree 4;
   Batch.Renderer 0 (ExportEngine.Rendered 5 "/exports/c1.mp4");
   Batch.Renderer 2 (ExportEngine.Rendered 6 "/exports/c3.mp4")].

(** The pool once both workers are busy with jobs 0 and 1. *)
Definition both_workers_busy : Batch.Pool :=
  Batch.pool_run 2 (firstn 4 second_fails) (snd three_clips).

Definition after_second_fails : Batch.Pool :=
  Batch.pool_run 2 second_fails (snd three_clips).

End Scenarios.


(** ** Clip selection in the clips manager *)

Module ClipSelection.

Record Clip := {
  id : string;
  start_time : Q;
  end_time : Q;
  duration : Q;
  transcript : string;
  score : Q;
  semantic_score : option Q;
  heuristic_score : option Q;
  audio_score : option Q;
  visual_score : option Q;
  words : list VideoSubtitles.WordSegment
}.

(** [setSelectedClips(clips.map(c => c.id))]. *)
Definition handleSelectAll (clips : list Clip) : list string :=
  List.map id clips.

(** [setSelectedClips([])]. *)
Definition handleDeselectAll : list string := [].

(** [prev.includes(clipId) ? prev.filter(id => id !== clipId) : [...prev, clipId]]. *)
Definition handleToggleClip (clipId : string) (prev : list string) : list string :=
  if List.existsb (String.eqb clipId) prev
  then List.filter (fun id => negb (String.eqb id clipId)) prev
  else prev ++ [clipId].

(** What the user can do to the selection: the two buttons, and a click
    on the card (or its checkbox) of the [index]-th clip of the grid. *)
Inductive Action :=
| SelectAll
| DeselectAll
| ToggleCard (index : nat).

Definition act (clips : list Clip) (a : Action) (selectedClips : list string)
  : list string :=
  match a with
  | SelectAll => handleSelectAll clips
  | DeselectAll => handleDeselectAll
  | ToggleCard index =>
      match clips !! index with
      | Some clip => handleToggleClip (id clip) selectedClips
      | None => selectedClips
      end
  end.

(** The selection after a sequence of actions, starting from the initial
    value [[]] of the hook. *)
Definition session (clips : list Clip) (actions : list Action) : list string :=
  List.fold_left (fun selectedClips a => act clips a selectedClips) actions [].

End ClipSelection.

(** ** More of the upload component: removing a file, YouTube
    submissions, the aspect ratio *)

Module UploadList.
Import VideoUpload.

(** [setFiles((prev) => prev.filter((f) => f.id !== id))]. *)
Definition removeFile (fileId : string) (prev : list UploadedFile)
  : list UploadedFile :=
  List.filter (fun f => negb (String.eqb (id f) fileId)) prev.

(** The entry [handleYoutubeSubmit] adds for a URL. *)
Definition youtubeEntry (url fileId : string) : UploadedFile :=
  {| name := url; id := fileId; progress := 0; status := uploading;
     message := Some "Initializing YouTube download..."%string;
     jobId := None |}.

(** The update after the submission was accepted. *)
Definition markQueued (fileId job : string) (f : UploadedFile) : UploadedFile :=
  if String.eqb (id f) fileId
  then {| name := name f; id := id f; progress := 5;
          status := processing; message := Some "Queued for download..."%string;
          jobId := Some job |}
  else f.

(** The update in the [catch] block of [handleYoutubeSubmit]. *)
Definition markSubmitError (fileId : string) (f : UploadedFile) : UploadedFile :=
  if String.eqb (id f) fileId
  then {| name := name f; id := id f; progress := progress f;
          status := error;
          message := Some "Failed to submit YouTube video"%string;
          jobId := jobId f |}
  else f.

(** How [POST /api/upload/youtube] ends: [fetch] or [json()] rejects, the
    response is not ok, or the body arrives with the job id. *)
Inductive SubmitOutcome :=
| SubmitRejects
| SubmitNotOk
| SubmitOk (job : string).

(** [handleYoutubeSubmit] for the text of the URL field, the random id
    drawn for the entry and the outcome of the request: the new file list
    and the arguments of the [pollJobStatus] call, if one is made. An
    empty URL returns at once. *)
Definition handleYoutubeSubmit (youtubeUrl fileId : string) (o : SubmitOutcome)
    (prev : list UploadedFile) : list UploadedFile * option (string * string) :=
  match youtubeUrl with
  | EmptyString => (prev, None)
  | _ =>
      let added := prev ++ [youtubeEntry youtubeUrl fileId] in
      match o with
      | SubmitOk job => (List.map (markQueued fileId job) added, Some (fileId, job))
      | SubmitRejects | SubmitNotOk =>
          (List.map (markSubmitError fileId) added, None)
      end
  end.

(** A JavaScript number as [Number(...)] can return it. *)
Inductive JsNumber :=
| NaN
| Num (q : Q)
| Infinity (negative : bool).

(** Truthiness of a number: everything but [NaN] and zero. *)
Definition truthy (n : JsNumber) : bool :=
  match n with
  | NaN => false
  | Num q => negb (Qeq_bool q 0)
  | Infinity _ => true
  end.

(** [x || fallback] for a possibly [undefined] number [x]. *)
Definition orElse (x : option JsNumber) (fallback : Q) : JsNumber :=
  match x with
  | Some n => if truthy n then n else Num fallback
  | None => Num fallback
  end.

(** [s.split(":")]: the pieces of [s] between the colons, always at least
    one piece. [piece] holds the characters of the current piece, last
    first. *)
Fixpoint splitColon (piece : list ascii) (s : string) : list string :=
  match s with
  | EmptyString => [string_of_list_ascii (List.rev piece)]
  | String c rest =>
      if Ascii.eqb c ":"%char
      then string_of_list_ascii (List.rev piece) :: splitColon [] rest
      else splitColon (c :: piece) rest
  end.

(** [getAspectRatio(ratioStr = "9:16")]:
    [const [w, h] = ratioStr.split(":").map(Number); return { w: w || 9, h: h || 16 }].
    The conversion [Number] of a string to a number is a parameter. *)
Definition getAspectRatio (Number : string -> JsNumber) (ratioStr : option string)
  : JsNumber * JsNumber :=
  let parts :=
    List.map Number
      (splitColon [] (match ratioStr with Some s => s | None => "9:16"%string end)) in
  (orElse (parts !! 0%nat) 9, orElse (parts !! 1%nat) 16).

(** A conversion to instantiate [Number] with in the examples: it agrees
    with [Number] on the empty string (0), on runs of decimal digits of
    value below 2^53 (their value) and on strings of letters such as ["x"]
    ([NaN]). It is not [Number] elsewhere: signs, decimal points,
    exponents, blanks, the prefixes [0x], [0o], [0b] and [Infinity] are
    read by [Number] and answered with [NaN] here. *)
Fixpoint digitsValue (acc : Z) (s : string) : option Z :=
  match s with
  | EmptyString => Some acc
  | String c rest =>
      let n := Z.of_nat (nat_of_ascii c) in
      if (48 <=? n) && (n <=? 57) then digitsValue (10 * acc + (n - 48)) rest
      else None
  end.

Definition digitsNumber (s : string) : JsNumber :=
  match s with
  | EmptyString => Num 0
  | _ => match digitsValue 0 s with
         | Some z => Num (inject_Z z)
         | None => NaN
         end
  end.

End UploadList.

(** ** What the clip card paints, and a card under clicks and polls *)

Module CardSession.
Import ClipCard.

(** Truthiness of [downloadUrl]: a non-empty string. *)
Definition hasUrl (c : CardState) : bool :=
  match downloadUrl c with
  | Some EmptyString | None => false
  | Some _ => true
  end.

(** [{exporting && (...)}]: the progress panel. *)
Definition showsProgress (c : CardState) : bool := exporting c.

(** [{downloadUrl && !exporting && (...)}]: the "Download Ready" button. *)
Definition showsDownloadReady (c : CardState) : bool :=
  hasUrl c && negb (exporting c).

(** [{!exporting && !downloadUrl && (...)}]: the "Export" button. *)
Definition showsExportButton (c : CardState) : bool :=
  negb (exporting c) && negb (hasUrl c).

(** The initial values of the export hooks. *)
Definition initialCard : CardState :=
  {| exporting := false; exportProgress := 0; exportMessage := "";
     downloadUrl := None |}.

(** The card together with the number of [pollProgress] runs that are
    under way or scheduled by [setTimeout]. *)
Record Session := {
  card : CardState;
  polls : nat
}.

(** The user invokes [handleExport] (button or menu item) and the request
    ends as given, or a pending [pollProgress] runs and ends as given. *)
Inductive Input :=
| ExportClicked (o : PostOutcome)
| PollRuns (o : PollOutcome).

Definition step (i : Input) (s : Session) : Session :=
  match i with
  | ExportClicked o =>
      let '(c', started) := handleExport o (card s) in
      {| card := c';
         polls := match started with
                  | Some _ => S (polls s)
                  | None => polls s
                  end |}
  | PollRuns o =>
      match polls s with
      | O => s
      | S others =>
          let '(c', again) := pollProgress o (card s) in
          {| card := c'; polls := if again then S others else others |}
      end
  end.

Definition run (inputs : list Input) (s : Session) : Session :=
  List.fold_left (fun acc i => step i acc) inputs s.

(** What holds of a card reached from its initial state. *)
Definition card_ok (s : Session) : Prop :=
  (polls s <= 1)%nat
  /\ (polls s = 1%nat -> exporting (card s) = true)
  /\ (exporting (card s) = true -> downloadUrl (card s) = None).

(** A poll of [inputs] delivered a "completed" status. *)
Definition sawCompleted (inputs : list Input) : bool :=
  List.existsb
    (fun i => match i with
              | PollRuns (PollOk reply) => String.eqb (status reply) "completed"
              | _ => false
              end) inputs.

End CardSession.

(** ** The clips manager that exports through the API *)

Module ApiExport.
Import ClipsManager.

(** How [POST /api/clips/{jobId}/export/{clipId}] ends: [fetch] or
    [json()] rejects with some error message, the response is not ok and
    carries a status text, or the body arrives with the export id. *)
Inductive Post :=
| PostRejects (reason : string)
| PostNotOk (statusText : string)
| PostOk (exportId : string).

(** Body of the status reply; [message] may be missing. *)
Record StatusData := {
  status : string;
  progress : nat;
  message : option string
}.

Inductive StatusFetch :=
| StatusRejects (reason : string)
| StatusNotOk
| StatusOk (statusData : StatusData).

(** How a run ends: the loop ran to its end, an error reached the [catch]
    block with this message, nothing was selected, or the run is still
    waiting for a response. *)
Inductive Outcome :=
| Exported
| Threw (message : string)
| NothingSelected
| Waiting.

(** The clip an update writes to. *)
Definition target (u : Update) : string :=
  match u with
  | SetStatus clipId _ => clipId
  | SetProgress clipId _ => clipId
  end.

(** [statusData.message || "Export failed"]. *)
Definition failureMessage (d : StatusData) : string :=
  match message d with
  | Some EmptyString | None => "Export failed"
  | Some m => m
  end.

(** The [while (!completed && !failed)] loop for one clip, fed with the
    outcomes of its successive status requests. *)
Fixpoint pollLoop (clipId : string) (fetches : list StatusFetch)
  : list Update * Outcome :=
  match fetches with
  | [] => ([], Waiting)
  | StatusRejects reason :: _ => ([], Threw reason)
  | StatusNotOk :: _ => ([], Threw "Failed to get export status")
  | StatusOk d :: rest =>
      if String.eqb (status d) "completed" then
        ([SetProgress clipId (progress d); SetProgress clipId 100;
          SetStatus clipId "completed"], Exported)
      else if String.eqb (status d) "failed" then
        ([SetProgress clipId (progress d); SetStatus clipId "failed"],
         Threw (failureMessage d))
      else
        let '(updates, o) := pollLoop clipId rest in
        (SetProgress clipId (progress d) :: updates, o)
  end.

(** One iteration of the [for] loop. *)
Definition exportClip (clipId : string) (post : Post) (fetches : list StatusFetch)
  : list Update * Outcome :=
  let begun := [SetStatus clipId "processing"; SetProgress clipId 0] in
  match post with
  | PostRejects reason => (begun, Threw reason)
  | PostNotOk statusText =>
      (begun, Threw (String.append "Export failed: " statusText))
  | PostOk _ =>
      let '(updates, o) := pollLoop clipId fetches in (begun ++ updates, o)
  end.

(** The [for] loop over the selection; [network] holds, clip by clip, what
    the server answers. The loop stops at the first clip that throws or
    whose answers have not arrived. *)
Fixpoint exportLoop (selectedClips : list string)
    (network : list (Post * list StatusFetch)) : list Update * Outcome :=
  match selectedClips with
  | [] => ([], Exported)
  | clipId :: rest =>
      match network with
      | [] => ([SetStatus clipId "processing"; SetProgress clipId 0], Waiting)
      | (post, fetches) :: later =>
          let '(updates, o) := exportClip clipId post fetches in
          match o with
          | Exported =>
              let '(more, o') := exportLoop rest later in (updates ++ more, o')
          | _ => (updates, o)
          end
      end
  end.




(** [handleExportSelected]: the guard on an empty selection, the loop, and
    the [catch] block that marks every selected clip as failed. *)
Definition handleExportSelected (selectedClips : list string)
    (network : list (Post * list StatusFetch)) : list Update * Outcome :=
  match selectedClips with
  | [] => ([], NothingSelected)
  | _ =>
      let '(updates, o) := exportLoop selectedClips network in
      match o with
      | Threw _ =>
          (updates ++ List.map (fun clipId => SetStatus clipId "failed") selectedClips,
           o)
      | _ => (updates, o)
      end
  end.

(** Calls of the handler that overlap. "Export Selected" stays enabled
    while an export runs, and a call gives way at every [await], so the
    updates of several calls reach the hooks (through the functional form
    of the setters) interleaved, each call's own updates in its own order.
    [Interleaving prefixes trace]: [trace] is such an interleaving, in
    which the [i]-th call has issued the updates [prefixes !! i] so far. *)
Inductive Interleaving : list (list Update) -> list Update -> Prop :=
| interleaving_start (calls : nat) :
    Interleaving (List.repeat [] calls) []
| interleaving_step (prefixes : list (list Update)) (trace : list Update)
    (i : nat) (issued : list Update) (u : Update) :
    Interleaving prefixes trace ->
    prefixes !! i = Some issued ->
    Interleaving (<[i := issued ++ [u]]> prefixes) (trace ++ [u]).


End ApiExport.

(** ** Live transcription: the handlers of the event stream *)

Module LiveTranscription.

(** A value as [JSON.parse] returns it. A number is the double it
    denotes; an object holds its members in the order of the text. The
    interfaces of the component give the fields types, but nothing checks
    a payload against them: a handler sees whatever the text holds. *)
Inductive Json :=
| JNull
| JBool (b : bool)
| JNumber (q : Q)
| JString (s : string)
| JArray (items : list Json)
| JObject (members : list (string * Json)).

(** Truthiness, as [if (x)] and [x || y] test it. *)
Definition truthy (v : Json) : bool :=
  match v with
  | JNull => false
  | JBool b => b
  | JNumber q => negb (Qeq_bool q 0)
  | JString EmptyString => false
  | JString _ => true
  | JArray _ | JObject _ => true
  end.

(** The member of an object under a name; [JSON.parse] keeps the last one
    when a name is repeated. *)
Fixpoint member (key : string) (members : list (string * Json)) : option Json :=
  match members with
  | [] => None
  | (k, v) :: rest =>
      match member key rest with
      | Some later => Some later
      | None => if String.eqb k key then Some v else None
      end
  end.

(** [data.key] for the names the handlers read, on a value that is not
    [null]: a member of an object, [undefined] ([None]) on anything else.
    (On [null] the access throws; the handlers below treat it apart.) *)
Definition get (key : string) (data : Json) : option Json :=
  match data with
  | JObject members => member key members
  | _ => None
  end.

(** [x || fallback], which is also what [if (x) set(x)] leaves in a hook
    that held [fallback]. *)
Definition orElse (x : option Json) (fallback : Json) : Json :=
  match x with
  | Some v => if truthy v then v else fallback
  | None => fallback
  end.

(** [Object.is] on the values a hook can hold, by which React decides
    whether a dependency of an effect has changed: primitives are compared
    by value, a freshly parsed array or object is never the one stored. *)
Definition same (a b : Json) : bool :=
  match a, b with
  | JNull, JNull => true
  | JBool x, JBool y => Bool.eqb x y
  | JNumber x, JNumber y => Qeq_bool x y
  | JString x, JString y => String.eqb x y
  | _, _ => false
  end.

(** The state hooks of the component. What the render does with them is
    not part of this model. *)
Record View := {
  isConnected : bool;
  stage : Json;
  progress : Json;
  transcript : Json;
  wordCount : Json;
  summary : Json
}.

(** The initial values of the hooks. *)
Definition initialView : View :=
  {| isConnected := false; stage := JString "waiting"; progress := JNumber 0;
     transcript := JString EmptyString; wordCount := JNumber 0;
     summary := JNull |}.

(** The events of the stream; a payload is [None] when [JSON.parse]
    throws. *)
Inductive StreamEvent :=
| Opened
| ProgressEvent (payload : option Json)
| CompleteEvent (payload : option Json)
| ErrorEvent.

(** The handlers [onopen], ["progress"], ["complete"] and [onerror],
    each followed by what the effect does after the render: [transcript]
    is one of its dependencies, so a handler that changes the transcript
    makes the effect run again, and its cleanup closes the stream and
    sets [isConnected] to false until the new stream opens.

    A payload that fails to parse throws before anything is set. On the
    payload [null] the first property access throws: in the ["progress"]
    handler before anything is set, in the ["complete"] handler after
    [setStage("complete")] and [setProgress(100)]. The callback
    [onComplete] of the parent is taken to return. *)
Definition handle (e : StreamEvent) (v : View) : View :=
  match e with
  | Opened =>
      {| isConnected := true; stage := stage v; progress := progress v;
         transcript := transcript v; wordCount := wordCount v;
         summary := summary v |}
  | ProgressEvent None => v
  | ProgressEvent (Some JNull) => v
  | ProgressEvent (Some data) =>
      let shown := orElse (get "transcript" data) (transcript v) in
      {| isConnected := if same shown (transcript v) then isConnected v else false;
         stage := orElse (get "stage" data) (JString "processing");
         progress := orElse (get "percent" data) (JNumber 0);
         transcript := shown;
         wordCount := orElse (get "word_count" data) (wordCount v);
         summary := summary v |}
  | CompleteEvent None => v
  | CompleteEvent (Some JNull) =>
      {| isConnected := isConnected v; stage := JString "complete";
         progress := JNumber 100; transcript := transcript v;
         wordCount := wordCount v; summary := summary v |}
  | CompleteEvent (Some data) =>
      {| isConnected := false; stage := JString "complete";
         progress := JNumber 100;
         transcript := orElse (get "transcript" data) (transcript v);
         wordCount := wordCount v;
         summary := orElse (get "summary" data) (summary v) |}
  | ErrorEvent =>
      {| isConnected := false; stage := stage v; progress := progress v;
         transcript := transcript v; wordCount := wordCount v;
         summary := summary v |}
  end.

Definition receive (events : list StreamEvent) (v : View) : View :=
  List.fold_left (fun acc e => handle e acc) events v.

(** The [switch (stage)] of [getStageLabel]: a case matches a string only. *)
Definition stageIs (v : View) (name : string) : bool :=
  match stage v with
  | JString s => String.eqb s name
  | _ => false
  end.

(** [getStageLabel]. *)
Definition getStageLabel (v : View) : string :=
  if stageIs v "download" then "Downloading video..."
  else if stageIs v "transcribe" then "Transcribing audio..."
  else if stageIs v "summarize" then "Generating AI summary..."
  else if stageIs v "translate" then "Translating..."
  else if stageIs v "complete" then "Processing complete!"
  else "Initializing...".

End LiveTranscription.

(** ** The storage page: sizes *)

Module Storage.

(** [Number.prototype.toFixed(digits)]: the sign, then, for a magnitude
    below 10^21, the integer [n] nearest to [x * 10^digits], the larger one
    on a tie, in decimal digits, padded with zeros to more than [digits]
    characters, with a point before the last [digits] characters. From
    10^21 on, where every double is an integer, the magnitude is printed
    as [toString] prints it. *)
Definition toFixed (digits : nat) (x : Q) : string :=
  let negative := negb (Qle_bool 0 x) in
  let magnitude := if negative then Qopp x else x in
  let m :=
    if Qle_bool (inject_Z (10 ^ 21)) magnitude
    then Js.toString (Qfloor magnitude)
    else
      let n := Qfloor (magnitude * inject_Z (10 ^ Z.of_nat digits) + (1 # 2)) in
      let m := Js.digits n in
      match digits with
      | O => m
      | _ =>
          let k := String.length m in
          let m := if (k <=? digits)%nat
                   then String.append (Js.repeat_string (digits + 1 - k) "0") m
                   else m in
          let k := String.length m in
          String.append (substring 0 (k - digits) m)
            (String.append "." (substring (k - digits) digits m))
      end in
  String.append (if negative then "-" else "") m.

(** [formatSize]: [mb >= 1024] is shown in GB, anything else in MB, both
    with two decimals. *)
Definition formatSize (mb : Q) : string :=
  if Qle_bool 1024 mb
  then String.append (toFixed 2 (Js.div mb 1024)) " GB"
  else String.append (toFixed 2 mb) " MB".

End Storage.

(** ** Word segments that do not overlap *)

Module Segments.
Import VideoSubtitles.

(** [a] ends before [b] starts. *)
Definition before (a b : WordSegment) : Prop :=
  (end_time a < start_time b)%Q.

(** The segments come in time order and no two of them overlap. *)
Definition disjoint (segments : list WordSegment) : Prop :=
  StronglySorted before segments.

End Segments.

(** ** The polling loop of an upload job *)

Module JobPolling.
Import VideoUpload.

(** The successive runs of [poll] inside [pollJobStatus], fed with the
    outcomes of its requests: the file list it leaves and whether a
    further run is scheduled. *)
Fixpoint pollChain (fileId : string) (outcomes : list PollOutcome)
    (current : list UploadedFile) : list UploadedFile * bool :=
  match outcomes with
  | [] => (current, true)
  | o :: rest =>
      let '(updated, again) := poll fileId o current in
      if again then pollChain fileId rest updated else (updated, false)
  end.

End JobPolling.

(** ** Sample data *)

Module Samples.

Definition clip (clipId : string) : ClipSelection.Clip :=
  {| ClipSelection.id := clipId; ClipSelection.start_time := 0;
     ClipSelection.end_time := 30; ClipSelection.duration := 30;
     ClipSelection.transcript := ""; ClipSelection.score := 80;
     ClipSelection.semantic_score := Some 80%Q;
     ClipSelection.heuristic_score := Some 60%Q;
     ClipSelection.audio_score := None;
     ClipSelection.visual_score := Some 40%Q;
     ClipSelection.words := [] |}.

Definition grid : list ClipSelection.Clip := [clip "c1"; clip "c2"; clip "c3"].

(** Select all, click the second card off, click it on again. *)
Definition clicks : list ClipSelection.Action :=
  [ClipSelection.SelectAll; ClipSelection.ToggleCard 1; ClipSelection.ToggleCard 1].

(** Two files in the list. *)
Definition two_files : list VideoUpload.UploadedFile :=
  VideoUpload.onDrop [] [("talk.mp4"%string, "f1"%string);
                         ("demo.mov"%string, "f2"%string)].

Definition uploading_two : VideoUpload.Upload :=
  VideoUpload.uploadFile two_files.

Definition still_processing : VideoUpload.PollOutcome :=
  VideoUpload.PollData
    {| VideoUpload.job_status := "processing"; VideoUpload.job_progress := 35;
       VideoUpload.job_message := "Transcribing" |}.

Definition job_done : VideoUpload.PollOutcome :=
  VideoUpload.PollData
    {| VideoUpload.job_status := "completed"; VideoUpload.job_progress := 100;
       VideoUpload.job_message := "Done" |}.

(** The first clip is exported, the status of the second reads "failed". *)
Definition second_export_fails
  : list (ApiExport.Post * list ApiExport.StatusFetch) :=
  [(ApiExport.PostOk "e1",
    [ApiExport.StatusOk {| ApiExport.status := "processing";
                           ApiExport.progress := 40;
                           ApiExport.message := None |};
     ApiExport.StatusOk {| ApiExport.status := "completed";
                           ApiExport.progress := 90;
                           ApiExport.message := None |}]);
   (ApiExport.PostOk "e2",
    [ApiExport.StatusOk {| ApiExport.status := "failed";
                           ApiExport.progress := 10;
                           ApiExport.message := Some "ffmpeg exited with code 1"%string |}])].

(** Both clips are exported. *)
Definition both_exported
  : list (ApiExport.Post * list ApiExport.StatusFetch) :=
  [(ApiExport.PostOk "e1",
    [ApiExport.StatusOk {| ApiExport.status := "completed";
                           ApiExport.progress := 90;
                           ApiExport.message := None |}]);
   (ApiExport.PostOk "e2",
    [ApiExport.StatusOk {| ApiExport.status := "rendering";
                           ApiExport.progress := 55;
                           ApiExport.message := None |};
     ApiExport.StatusOk {| ApiExport.status := "completed";
                           ApiExport.progress := 100;
                           ApiExport.message := None |}])].

(** An export that completes with a download URL. *)
Definition export_and_finish : list CardSession.Input :=
  [CardSession.ExportClicked (ClipCard.PostOk 7);
   CardSession.ExportClicked (ClipCard.PostOk 8);
   CardSession.PollRuns ClipCard.PollRejects;
   CardSession.PollRuns
     (ClipCard.PollOk {| ClipCard.status := "completed"; ClipCard.progress := 100;
                         ClipCard.message := "done";
                         ClipCard.download_url := Some "/dl/7"%string |})].

(** A transcript arrives, then events without one: an unreadable
    payload, a payload with an empty transcript and a count of zero, an
    error, a payload [null], and the completion. *)
Definition stream : list LiveTranscription.StreamEvent :=
  [LiveTranscription.Opened;
   LiveTranscription.ProgressEvent
     (Some (LiveTranscription.JObject
        [("stage"%string, LiveTranscription.JString "transcribe");
         ("percent"%string, LiveTranscription.JNumber 40);
         ("transcript"%string, LiveTranscription.JString "hello world");
         ("word_count"%string, LiveTranscription.JNumber 2)]));
   LiveTranscription.ProgressEvent None;
   LiveTranscription.ProgressEvent
     (Some (LiveTranscription.JObject
        [("transcript"%string, LiveTranscription.JString EmptyString);
         ("word_count"%string, LiveTranscription.JNumber 0)]));
   LiveTranscription.ErrorEvent;
   LiveTranscription.CompleteEvent (Some LiveTranscription.JNull);
   LiveTranscription.CompleteEvent (Some (LiveTranscription.JObject []))].

Definition received : LiveTranscription.View :=
  LiveTranscription.receive (firstn 2 stream) LiveTranscription.initialView.

(** Two calls of the handler, each on one clip, both waiting for the
    answer to their request. *)
Definition first_call : list ClipsManager.Update :=
  fst (ApiExport.handleExportSelected ["c1"]%string []).
Definition second_call : list ClipsManager.Update :=
  fst (ApiExport.handleExportSelected ["c2"]%string []).

(** Three words with gaps between them. *)
Definition one : VideoSubtitles.WordSegment :=
  {| VideoSubtitles.text := "one"; VideoSubtitles.start_time := 0;
     VideoSubtitles.end_time := 1 |}.
Definition two : VideoSubtitles.WordSegment :=
  {| VideoSubtitles.text := "two"; VideoSubtitles.start_time := 2;
     VideoSubtitles.end_time := 3 |}.
Definition three : VideoSubtitles.WordSegment :=
  {| VideoSubtitles.text := "three"; VideoSubtitles.start_time := 4;
     VideoSubtitles.end_time := 5 |}.

End Samples.
(** * Properties *)

Example formatTime_125_5 : FormatTime.formatTime (251 # 2) = "2:05"%string.
Proof. reflexivity. Qed.

Example formatTime_59_875 : FormatTime.formatTime (479 # 8) = "0:59"%string.
Proof. reflexivity. Qed.

Example formatTime_3600 : FormatTime.formatTime 3600 = "60:00"%string.
Proof. reflexivity. Qed.

(** Beyond 2^53 the quotient by 60 is rounded, and from 10^21 on the
    minutes are printed in exponent notation. *)
Example formatTime_large :
  FormatTime.formatTime (inject_Z (2 ^ 56 + 160)) = "1200959900632135:56"%string
  /\ Qfloor (inject_Z (2 ^ 56 + 160) / 60) = 1200959900632134
  /\ FormatTime.formatTime (Js.round (inject_Z (6 * 10 ^ 22))) = "1e+21:00"%string.
Proof. vm_compute. repeat split. Qed.

Example toString_examples :
  Js.toString (2 ^ 53 - 1) = "9007199254740991"%string
  /\ Js.toString (2 ^ 60) = "1152921504606847000"%string
  /\ Js.toString (2 ^ 64) = "18446744073709552000"%string
  /\ Js.toString (10 ^ 21) = "1e+21"%string
  /\ Js.toString (2 ^ 70) = "1.1805916207174113e+21"%string
  /\ Js.toString (- 2 ^ 70) = "-1.1805916207174113e+21"%string
  /\ Js.toString (Qfloor (Js.round (inject_Z (10 ^ 23)))) = "1e+23"%string.
Proof. vm_compute. repeat split. Qed.

(** ** The floor of a rational *)

Lemma Qfloor_unique (x : Q) (z : Z) :
  (inject_Z z <= x)%Q -> (x < inject_Z (z + 1))%Q -> Qfloor x = z.
Proof.
  intros Hlo Hhi.
  assert (H1 : z <= Qfloor x).
  { rewrite <- (Qfloor_Z z). now apply Qfloor_resp_le. }
  assert (H2 : Qfloor x < z + 1).
  { rewrite Zlt_Qlt. eapply Qle_lt_trans; [apply Qfloor_le | exact Hhi]. }
  lia.
Qed.

Lemma Qfloor_bounds (x : Q) :
  (inject_Z (Qfloor x) <= x)%Q /\ (x < inject_Z (Qfloor x) + 1)%Q.
Proof.
  split; [apply Qfloor_le |].
  generalize (Qlt_floor x). rewrite inject_Z_plus. trivial.
Qed.

(** ** Rounding to the nearest double *)

Section DoubleFacts.
Import Js.

Lemma pow2_pos (e : Z) : (0 < pow2 e)%Q.
Proof. apply Qpower_0_lt. reflexivity. Qed.

Lemma pow2_add (a b : Z) : (pow2 (a + b) == pow2 a * pow2 b)%Q.
Proof. apply Qpower_plus. discriminate. Qed.

Lemma pow2_le (a b : Z) : a <= b -> (pow2 a <= pow2 b)%Q.
Proof. intros H. apply Qpower_le_compat_l; [exact H | discriminate]. Qed.

Lemma pow2_lt (a b : Z) : a < b -> (pow2 a < pow2 b)%Q.
Proof. intros H. apply Qpower_lt_compat_l; [exact H | reflexivity]. Qed.

Lemma pow2_lt_inv (a b : Z) : (pow2 a < pow2 b)%Q -> a < b.
Proof. intros H. eapply Qpower_lt_compat_l_inv; [exact H | reflexivity]. Qed.

Lemma pow2_Z (e : Z) : 0 <= e -> (pow2 e == inject_Z (2 ^ e))%Q.
Proof. intros H. unfold pow2. now rewrite Zpower_Qpower. Qed.

Lemma pow2_sub (a b : Z) : (pow2 (a - b) == pow2 a / pow2 b)%Q.
Proof.
  unfold Z.sub. rewrite pow2_add. unfold pow2 at 2. rewrite Qpower_opp.
  reflexivity.
Qed.

Lemma binade_spec (x : Q) :
  (0 < x)%Q -> (pow2 (binade x) <= x)%Q /\ (x < pow2 (binade x + 1))%Q.
Proof.
  destruct x as [n d]. intros Hx.
  assert (Hn : 0 < n) by (unfold Qlt in Hx; simpl in Hx; lia).
  pose proof (Z.log2_spec n Hn) as [Ln Un].
  pose proof (Z.log2_spec (Zpos d) eq_refl) as [Ld Ud].
  pose proof (Z.log2_nonneg n) as Pn.
  pose proof (Z.log2_nonneg (Zpos d)) as Pd.
  unfold binade. cbn [Qnum Qden].
  set (ln := Z.log2 n) in *. set (ld := Z.log2 (Zpos d)) in *.
  assert (P1 : 0 < 2 ^ ld) by (apply Z.pow_pos_nonneg; lia).
  assert (P2 : 0 < 2 ^ Z.succ ld) by (apply Z.pow_pos_nonneg; lia).
  assert (Hi : (n # d < pow2 (ln - ld + 1))%Q).
  { replace (ln - ld + 1) with (Z.succ ln - ld) by lia.
    rewrite pow2_sub, !pow2_Z by lia.
    apply Qlt_shift_div_l; [change 0%Q with (inject_Z 0); rewrite <- Zlt_Qlt; lia |].
    unfold Qlt. cbn [Qnum Qden Qmult inject_Z].
    rewrite Pos.mul_1_r. nia. }
  assert (Lo : (pow2 (ln - ld - 1) <= n # d)%Q).
  { replace (ln - ld - 1) with (ln - Z.succ ld) by lia.
    rewrite pow2_sub, !pow2_Z by lia.
    apply Qle_shift_div_r; [change 0%Q with (inject_Z 0); rewrite <- Zlt_Qlt; lia |].
    unfold Qle. cbn [Qnum Qden Qmult inject_Z].
    rewrite Pos.mul_1_r. nia. }
  destruct (Qle_bool (pow2 (ln - ld)) (n # d)) eqn:E.
  - split; [now apply Qle_bool_iff | exact Hi].
  - split; [exact Lo |].
    replace (ln - ld - 1 + 1) with (ln - ld) by lia.
    apply Qnot_le_lt. intros C. apply Qle_bool_iff in C. congruence.
Qed.

Lemma binade_ge (x : Q) (k : Z) :
  (0 < x)%Q -> (pow2 k <= x)%Q -> k <= binade x.
Proof.
  intros Hx Hk. destruct (binade_spec x Hx) as [_ Hi].
  assert (k < binade x + 1); [| lia].
  apply pow2_lt_inv. eapply Qle_lt_trans; eassumption.
Qed.

Lemma binade_lt (x : Q) (k : Z) :
  (0 < x)%Q -> (x < pow2 k)%Q -> binade x < k.
Proof.
  intros Hx Hk. destruct (binade_spec x Hx) as [Lo _].
  apply pow2_lt_inv. eapply Qle_lt_trans; eassumption.
Qed.

Lemma nearest_even_bounds (m : Q) :
  (m - (1 # 2) <= inject_Z (nearest_even m))%Q
  /\ (inject_Z (nearest_even m) <= m + (1 # 2))%Q
  /\ Qfloor m <= nearest_even m.
Proof.
  unfold nearest_even.
  pose proof (Qfloor_le m) as Lo. pose proof (Qlt_floor m) as Hi.
  rewrite inject_Z_plus in Hi. change (inject_Z 1) with 1%Q in Hi.
  destruct (m - inject_Z (Qfloor m) ?= 1 # 2)%Q eqn:E.
  - apply Qeq_alt in E.
    destruct (Z.even (Qfloor m)); [| rewrite inject_Z_plus; change (inject_Z 1) with 1%Q];
      (split; [lra | split; [lra | lia]]).
  - apply Qlt_alt in E. split; [lra | split; [lra | lia]].
  - apply Qgt_alt in E. rewrite inject_Z_plus. change (inject_Z 1) with 1%Q.
    split; [lra | split; [lra | lia]].
Qed.

Lemma nearest_even_comp (m m' : Q) :
  (m == m')%Q -> nearest_even m = nearest_even m'.
Proof.
  intros E. unfold nearest_even.
  rewrite (Qfloor_comp _ _ E).
  assert (C : (m - inject_Z (Qfloor m') ?= 1 # 2)%Q
              = (m' - inject_Z (Qfloor m') ?= 1 # 2)%Q).
  { apply Qcompare_comp; [now rewrite E | reflexivity]. }
  now rewrite C.
Qed.

Lemma nearest_even_Z (m : Q) (z : Z) :
  (m == inject_Z z)%Q -> nearest_even m = z.
Proof.
  intros E. unfold nearest_even.
  assert (F : Qfloor m = z) by (rewrite E; apply Qfloor_Z).
  rewrite F.
  assert (C : (m - inject_Z z ?= 1 # 2)%Q = Lt) by (apply (proj1 (Qlt_alt _ _)); lra).
  now rewrite C.
Qed.

Lemma Qabs_pos_eq (x : Q) : (0 < x)%Q -> Qabs x = x.
Proof.
  destruct x as [n d]. unfold Qlt. cbn. intros H.
  rewrite Z.abs_eq by lia. reflexivity.
Qed.

Lemma round_pos (x : Q) :
  (0 < x)%Q ->
  round x = (inject_Z (nearest_even (x / ulp x)) * ulp x)%Q.
Proof.
  intros Hx. unfold round.
  destruct (Qeq_bool x 0) eqn:E.
  - apply Qeq_bool_iff in E. lra.
  - rewrite (Qabs_pos_eq x Hx).
    assert (L : Qle_bool 0 x = true) by (apply Qle_bool_iff; lra).
    now rewrite L.
Qed.

Lemma round_zero (x : Q) : (x == 0)%Q -> round x = 0%Q.
Proof.
  intros E. unfold round. apply Qeq_bool_iff in E. now rewrite E.
Qed.

Lemma ulp_pos (x : Q) : (0 < ulp x)%Q.
Proof. apply pow2_pos. Qed.

(** Below 2^53 the spacing of the doubles divides one. *)
Lemma ulp_divides_one (x : Q) :
  binade x <= 52 ->
  exists P : Z, 0 < P /\ (inject_Z P * ulp x == 1)%Q.
Proof.
  intros H. unfold ulp.
  set (e := Z.max (binade x) (-1022)).
  assert (He : e <= 52) by (unfold e; lia).
  exists (2 ^ (52 - e)). split; [apply Z.pow_pos_nonneg; lia |].
  rewrite <- pow2_Z by lia. rewrite <- pow2_add.
  replace (52 - e + (e - 52)) with 0 by lia. reflexivity.
Qed.

Lemma round_le_half (x : Q) :
  (0 < x)%Q -> (round x <= x + ulp x * (1 # 2))%Q.
Proof.
  intros Hx. rewrite round_pos by assumption.
  pose proof (ulp_pos x) as Hu.
  destruct (nearest_even_bounds (x / ulp x)) as (_ & Hi & _).
  assert (E : (x == x / ulp x * ulp x)%Q) by (field; lra).
  revert Hi E. generalize (inject_Z (nearest_even (x / ulp x))) (x / ulp x)%Q.
  revert Hu. generalize (ulp x). intros u Hu r m Hi E. nra.
Qed.

Lemma round_int_below (x : Q) (q : Z) :
  (0 < x)%Q -> binade x <= 52 ->
  (inject_Z q <= x)%Q -> (inject_Z q <= round x)%Q.
Proof.
  intros Hx Hb Hq. rewrite round_pos by assumption.
  pose proof (ulp_pos x) as Hu.
  destruct (ulp_divides_one x Hb) as (P & HP & EP).
  destruct (nearest_even_bounds (x / ulp x)) as (_ & _ & Fl).
  assert (A : q * P <= Qfloor (x / ulp x)).
  { rewrite <- (Qfloor_Z (q * P)). apply Qfloor_resp_le.
    rewrite inject_Z_mult.
    assert (E : (x / ulp x == x * inject_Z P)%Q).
    { apply Qmult_inj_r with (z := ulp x); [lra |].
      rewrite <- Qmult_assoc, EP. field. lra. }
    rewrite E.
    apply Qmult_le_compat_r; [exact Hq |].
    change 0%Q with (inject_Z 0). rewrite <- Zle_Qle. lia. }
  assert (B : (inject_Z (q * P) <= inject_Z (nearest_even (x / ulp x)))%Q).
  { rewrite <- Zle_Qle. lia. }
  rewrite inject_Z_mult in B.
  revert B EP. generalize (inject_Z (nearest_even (x / ulp x))).
  revert Hu. generalize (ulp x) (inject_Z P) (inject_Z q).
  intros u p k Hu r B EP.
  assert (K : (k == k * p * u)%Q) by (rewrite <- Qmult_assoc, EP; ring).
  rewrite K. apply Qmult_le_compat_r; lra.
Qed.

(** A double below 2^53 that is less than an integer stays one spacing
    away from it. *)
Lemma double_gap (s : Q) (N : Z) :
  (0 < s)%Q -> is_double s -> binade s <= 52 ->
  (s < inject_Z N)%Q -> (s + ulp s <= inject_Z N)%Q.
Proof.
  intros Hs Hd Hb HN. unfold is_double in Hd.
  rewrite round_pos in Hd by assumption.
  pose proof (ulp_pos s) as Hu.
  destruct (ulp_divides_one s Hb) as (P & HP & EP).
  set (R := nearest_even (s / ulp s)) in *.
  assert (A : R < N * P).
  { rewrite Zlt_Qlt, inject_Z_mult.
    apply Qmult_lt_r with (z := ulp s); [exact Hu |].
    rewrite <- Qmult_assoc, EP, Hd. lra. }
  assert (B : (inject_Z (R + 1) <= inject_Z (N * P))%Q).
  { rewrite <- Zle_Qle. lia. }
  rewrite inject_Z_plus, inject_Z_mult in B. change (inject_Z 1) with 1%Q in B.
  revert B EP Hd. generalize (inject_Z R) (inject_Z P) (inject_Z N).
  revert Hu. generalize (ulp s). intros u Hu r p n B EP Hd.
  assert (K : (n == n * p * u)%Q) by (rewrite <- Qmult_assoc, EP; ring).
  rewrite K, <- Hd.
  assert (C : ((r + 1) * u <= n * p * u)%Q) by (apply Qmult_le_compat_r; lra).
  lra.
Qed.

Lemma binade_below_53 (x : Q) :
  (0 < x)%Q -> (x < inject_Z (2 ^ 53))%Q -> binade x <= 52.
Proof.
  intros Hx H. assert (binade x < 53); [| lia].
  apply binade_lt; [exact Hx |]. now rewrite pow2_Z by lia.
Qed.

Lemma round_nonneg (x : Q) : (0 <= x)%Q -> (0 <= round x)%Q.
Proof.
  intros Hx. destruct (Qlt_le_dec 0 x) as [Hp | Hz].
  - rewrite round_pos by assumption.
    pose proof (ulp_pos x) as Hu.
    destruct (nearest_even_bounds (x / ulp x)) as (_ & _ & Fl).
    apply Qmult_le_0_compat; [| lra].
    change 0%Q with (inject_Z 0). rewrite <- Zle_Qle.
    assert (0 <= Qfloor (x / ulp x)); [| lia].
    change 0 with (Qfloor 0). apply Qfloor_resp_le.
    apply Qle_shift_div_l; lra.
  - rewrite round_zero; lra.
Qed.

(** Integers below 2^53 are doubles. *)
Lemma is_double_Z (z : Z) : 0 <= z < 2 ^ 53 -> is_double (inject_Z z).
Proof.
  intros [Lo Hi]. unfold is_double.
  destruct (Z.eq_dec z 0) as [-> | Hz]; [reflexivity |].
  assert (Hx : (0 < inject_Z z)%Q).
  { change 0%Q with (inject_Z 0). rewrite <- Zlt_Qlt. lia. }
  assert (Hb : binade (inject_Z z) <= 52).
  { apply binade_below_53; [exact Hx |]. rewrite <- Zlt_Qlt. exact Hi. }
  rewrite round_pos by assumption.
  pose proof (ulp_pos (inject_Z z)) as Hu.
  destruct (ulp_divides_one _ Hb) as (P & HP & EP).
  rewrite (nearest_even_Z _ (z * P)).
  - rewrite inject_Z_mult, <- Qmult_assoc, EP. ring.
  - rewrite inject_Z_mult.
    apply Qmult_inj_r with (z := ulp (inject_Z z)); [lra |].
    rewrite <- Qmult_assoc, EP. field. lra.
Qed.

(** Dividing a double below 2^53 by 60 never rounds up to the next
    integer: the floor of the rounded quotient is the floor of the exact
    one. *)
Lemma floor_div_60 (s : Q) :
  (0 <= s)%Q -> is_double s -> (s < inject_Z (2 ^ 53))%Q ->
  Qfloor (div s 60) = Qfloor (s / 60).
Proof.
  intros Hs Hd Hlt. unfold div.
  destruct (Qlt_le_dec 0 s) as [Hp | Hz].
  2: { assert (E : (s / 60 == 0)%Q) by (assert (s == 0)%Q as -> by lra; reflexivity).
       rewrite round_zero by exact E. now rewrite E. }
  set (x := (s / 60)%Q).
  assert (Ex : (s == 60 * x)%Q) by (unfold x; field).
  assert (Hx : (0 < x)%Q) by lra.
  assert (Hbx : binade x <= 52) by (apply binade_below_53; lra).
  assert (Hbs : binade s <= 52) by (apply binade_below_53; assumption).
  pose proof (Qfloor_le x) as Flo. pose proof (Qlt_floor x) as Fhi.
  assert (Hq : 0 <= Qfloor x).
  { change 0 with (Qfloor 0). apply Qfloor_resp_le. lra. }
  apply Qfloor_unique; [now apply round_int_below |].
  pose proof (round_le_half x Hx) as Hr.
  pose proof (binade_spec x Hx) as [Blo Bhi].
  destruct (Z_lt_le_dec (binade x) (-1022)) as [Sub | Nor].
  - (* the quotient is subnormal: far below one *)
    assert (U : (ulp x <= 1 # 2)%Q).
    { unfold ulp. change (1 # 2)%Q with (pow2 (-1)). apply pow2_le. lia. }
    assert (X : (x < 1 # 2)%Q).
    { eapply Qlt_le_trans; [exact Bhi |].
      change (1 # 2)%Q with (pow2 (-1)). apply pow2_le. lia. }
    assert (K : (1 <= inject_Z (Qfloor x + 1))%Q).
    { change 1%Q with (inject_Z 1). rewrite <- Zle_Qle. lia. }
    pose proof (ulp_pos x). lra.
  - assert (G : (s + ulp s <= inject_Z (60 * (Qfloor x + 1)))%Q).
    { apply double_gap; try assumption.
      rewrite inject_Z_mult. change (inject_Z 60) with 60%Q. lra. }
    rewrite inject_Z_mult in G. change (inject_Z 60) with 60%Q in G.
    assert (B5 : binade x + 5 <= binade s).
    { apply binade_ge; [exact Hp |].
      rewrite pow2_add. change (pow2 5) with 32%Q. lra. }
    assert (U : (32 * ulp x <= ulp s)%Q).
    { unfold ulp. rewrite (Z.max_l (binade x)) by lia.
      assert (E : (32 * pow2 (binade x - 52) == pow2 (binade x - 52 + 5))%Q)
        by (rewrite pow2_add; change (pow2 5) with 32%Q; ring).
      rewrite E. apply pow2_le. lia. }
    pose proof (ulp_pos x). lra.
Qed.

(** From one on, rounding moves a number by less than half of itself. *)
Lemma round_le_3half (x : Q) : (1 <= x)%Q -> (round x <= x * (3 # 2))%Q.
Proof.
  intros Hx. assert (Hp : (0 < x)%Q) by lra.
  pose proof (round_le_half x Hp) as Hr.
  pose proof (binade_spec x Hp) as [Blo _].
  assert (B0 : 0 <= binade x).
  { apply binade_ge; [exact Hp |]. exact Hx. }
  assert (U : (ulp x <= pow2 (binade x))%Q).
  { unfold ulp. apply pow2_le. lia. }
  lra.
Qed.

End DoubleFacts.

(** ** Time formatting *)

Section FormatTimeFacts.
Import FormatTime.

(** On a non-negative dividend the quotient of [%] rounds down. *)
Lemma trunc_nonneg (q : Q) : (0 <= q)%Q -> Js.trunc q = Qfloor q.
Proof.
  intros H. unfold Js.trunc.
  apply Qle_bool_iff in H. now rewrite H.
Qed.

Lemma minutes_bounds (s : Q) :
  (0 <= s)%Q ->
  (60 * inject_Z (Qfloor (s / 60)) <= s)%Q /\
  (s < 60 * inject_Z (Qfloor (s / 60)) + 60)%Q.
Proof.
  intros Hs.
  destruct (Qfloor_bounds (s / 60)) as [Hlo Hhi].
  assert (E : (s == 60 * (s / 60))%Q) by field.
  revert Hlo Hhi E.
  generalize (inject_Z (Qfloor (s / 60))) (s / 60)%Q.
  intros m q Hlo Hhi E. split; lra.
Qed.

Lemma rem_60_nonneg (s : Q) :
  (0 <= s)%Q ->
  Js.rem s 60 = (s - 60 * inject_Z (Qfloor (s / 60)))%Q.
Proof.
  intros Hs. unfold Js.rem. rewrite trunc_nonneg; [reflexivity |].
  apply Qle_shift_div_l; [reflexivity | lra].
Qed.

Lemma seconds_floor (s : Q) :
  (0 <= s)%Q ->
  Js.floor (Js.rem s 60) = Qfloor s - 60 * Qfloor (s / 60).
Proof.
  intros Hs. rewrite rem_60_nonneg by assumption. unfold Js.floor.
  destruct (Qfloor_bounds s) as [Hlo Hhi].
  apply Qfloor_unique.
  - unfold Z.sub. rewrite inject_Z_plus, inject_Z_opp, inject_Z_mult.
    change (inject_Z 60) with 60%Q. lra.
  - replace (Qfloor s - 60 * Qfloor (s / 60) + 1)
      with ((Qfloor s + 1) + - (60 * Qfloor (s / 60))) by lia.
    rewrite inject_Z_plus, inject_Z_opp, inject_Z_mult, inject_Z_plus.
    change (inject_Z 60) with 60%Q. change (inject_Z 1) with 1%Q. lra.
Qed.

Lemma minutes_div (s : Q) :
  (0 <= s)%Q -> Qfloor (s / 60) = Qfloor s / 60.
Proof.
  intros Hs.
  destruct (minutes_bounds s Hs) as [Hlo Hhi].
  destruct (Qfloor_bounds s) as [Flo Fhi].
  revert Hlo Hhi. generalize (Qfloor (s / 60)). intros m Hlo Hhi.
  assert (A : 60 * m <= Qfloor s).
  { assert (Qfloor (inject_Z (60 * m)) <= Qfloor s) as A'.
    { apply Qfloor_resp_le. rewrite inject_Z_mult.
      change (inject_Z 60) with 60%Q. exact Hlo. }
    now rewrite Qfloor_Z in A'. }
  assert (B : Qfloor s < 60 * m + 60).
  { rewrite Zlt_Qlt, inject_Z_plus, inject_Z_mult.
    change (inject_Z 60) with 60%Q. lra. }
  apply Z.div_unique with (r := Qfloor s - 60 * m); lia.
Qed.

Lemma seconds_mod (s : Q) :
  (0 <= s)%Q -> Js.floor (Js.rem s 60) = Qfloor s mod 60.
Proof.
  intros Hs. rewrite seconds_floor by assumption.
  rewrite minutes_div by assumption.
  rewrite Z.mod_eq by lia. reflexivity.
Qed.

(** Padding the decimal form of a value in 0..59 yields its two digits. *)
Lemma padStart_two_digits (z : Z) :
  0 <= z < 60 -> Js.padStart 2 "0" (Js.toString z) = two_digits z.
Proof.
  intros Hz.
  assert (E : exists k : nat, (k < 60)%nat /\ z = Z.of_nat k).
  { exists (Z.to_nat z). lia. }
  destruct E as (k & Hk & ->).
  do 60 (destruct k as [| k]; [reflexivity |]).
  lia.
Qed.

(** Below 2^53 an integer is printed by its digits. *)
Lemma toString_small (z : Z) :
  Z.abs z < 2 ^ 53 -> Js.toString z = Js.digits z.
Proof.
  intros H. unfold Js.toString.
  apply Z.ltb_lt in H. now rewrite H.
Qed.

(** The seconds field, for every non-negative number. *)
Lemma seconds_field (s : Q) :
  (0 <= s)%Q ->
  Js.padStart 2 "0" (Js.toString (Js.floor (Js.rem s 60)))
  = two_digits (Qfloor s mod 60).
Proof.
  intros Hs. rewrite seconds_mod by assumption.
  apply padStart_two_digits. apply Z.mod_pos_bound. lia.
Qed.

(** The minutes of a double below 2^53: the division does not round past
    an integer, and the value is small enough to be printed by its
    digits. *)
Lemma minutes_field (s : Q) :
  (0 <= s)%Q -> Js.is_double s -> (s < inject_Z (2 ^ 53))%Q ->
  Js.floor (Js.div s 60) = Qfloor s / 60
  /\ Js.toString (Qfloor s / 60) = Js.digits (Qfloor s / 60).
Proof.
  intros Hs Hd Hlt. unfold Js.floor.
  rewrite floor_div_60, minutes_div by assumption.
  split; [reflexivity |]. apply toString_small.
  assert (F0 : 0 <= Qfloor s).
  { change 0 with (Qfloor 0). now apply Qfloor_resp_le. }
  assert (F1 : Qfloor s < 2 ^ 53).
  { rewrite Zlt_Qlt. eapply Qle_lt_trans; [apply Qfloor_le | exact Hlt]. }
  assert (0 <= Qfloor s / 60 <= Qfloor s).
  { split; [apply Z.div_pos; lia |]. apply Z.div_le_upper_bound; lia. }
  lia.
Qed.

Lemma formatTime_form (s : Q) :
  (0 <= s)%Q -> Js.is_double s -> (s < inject_Z (2 ^ 53))%Q ->
  formatTime s =
    String.append (Js.digits (Qfloor s / 60))
      (String.append ":" (two_digits (Qfloor s mod 60))).
Proof.
  intros Hs Hd Hlt. unfold formatTime. cbv zeta.
  rewrite seconds_field by assumption.
  destruct (minutes_field s Hs Hd Hlt) as [-> ->]. reflexivity.
Qed.

End FormatTimeFacts.

(** C10. For every non-negative double [s], [formatTime s] is the string of
    [Math.floor] of the rounded quotient [s / 60], a colon, and the
    two-digit zero-padded decimal form of [floor (s mod 60)], where
    [s mod 60 = s - 60 * floor (s / 60)]. The seconds value lies in 0..59,
    so its field always has exactly two characters, and for [s < 60] the
    result starts with ["0:"]. Below 2^53 the rounded quotient has the
    floor of the exact one, [floor (s / 60)], printed by its decimal
    digits. *)
Theorem formatTime_spec (s : Q) :
  (0 <= s)%Q -> Js.is_double s ->
  let secs := Qfloor (s - 60 * inject_Z (Qfloor (s / 60))) in
  FormatTime.formatTime s =
    String.append (Js.toString (Js.floor (Js.div s 60)))
      (String.append ":" (FormatTime.two_digits secs))
  /\ 0 <= secs < 60
  /\ secs = Qfloor s mod 60
  /\ String.length (FormatTime.two_digits secs) = 2%nat
  /\ ((s < inject_Z (2 ^ 53))%Q ->
      let mins := Qfloor (s / 60) in
      Js.floor (Js.div s 60) = mins
      /\ mins = Qfloor s / 60
      /\ FormatTime.formatTime s =
           String.append (Js.digits mins)
             (String.append ":" (FormatTime.two_digits secs)))
  /\ ((s < 60)%Q ->
      FormatTime.formatTime s =
        String.append "0:" (FormatTime.two_digits (Qfloor s))).
Proof.
  intros Hs Hd secs.
  assert (Hrem : Js.floor (Js.rem s 60) = secs).
  { unfold secs. now rewrite rem_60_nonneg. }
  assert (Hmod : secs = Qfloor s mod 60).
  { rewrite <- Hrem. now apply seconds_mod. }
  assert (Hrange : 0 <= secs < 60).
  { rewrite Hmod. apply Z.mod_pos_bound. lia. }
  split.
  { unfold FormatTime.formatTime. cbv zeta.
    rewrite seconds_field by assumption. now rewrite Hmod. }
  split; [exact Hrange |]. split; [exact Hmod |]. split; [reflexivity |].
  split.
  - intros Hlt mins.
    destruct (minutes_field s Hs Hd Hlt) as [M1 M2].
    assert (M3 : mins = Qfloor s / 60) by now apply minutes_div.
    split; [now rewrite M3 |]. split; [exact M3 |].
    rewrite formatTime_form by assumption. now rewrite M3, Hmod.
  - intros Hlt.
    assert (H53 : (s < inject_Z (2 ^ 53))%Q).
    { eapply Qlt_trans; [exact Hlt |]. reflexivity. }
    rewrite formatTime_form by assumption.
    assert (Hfl : 0 <= Qfloor s < 60).
    { destruct (Qfloor_bounds s) as [Flo Fhi]. split.
      - change 0 with (Qfloor 0). now apply Qfloor_resp_le.
      - rewrite Zlt_Qlt. change (inject_Z 60) with 60%Q. lra. }
    rewrite Z.div_small, Z.mod_small by assumption. reflexivity.
Qed.

Lemma formatTime_spec_witness :
  FormatTime.formatTime (251 # 2) = "2:05"%string
  /\ FormatTime.formatTime (119 # 2) = "0:59"%string.
Proof.
  split.
  - refine (proj1 (formatTime_spec (251 # 2) _ _)).
    + unfold Qle; simpl; lia.
    + vm_compute; reflexivity.
  - refine (proj2 (proj2 (proj2 (proj2 (proj2
              (formatTime_spec (119 # 2) _ _))))) _).
    + unfold Qle; simpl; lia.
    + vm_compute; reflexivity.
    + unfold Qlt; simpl; lia.
Defined.

(** C10, as stated, at a time beyond 2^53 seconds: the quotient
    [(60 * 2^50 + 56) / 60] is [2^50 + 14/15], which is not a double and
    rounds up to [2^50 + 1], so the minutes shown are one more than
    [floor (s / 60)]. *)
Lemma formatTime_minutes_rounded_up :
  (0 <= inject_Z (60 * 2 ^ 50 + 56))%Q
  /\ Js.is_double (inject_Z (60 * 2 ^ 50 + 56))
  /\ Qfloor (inject_Z (60 * 2 ^ 50 + 56) / 60) = 1125899906842624
  /\ FormatTime.formatTime (inject_Z (60 * 2 ^ 50 + 56))
     = "1125899906842625:56"%string
  /\ FormatTime.formatTime (inject_Z (60 * 2 ^ 50 + 56))
     <> String.append
          (Js.digits (Qfloor (inject_Z (60 * 2 ^ 50 + 56) / 60)))
          (String.append ":"
             (FormatTime.two_digits
                (Qfloor (inject_Z (60 * 2 ^ 50 + 56)
                         - 60 * inject_Z (Qfloor (inject_Z (60 * 2 ^ 50 + 56) / 60)))))).
Proof.
  split; [unfold Qle; simpl; lia |].
  split; [vm_compute; reflexivity |].
  split; [vm_compute; reflexivity |].
  split; [vm_compute; reflexivity |].
  vm_compute. discriminate.
Qed.

(** ** Subtitle lookup *)

Section SubtitleFacts.
Import VideoSubtitles.

Lemma covers_within (t : Q) (seg : WordSegment) :
  covers t seg = true <-> within t seg.
Proof.
  unfold covers, within.
  rewrite Bool.andb_true_iff, !Qle_bool_iff. reflexivity.
Qed.

Lemma covers_false (t : Q) (seg : WordSegment) :
  covers t seg = false <-> ~ VideoSubtitles.within t seg.
Proof.
  rewrite <- covers_within. destruct (covers t seg); split; congruence.
Qed.

Lemma find_first (t : Q) (before after : list WordSegment) (seg : WordSegment) :
  Forall (fun s => ~ VideoSubtitles.within t s) before ->
  within t seg ->
  List.find (covers t) (before ++ seg :: after) = Some seg.
Proof.
  intros Hbefore Hseg.
  induction Hbefore as [| s before Hs _ IH]; simpl.
  - apply covers_within in Hseg. now rewrite Hseg.
  - apply covers_false in Hs. now rewrite Hs.
Qed.

Lemma find_nothing (t : Q) (segs : list WordSegment) :
  Forall (fun s => ~ VideoSubtitles.within t s) segs -> List.find (covers t) segs = None.
Proof.
  induction 1 as [| s segs Hs _ IH]; simpl; [reflexivity |].
  apply covers_false in Hs. now rewrite Hs.
Qed.

Lemma currentText_find (t : Q) (segs : list WordSegment) :
  currentText (Some segs) t =
    match List.find (covers t) segs with
    | Some seg => text seg
    | None => EmptyString
    end.
Proof. destruct segs; reflexivity. Qed.

(** Whenever the overlay is painted it carries [currentText]. *)
Lemma overlay_text (show : bool) (segments : option (list WordSegment))
    (t : Q) (shown : string) :
  overlay show segments t = Some shown -> shown = currentText segments t.
Proof.
  unfold overlay. destruct segments as [[| seg segs] |]; try discriminate.
  destruct show; [| discriminate]. now intros [= <-].
Qed.

End SubtitleFacts.

(** C8. The subtitle text at playback time [t] is the text of the first
    segment, in list order, whose interval [start_time <= t <= end_time]
    contains [t]; it is the empty string when no interval contains [t],
    which includes an empty and an absent segment list. The overlay, when
    painted, shows exactly this text. *)
Theorem currentText_first_covering (t : Q) :
  (forall before seg after,
      Forall (fun s => ~ VideoSubtitles.within t s) before ->
      VideoSubtitles.within t seg ->
      VideoSubtitles.currentText (Some (before ++ seg :: after)) t =
        VideoSubtitles.text seg)
  /\ (forall segs,
      Forall (fun s => ~ VideoSubtitles.within t s) segs ->
      VideoSubtitles.currentText (Some segs) t = EmptyString)
  /\ VideoSubtitles.currentText (Some []) t = EmptyString
  /\ VideoSubtitles.currentText None t = EmptyString
  /\ (forall show segments shown,
        VideoSubtitles.overlay show segments t = Some shown ->
        shown = VideoSubtitles.currentText segments t).
Proof.
  split; [| split; [| split; [| split]]]; try reflexivity.
  - intros before seg after Hbefore Hseg.
    rewrite currentText_find, find_first by assumption. reflexivity.
  - intros segs Hnone.
    rewrite currentText_find, find_nothing by assumption. reflexivity.
  - intros show segments shown. apply overlay_text.
Qed.

(** ** Simulated upload progress *)

Section UploadFacts.
Import VideoUpload.
Variable fileId : string.

Lemma entries_map (g : UploadedFile -> UploadedFile) (l : list UploadedFile) :
  (forall f, id (g f) = id f) ->
  entries fileId (List.map g l) = List.map g (entries fileId l).
Proof.
  intros Hid. unfold entries.
  induction l as [| f l IH]; simpl; [reflexivity |].
  rewrite Hid. destruct (String.eqb (id f) fileId); simpl; now rewrite IH.
Qed.

Lemma tick_id f : id (tick fileId f) = id f.
Proof. unfold tick. now destruct (_ && _). Qed.

Lemma markError_id f : id (markError fileId f) = id f.
Proof. unfold markError. now destruct (String.eqb _ _). Qed.

Lemma markProcessing_id job f : id (markProcessing fileId job f) = id f.
Proof. unfold markProcessing. now destruct (String.eqb _ _). Qed.

Lemma entries_id f l : In f (entries fileId l) -> id f = fileId.
Proof.
  unfold entries. rewrite filter_In. intros [_ H].
  now apply String.eqb_eq.
Qed.

End UploadFacts.

(** *** The entries of an upload after any events, exactly *)

Section UploadOutcome.
Import VideoUpload.
Variable fileId : string.
Variable dropped : list UploadedFile.
Hypothesis dropped_ids : forall f, In f dropped -> id f = fileId.

Lemma tick_uploadingAt n f :
  In f dropped -> tick fileId (uploadingAt n f) = uploadingAt (S n) f.
Proof.
  intros Hin. apply dropped_ids, String.eqb_eq in Hin.
  unfold tick, uploadingAt. cbn [id progress]. rewrite Hin. cbn [andb].
  destruct (Nat.ltb_spec (10 * Nat.min n 9) 90)%nat; cbn [name id status message jobId progress];
    f_equal; lia.
Qed.

Lemma tick_failedAt n f :
  In f dropped -> tick fileId (failedAt n f) = failedAt (S n) f.
Proof.
  intros Hin. apply dropped_ids, String.eqb_eq in Hin.
  unfold tick, failedAt. cbn [id progress]. rewrite Hin. cbn [andb].
  destruct (Nat.ltb_spec (10 * Nat.min n 9) 90)%nat; cbn [name id status message jobId progress];
    f_equal; lia.
Qed.

Lemma markError_uploadingAt n f :
  In f dropped -> markError fileId (uploadingAt n f) = failedAt n f.
Proof.
  intros Hin. apply dropped_ids, String.eqb_eq in Hin.
  unfold markError, uploadingAt, failedAt. cbn [id]. now rewrite Hin.
Qed.

Lemma markProcessing_uploadingAt job n f :
  In f dropped -> markProcessing fileId job (uploadingAt n f) = processingAs job f.
Proof.
  intros Hin. apply dropped_ids, String.eqb_eq in Hin.
  unfold markProcessing, uploadingAt, processingAs. cbn [id]. now rewrite Hin.
Qed.

Lemma map_map_in (g h k : UploadedFile -> UploadedFile) :
  (forall f, In f dropped -> g (h f) = k f) ->
  List.map g (List.map h dropped) = List.map k dropped.
Proof.
  intros H. rewrite List.map_map. now apply List.map_ext_in.
Qed.

(** Once the request is settled and the interval cleared, nothing moves. *)
Lemma run_cleared events u :
  settled u = true -> interval_armed u = false -> run fileId events u = u.
Proof.
  intros Hs Ha. unfold run.
  induction events as [| e events IH]; [reflexivity |].
  cbn [List.fold_left].
  assert (E : step fileId e u = u) by (destruct e; simpl; now rewrite ?Hs, ?Ha).
  now rewrite E.
Qed.

(** After a rejected [fetch] the interval is still armed: only the
    firings count. *)
Lemma run_rejected events : forall n u,
  settled u = true -> interval_armed u = true ->
  entries fileId (files u) = List.map (failedAt n) dropped ->
  entries fileId (files (run fileId events u))
  = List.map (failedAt (n + ticks events)) dropped.
Proof.
  induction events as [| e events IH]; intros n u Hs Ha Hf.
  - unfold ticks. cbn. now rewrite Nat.add_0_r.
  - change (run fileId (e :: events) u)
      with (run fileId events (step fileId e u)).
    destruct e as [| | r]; cbn [step]; rewrite ?Hs, ?Ha.
    + rewrite (IH (S n)); try reflexivity.
      * unfold ticks. cbn. now rewrite Nat.add_succ_r.
      * cbn [files]. rewrite entries_map by apply tick_id.
        rewrite Hf. apply map_map_in. intros f Hin. now apply tick_failedAt.
    + now apply IH.
    + now apply IH.
Qed.

(** While the request is in flight. *)
Lemma run_pending events : forall n u,
  settled u = false -> interval_armed u = true ->
  entries fileId (files u) = List.map (uploadingAt n) dropped ->
  entries fileId (files (run fileId events u))
  = List.map
      (fun f => match settlement events with
                | Pending => uploadingAt (n + ticks events) f
                | Succeeded job => processingAs job f
                | Failed => failedAt (n + firings events) f
                end) dropped.
Proof.
  induction events as [| e events IH]; intros n u Hs Ha Hf.
  - cbn. now rewrite Nat.add_0_r.
  - change (run fileId (e :: events) u)
      with (run fileId events (step fileId e u)).
    destruct e as [| | r]; cbn [step settlement firings]; rewrite ?Hs, ?Ha.
    + rewrite (IH (S n)); try reflexivity.
      * unfold ticks. cbn. now rewrite !Nat.add_succ_r.
      * cbn [files]. rewrite entries_map by apply tick_id.
        rewrite Hf. apply map_map_in. intros f Hin. now apply tick_uploadingAt.
    + apply (run_rejected events n); try reflexivity.
      cbn [files]. rewrite entries_map by apply markError_id.
      rewrite Hf. apply map_map_in. intros f Hin. now apply markError_uploadingAt.
    + destruct (ok r), (body r) as [job |];
        (rewrite (run_cleared events) by reflexivity); cbn [files];
        rewrite ?Nat.add_0_r;
        first [ rewrite entries_map by apply markProcessing_id
              | rewrite entries_map by apply markError_id ];
        rewrite Hf; apply map_map_in; intros f Hin;
        first [ now apply markProcessing_uploadingAt
              | now apply markError_uploadingAt ].
Qed.

End UploadOutcome.

Lemma run_ids fileId events : forall u,
  List.map VideoUpload.id (VideoUpload.files (VideoUpload.run fileId events u))
  = List.map VideoUpload.id (VideoUpload.files u).
Proof.
  unfold VideoUpload.run.
  induction events as [| e events IH]; intros u; cbn [List.fold_left];
    [reflexivity |].
  rewrite IH.
  destruct e as [| | r]; cbn [VideoUpload.step].
  - destruct (VideoUpload.interval_armed u); [| reflexivity].
    cbn [VideoUpload.files]. rewrite List.map_map.
    apply List.map_ext. intros f. apply tick_id.
  - destruct (VideoUpload.settled u); [reflexivity |].
    cbn [VideoUpload.files]. rewrite List.map_map.
    apply List.map_ext. intros f. apply markError_id.
  - destruct (VideoUpload.settled u); [reflexivity |].
    destruct (VideoUpload.ok r), (VideoUpload.body r);
      cbn [VideoUpload.files]; rewrite List.map_map;
      apply List.map_ext; intros f;
      first [apply markProcessing_id | apply markError_id].
Qed.

Lemma settlement_prefix before after job :
  VideoUpload.settlement before = VideoUpload.Succeeded job ->
  VideoUpload.settlement (before ++ after) = VideoUpload.Succeeded job.
Proof.
  induction before as [| e before IH]; cbn; [discriminate |].
  destruct e as [| | r]; auto.
Qed.

Lemma outcome_progress events f :
  VideoUpload.progress (VideoUpload.outcome events f) = 100%nat
  \/ (VideoUpload.progress (VideoUpload.outcome events f) <= 90)%nat.
Proof.
  unfold VideoUpload.outcome.
  destruct (VideoUpload.settlement events);
    cbn [VideoUpload.progress VideoUpload.uploadingAt VideoUpload.processingAs
         VideoUpload.failedAt];
    [right | left | right]; lia.
Qed.

(** C9. The entries of a file dropped into the list, after any events of
    its upload call, are known exactly. While the request is in flight
    each is [uploading] at [10 * min n 9] after [n] firings of the interval:
    every firing adds exactly 10 below 90 and nothing from 90 on. Once the
    server has answered successfully each is [processing] at 100. When the
    request failed (rejected, not ok, or an unreadable body) each is in
    [error] at a multiple of 10 that is at most 90, and at no earlier point
    of the call did it show 100. No event adds, drops or reorders a file. *)
Theorem uploadFile_progress
    (fileId : string) (current : list VideoUpload.UploadedFile)
    (events : list VideoUpload.Event) :
  (forall f, In f (VideoUpload.entries fileId current) ->
     VideoUpload.status f = VideoUpload.uploading /\ VideoUpload.progress f = 0%nat) ->
  let after (es : list VideoUpload.Event) :=
    VideoUpload.files (VideoUpload.run fileId es (VideoUpload.uploadFile current)) in
  VideoUpload.entries fileId (after events)
    = List.map (VideoUpload.outcome events) (VideoUpload.entries fileId current)
  /\ List.map VideoUpload.id (after events) = List.map VideoUpload.id current
  /\ (forall f, In f (VideoUpload.entries fileId (after events)) ->
        match VideoUpload.settlement events with
        | VideoUpload.Pending =>
            VideoUpload.status f = VideoUpload.uploading
            /\ VideoUpload.progress f
               = (10 * Nat.min (VideoUpload.ticks events) 9)%nat
            /\ (VideoUpload.progress f <= 90)%nat
            /\ VideoUpload.progress (VideoUpload.tick fileId f)
               = (if (VideoUpload.progress f <? 90)%nat
                  then VideoUpload.progress f + 10 else VideoUpload.progress f)%nat
        | VideoUpload.Succeeded job =>
            VideoUpload.status f = VideoUpload.processing
            /\ VideoUpload.progress f = 100%nat
            /\ VideoUpload.jobId f = Some job
        | VideoUpload.Failed =>
            VideoUpload.status f = VideoUpload.error
            /\ (VideoUpload.progress f <= 90)%nat
        end)
  /\ (forall f, In f (VideoUpload.entries fileId (after events)) ->
        (VideoUpload.progress f = 100%nat <->
         exists job, VideoUpload.settlement events = VideoUpload.Succeeded job))
  /\ (VideoUpload.settlement events = VideoUpload.Failed ->
      forall before later g,
        events = before ++ later ->
        In g (VideoUpload.entries fileId (after before)) ->
        (VideoUpload.progress g <= 90)%nat).
Proof.
  intros Hfresh after.
  assert (Hids : forall f, In f (VideoUpload.entries fileId current) ->
                           VideoUpload.id f = fileId).
  { intros f. apply entries_id. }
  assert (Hstart : VideoUpload.entries fileId current
                   = List.map (VideoUpload.uploadingAt 0)
                       (VideoUpload.entries fileId current)).
  { rewrite <- (List.map_id (VideoUpload.entries fileId current)) at 1.
    apply List.map_ext_in. intros f Hin.
    destruct (Hfresh f Hin) as [Hst Hp]. destruct f.
    unfold VideoUpload.uploadingAt. cbn in *. now subst. }
  assert (Hall : forall es,
            VideoUpload.entries fileId (after es)
            = List.map (VideoUpload.outcome es) (VideoUpload.entries fileId current)).
  { intros es. unfold after.
    rewrite (run_pending fileId _ Hids es 0 (VideoUpload.uploadFile current)
               eq_refl eq_refl Hstart).
    reflexivity. }
  split; [apply Hall |].
  split; [apply run_ids |].
  split.
  { intros f Hin. rewrite Hall in Hin.
    apply in_map_iff in Hin as (f0 & <- & Hin0).
    unfold VideoUpload.outcome.
    destruct (VideoUpload.settlement events) as [| job |];
      cbn [VideoUpload.status VideoUpload.progress VideoUpload.jobId VideoUpload.uploadingAt VideoUpload.processingAs VideoUpload.failedAt].
    - repeat split; try lia.
      pose proof (tick_uploadingAt fileId _ Hids (VideoUpload.ticks events) f0 Hin0) as T.
      rewrite T. cbn [VideoUpload.status VideoUpload.progress VideoUpload.jobId VideoUpload.uploadingAt VideoUpload.processingAs VideoUpload.failedAt].
      destruct (Nat.ltb_spec (10 * Nat.min (VideoUpload.ticks events) 9) 90)%nat; lia.
    - repeat split.
    - split; [reflexivity | lia]. }
  split.
  { intros f Hin. rewrite Hall in Hin.
    apply in_map_iff in Hin as (f0 & <- & Hin0).
    unfold VideoUpload.outcome.
    destruct (VideoUpload.settlement events) as [| job |];
      cbn [VideoUpload.status VideoUpload.progress VideoUpload.jobId VideoUpload.uploadingAt VideoUpload.processingAs VideoUpload.failedAt].
    - split; [lia | intros [? ?]; discriminate].
    - split; [intros _; eauto | reflexivity].
    - split; [lia | intros [? ?]; discriminate]. }
  intros Hfail before later g -> Hin.
  rewrite Hall in Hin. apply in_map_iff in Hin as (f0 & <- & Hin0).
  destruct (outcome_progress before f0) as [H100 | Hle]; [| exact Hle].
  exfalso. unfold VideoUpload.outcome in H100.
  destruct (VideoUpload.settlement before) as [| job |] eqn:E;
    cbn [VideoUpload.status VideoUpload.progress VideoUpload.jobId VideoUpload.uploadingAt VideoUpload.processingAs VideoUpload.failedAt] in H100; try lia.
  rewrite (settlement_prefix before later job E) in Hfail. discriminate.
Qed.

(** ** Export progress: the engine and the card that polls it *)

Section ProgressFacts.
Import ExportEngine ClipCard Watch.

(** No transition of the engine lowers the progress or leaves 0..100. *)
Lemma transition_progress e j j' :
  transition e j = Some j' ->
  (ExportEngine.progress j <= ExportEngine.progress j')%nat
  /\ ((ExportEngine.progress j <= 100)%nat ->
      (ExportEngine.progress j' <= 100)%nat).
Proof.
  unfold transition. intros H.
  destruct (state j), e; try discriminate;
    try (injection H as <-; simpl; split; auto; fail).
  destruct (Nat.leb_spec (ExportEngine.progress j) percent); [| discriminate].
  destruct (Nat.leb_spec percent 100); [| discriminate].
  injection H as <-. simpl. split; auto.
Qed.

(** A poll leaves the card's progress alone or replaces it by the value
    in the reply. *)
Lemma pollProgress_progress o c :
  exportProgress (fst (pollProgress o c)) = exportProgress c
  \/ exists reply, o = PollOk reply
       /\ exportProgress (fst (pollProgress o c)) = ClipCard.progress reply.
Proof.
  destruct o as [| | reply]; simpl; auto.
  right. exists reply. split; [reflexivity |].
  destruct (String.eqb _ "completed"); [reflexivity |].
  destruct (String.eqb _ "failed"); reflexivity.
Qed.

Lemma step_advances s w w' :
  step s w = Some w' -> behind w -> advances w w' /\ behind w'.
Proof.
  unfold behind, advances. intros H [Hc Hj].
  destruct s as [e | n]; simpl in H.
  - destruct (transition e (job w)) as [j' |] eqn:E; [| discriminate].
    injection H as <-. simpl.
    destruct (transition_progress _ _ _ E) as [H1 H2].
    specialize (H2 Hj). lia.
  - destruct (poll_pending w); [| discriminate].
    destruct (pollProgress (outcome n (job w)) (card w)) as [c' again] eqn:E.
    injection H as <-. simpl.
    destruct (pollProgress_progress (outcome n (job w)) (card w))
      as [Hsame | (reply & Ho & Hnew)]; rewrite E in *; simpl in *.
    + lia.
    + destruct n; try discriminate. injection Ho as <-.
      simpl in Hnew. lia.
Qed.

Lemma advances_trans w1 w2 w3 : advances w1 w2 -> advances w2 w3 -> advances w1 w3.
Proof. unfold advances. lia. Qed.

Lemma trace_advances steps : forall w t,
  trace steps w = Some t -> behind w ->
  Forall (fun w' => advances w w' /\ behind w') t.
Proof.
  induction steps as [| s steps IH]; intros w t H Hw; simpl in H.
  - injection H as <-. constructor; [| constructor].
    split; [unfold advances; lia | assumption].
  - destruct (step s w) as [w' |] eqn:E; [| discriminate].
    destruct (trace steps w') as [t' |] eqn:Et; [| discriminate].
    injection H as <-.
    destruct (step_advances _ _ _ E Hw) as [Hadv Hw'].
    constructor.
    + split; [unfold advances; lia | assumption].
    + eapply List.Forall_impl; [| exact (IH _ _ Et Hw')].
      intros w'' [Hadv' Hb]. split; [| assumption].
      eapply advances_trans; eassumption.
Qed.

Lemma trace_sorted steps : forall w t,
  trace steps w = Some t -> behind w ->
  StronglySorted le (List.map (fun w => ExportEngine.progress (job w)) t)
  /\ StronglySorted le (List.map (fun w => exportProgress (card w)) t)
  /\ Forall (fun w => (ExportEngine.progress (job w) <= 100)%nat
                      /\ (exportProgress (card w) <= 100)%nat) t.
Proof.
  induction steps as [| s steps IH]; intros w t H Hw.
  - simpl in H. injection H as <-. simpl. unfold behind in Hw.
    split; [| split].
    + constructor; constructor.
    + constructor; constructor.
    + constructor; [lia | constructor].
  - pose proof (trace_advances _ _ _ H Hw) as Hall.
    simpl in H.
    destruct (step s w) as [w' |] eqn:E; [| discriminate].
    destruct (trace steps w') as [t' |] eqn:Et; [| discriminate].
    injection H as <-.
    destruct (step_advances _ _ _ E Hw) as [_ Hw'].
    destruct (IH _ _ Et Hw') as (S1 & S2 & B).
    apply Forall_inv_tail in Hall. simpl.
    repeat split.
    + constructor; [assumption |].
      apply Forall_map. eapply List.Forall_impl; [| exact Hall].
      intros w'' [[Hj _] _]. exact Hj.
    + constructor; [assumption |].
      apply Forall_map. eapply List.Forall_impl; [| exact Hall].
      intros w'' [[_ Hc] _]. exact Hc.
    + constructor; [unfold behind in Hw; lia | assumption].
Qed.

Lemma start_behind c export_id clip preset_name opts now :
  exporting c = false -> behind (start c export_id clip preset_name opts now).
Proof.
  intros Hidle. unfold behind, start, handleExport. rewrite Hidle. simpl. lia.
Qed.

End ProgressFacts.

(** ** The simulated export loop of the clips manager *)

Section ManagerFacts.
Import ClipsManager.

Lemma loopValues_steps :
  loopValues 101 0 = [0; 10; 20; 30; 40; 50; 60; 70; 80; 90; 100]%nat.
Proof. reflexivity. Qed.

Lemma progressWrites_app clipId us vs :
  progressWrites clipId (us ++ vs) =
    progressWrites clipId us ++ progressWrites clipId vs.
Proof. unfold progressWrites. apply flat_map_app. Qed.

Lemma progressWrites_own clipId :
  progressWrites clipId (exportClip clipId) =
    [0; 0; 10; 20; 30; 40; 50; 60; 70; 80; 90; 100]%nat.
Proof.
  unfold exportClip. rewrite loopValues_steps. simpl.
  rewrite String.eqb_refl. reflexivity.
Qed.

Lemma progressWrites_other clipId other :
  other <> clipId -> progressWrites clipId (exportClip other) = [].
Proof.
  intros Hne. apply String.eqb_neq in Hne.
  unfold exportClip. rewrite loopValues_steps. simpl.
  rewrite Hne. reflexivity.
Qed.

Lemma handleExportSelected_concat selectedClips :
  handleExportSelected selectedClips =
    List.concat (List.map exportClip selectedClips).
Proof. destruct selectedClips; reflexivity. Qed.

Lemma progressWrites_absent clipId selectedClips :
  ~ In clipId selectedClips ->
  progressWrites clipId (List.concat (List.map exportClip selectedClips)) = [].
Proof.
  induction selectedClips as [| c rest IH]; intros Hnot; [reflexivity |].
  cbn [List.map List.concat].
  rewrite progressWrites_app, progressWrites_other, IH
    by (simpl in Hnot; tauto).
  reflexivity.
Qed.

(** A clip selected once gets exactly the writes of its own iteration. *)
Lemma progressWrites_selected clipId selectedClips :
  List.NoDup selectedClips -> In clipId selectedClips ->
  progressWrites clipId (handleExportSelected selectedClips) =
    [0; 0; 10; 20; 30; 40; 50; 60; 70; 80; 90; 100]%nat.
Proof.
  rewrite handleExportSelected_concat.
  induction 1 as [| c rest Hc Hnd IH]; [simpl; tauto |].
  cbn [List.map List.concat].
  intros [-> | Hin]; rewrite progressWrites_app.
  - rewrite progressWrites_own, progressWrites_absent by assumption.
    reflexivity.
  - rewrite progressWrites_other, IH by (try assumption; congruence).
    reflexivity.
Qed.

Lemma simulated_sorted :
  StronglySorted le [0; 0; 10; 20; 30; 40; 50; 60; 70; 80; 90; 100]%nat
  /\ Forall (fun p => (p <= 100)%nat)
       [0; 0; 10; 20; 30; 40; 50; 60; 70; 80; 90; 100]%nat.
Proof.
  split.
  - repeat (constructor; [| repeat (constructor; [lia |]); constructor]).
    constructor.
  - repeat (constructor; [lia |]). constructor.
Qed.

End ManagerFacts.

(** C2. Over the lifetime of one export job the progress values are
    non-decreasing and stay within 0..100: the values of the job record
    under any run of the engine, the values the clip card records from its
    successive status polls of that job, and the values the clips manager
    writes for a clip in its simulated export. *)
Theorem export_progress_monotone :
  (forall c export_id clip preset_name opts now steps t,
      ClipCard.exporting c = false ->
      Watch.trace steps (Watch.start c export_id clip preset_name opts now)
        = Some t ->
      StronglySorted le
        (List.map (fun w => ExportEngine.progress (Watch.job w)) t)
      /\ StronglySorted le
           (List.map (fun w => ClipCard.exportProgress (Watch.card w)) t)
      /\ Forall (fun w =>
                   (ExportEngine.progress (Watch.job w) <= 100)%nat
                   /\ (ClipCard.exportProgress (Watch.card w) <= 100)%nat) t)
  /\ (forall clipId selectedClips,
      List.NoDup selectedClips -> In clipId selectedClips ->
      StronglySorted le
        (ClipsManager.progressWrites clipId
           (ClipsManager.handleExportSelected selectedClips))
      /\ Forall (fun p => (p <= 100)%nat)
           (ClipsManager.progressWrites clipId
              (ClipsManager.handleExportSelected selectedClips))).
Proof.
  split.
  - intros c export_id clip preset_name opts now steps t Hidle Ht.
    eapply trace_sorted; [exact Ht |]. now apply start_behind.
  - intros clipId selectedClips Hnd Hin.
    rewrite progressWrites_selected by assumption.
    exact simulated_sorted.
Qed.

(** ** Terminal states and the end of polling *)

Section TerminalFacts.
Import ExportEngine ClipCard Watch.

(** No transition leaves [completed] or [failed]. *)
Lemma terminal_final e j :
  terminal (state j) = true -> transition e j = None.
Proof.
  unfold transition. destruct (state j); simpl; try discriminate;
    intros _; now destruct e.
Qed.

(** Every transition moves forward: queued -> rendering,
    rendering -> rendering | completed | failed. *)
Lemma transition_forward e j j' :
  transition e j = Some j' ->
  (state j = queued /\ state j' = rendering)
  \/ (state j = rendering /\ state j' <> queued).
Proof.
  unfold transition. intros H.
  destruct (state j) eqn:Es, e; try discriminate;
    try (destruct (_ && _); [| discriminate]);
    injection H as <-; unfold with_state; simpl;
    first [ left; split; reflexivity
          | right; split; [reflexivity | discriminate] ].
Qed.

Lemma deliver_terminal job_id target e (jobs : gmap nat ExportJob) j :
  get_export_status jobs target = Some j ->
  terminal (state j) = true ->
  get_export_status (deliver job_id e jobs) target = Some j.
Proof.
  unfold get_export_status, deliver. intros Hj Hterm.
  destruct (jobs !! job_id) as [k |] eqn:Ek; [| assumption].
  destruct (transition e k) as [k' |] eqn:Et; [| assumption].
  destruct (decide (job_id = target)) as [-> | Hne].
  - assert (k = j) by congruence. subst k.
    rewrite terminal_final in Et by assumption. discriminate.
  - now rewrite lookup_insert_ne.
Qed.

(** Once terminal, the record [get_export_status] returns never changes. *)
Lemma deliver_all_terminal events : forall (jobs : gmap nat ExportJob) target j,
  get_export_status jobs target = Some j ->
  terminal (state j) = true ->
  get_export_status (deliver_all events jobs) target = Some j.
Proof.
  unfold deliver_all.
  induction events as [| [job_id e] events IH]; intros jobs target j Hj Hterm.
  - exact Hj.
  - simpl. apply IH; [| assumption]. now apply deliver_terminal.
Qed.

(** When [pollProgress] does not schedule another poll. *)
Lemma pollProgress_stops o c :
  snd (pollProgress o c) = false <->
  o = PollNotOk
  \/ exists reply, o = PollOk reply
       /\ (ClipCard.status reply = "completed"%string
           \/ ClipCard.status reply = "failed"%string).
Proof.
  destruct o as [| | reply]; simpl.
  - split; [discriminate |]. intros [H | (r & H & _)]; discriminate.
  - split; auto.
  - destruct (String.eqb_spec (ClipCard.status reply) "completed") as [E1 | N1];
      [| destruct (String.eqb_spec (ClipCard.status reply) "failed") as [E2 | N2]];
      simpl.
    + split; [| reflexivity]. intros _. right. eauto.
    + split; [| reflexivity]. intros _. right. eauto.
    + split; [discriminate |].
      intros [H | (r & H & [H1 | H2])]; try discriminate;
        injection H as <-; contradiction.
Qed.

(** When the [poll] of [pollJobStatus] does not schedule another poll:
    exactly on a terminal status. *)
Lemma pollJobStatus_stops fileId o files :
  snd (VideoUpload.poll fileId o files) = false <->
  exists data, o = VideoUpload.PollData data
    /\ (VideoUpload.job_status data = "completed"%string
        \/ VideoUpload.job_status data = "failed"%string).
Proof.
  destruct o as [| data]; simpl.
  - split; [discriminate |]. intros (d & H & _). discriminate.
  - destruct (String.eqb_spec (VideoUpload.job_status data) "completed")
      as [E1 | N1];
      [| destruct (String.eqb_spec (VideoUpload.job_status data) "failed")
           as [E2 | N2]]; simpl.
    + split; [| reflexivity]. intros _. eauto.
    + split; [| reflexivity]. intros _. eauto.
    + split; [discriminate |].
      intros (d & H & [H1 | H2]); injection H as <-; contradiction.
Qed.

(** With no poll pending the card is frozen, whatever the job does. *)
Lemma no_poll_frozen steps : forall w t,
  poll_pending w = false ->
  trace steps w = Some t ->
  Forall (fun x => card x = card w /\ poll_pending x = false) t.
Proof.
  induction steps as [| s steps IH]; intros w t Hoff H; simpl in H.
  - injection H as <-. constructor; [auto | constructor].
  - destruct (step s w) as [w' |] eqn:E; [| discriminate].
    destruct (trace steps w') as [t' |] eqn:Et; [| discriminate].
    injection H as <-.
    assert (Hw' : card w' = card w /\ poll_pending w' = false).
    { destruct s as [e | n]; simpl in E.
      - destruct (transition e (job w)); [| discriminate].
        injection E as <-. auto.
      - rewrite Hoff in E. discriminate. }
    destruct Hw' as [Hc Hp].
    constructor; [auto |].
    eapply List.Forall_impl; [| exact (IH _ _ Hp Et)].
    intros x [Hx Hpx]. split; congruence.
Qed.

End TerminalFacts.

(** C3. A status response that is not ok ends the polling of [pollProgress]
    although no terminal state was observed: the card is left as it was,
    no further poll is pending, and from then on the card never changes,
    whatever the job goes on to do. *)
Theorem pollProgress_abandons_on_not_ok (w : Watch.World) :
  Watch.poll_pending w = true ->
  exists w',
    Watch.step (Watch.Poll Watch.NotOk) w = Some w'
    /\ Watch.job w' = Watch.job w
    /\ Watch.card w' = Watch.card w
    /\ Watch.poll_pending w' = false
    /\ forall steps t,
         Watch.trace steps w' = Some t ->
         Forall (fun x => Watch.card x = Watch.card w) t.
Proof.
  intros Hon. eexists. simpl. rewrite Hon.
  split; [reflexivity |]. simpl. repeat split.
  intros steps t Ht.
  eapply List.Forall_impl; [| eapply no_poll_frozen; [| exact Ht]; reflexivity].
  intros x [Hx _]. exact Hx.
Qed.

(** ** What a failed export shows *)

(** C4 (amended). When a render fails, the renderer's error is stored
    verbatim in the job's [error] and [message] fields and the status reply
    carries that message; the clip card, on reading the failed status,
    replaces its export message by the fixed text ["Export failed"], stops
    polling and hides the progress panel. *)
Theorem failed_export_message
    (j : ExportEngine.ExportJob) (now : nat) (err : string)
    (c : ClipCard.CardState) :
  ExportEngine.state j = ExportEngine.rendering ->
  exists j',
    ExportEngine.transition (ExportEngine.RenderError now err) j = Some j'
    /\ ExportEngine.state j' = ExportEngine.failed
    /\ ExportEngine.message j' = err
    /\ ExportEngine.error j' =
         Some {| ExportEngine.kind := ExportEngine.RenderFailure;
                 ExportEngine.detail := err |}
    /\ ClipCard.message (Watch.snapshot j') = err
    /\ ClipCard.pollProgress (ClipCard.PollOk (Watch.snapshot j')) c =
         ({| ClipCard.exporting := false;
             ClipCard.exportProgress := ExportEngine.progress j;
             ClipCard.exportMessage := "Export failed";
             ClipCard.downloadUrl := ClipCard.downloadUrl c |}, false)
    /\ ClipCard.progressPanel
         (fst (ClipCard.pollProgress (ClipCard.PollOk (Watch.snapshot j')) c))
       = None.
Proof.
  intros Hr. eexists. unfold ExportEngine.transition. rewrite Hr.
  split; [reflexivity |]. repeat split.
Qed.

(** ** Preset resolution *)

Section PresetFacts.
Import QualityPresets.

Lemma resolve_known preset_name :
  In preset_name catalog ->
  exists p, resolve preset_name = inr p /\ In p table /\ name p = preset_name.
Proof.
  intros Hin. unfold resolve.
  destruct (List.find _ table) as [p |] eqn:E.
  - apply find_some in E as [Hp Heq]. apply String.eqb_eq in Heq. eauto.
  - exfalso. unfold catalog in Hin. apply in_map_iff in Hin as (p & Hp & Hin).
    apply (find_none _ _ E) in Hin. simpl in Hin.
    rewrite Hp, String.eqb_refl in Hin. discriminate.
Qed.

Lemma resolve_unknown preset_name :
  ~ In preset_name catalog -> resolve preset_name = inl (UnknownPreset preset_name).
Proof.
  intros Hnot. unfold resolve.
  destruct (List.find _ table) as [p |] eqn:E; [| reflexivity].
  exfalso. apply find_some in E as [Hp Heq]. apply String.eqb_eq in Heq.
  apply Hnot. unfold catalog. apply in_map_iff. eauto.
Qed.

(** Neither selector ever leaves the catalog. *)
Lemma selectPreset_in_catalog index o :
  In (ClipsManager.quality_preset o) catalog ->
  In (ClipsManager.quality_preset (ClipsManager.selectPreset index o)) catalog.
Proof.
  intros Hin. unfold ClipsManager.selectPreset.
  destruct (ClipsManager.quality_presets !! index) as [p |] eqn:E; [| assumption].
  cbn [ClipsManager.quality_preset].
  apply list_elem_of_lookup_2, list_elem_of_In in E.
  assert (S : incl (List.map ClipsManager.id ClipsManager.quality_presets) catalog).
  { intros x Hx. cbn in Hx. cbn. tauto. }
  apply S. now apply in_map.
Qed.

Lemma selectPresets_in_catalog picks :
  In (ClipsManager.quality_preset
        (ClipsManager.selectPresets picks ClipsManager.initialOptions)) catalog.
Proof.
  unfold ClipsManager.selectPresets.
  assert (H : In (ClipsManager.quality_preset ClipsManager.initialOptions) catalog)
    by (simpl; tauto).
  revert H. generalize ClipsManager.initialOptions.
  induction picks as [| index picks IH]; intros o Ho; simpl; [exact Ho |].
  apply IH. now apply selectPreset_in_catalog.
Qed.

Lemma api_selectPreset_in_catalog index o :
  In (ApiClipsManager.quality_preset o) catalog ->
  In (ApiClipsManager.quality_preset (ApiClipsManager.selectPreset index o)) catalog.
Proof.
  intros Hin. unfold ApiClipsManager.selectPreset.
  destruct (ApiClipsManager.quality_presets !! index) as [p |] eqn:E; [| assumption].
  cbn [ApiClipsManager.quality_preset].
  apply list_elem_of_lookup_2, list_elem_of_In in E.
  change catalog
    with (List.map ApiClipsManager.id ApiClipsManager.quality_presets).
  now apply in_map.
Qed.

Lemma api_selectPresets_in_catalog picks :
  In (ApiClipsManager.quality_preset
        (ApiClipsManager.selectPresets picks ApiClipsManager.initialOptions))
     catalog.
Proof.
  unfold ApiClipsManager.selectPresets.
  assert (H : In (ApiClipsManager.quality_preset ApiClipsManager.initialOptions)
                 catalog) by (simpl; tauto).
  revert H. generalize ApiClipsManager.initialOptions.
  induction picks as [| index picks IH]; intros o Ho; simpl; [exact Ho |].
  apply IH. now apply api_selectPreset_in_catalog.
Qed.

End PresetFacts.

(** C5. Resolving a name outside the fixed catalog fails with
    [UnknownPreset] and a submission with such a name leaves the job table
    unchanged; resolving a name of the catalog returns the one catalog
    entry of that name and the submission adds one queued job. The catalog
    is the fixed list of ten names: the nine of the selector of
    clips-manager.tsx and [facebook], which the selector of the clips
    manager that exports through the API offers as well. The request for
    ["nonexistent"] is refused, and the name either selector holds always
    resolves. *)
Theorem resolve_preset_spec :
  QualityPresets.catalog =
    ["tiktok"; "instagram_reels"; "youtube_shorts"; "youtube_standard";
     "twitter"; "linkedin"; "facebook"; "high_quality"; "balanced"; "fast"]%string
  /\ List.NoDup QualityPresets.catalog
  /\ List.map ApiClipsManager.id ApiClipsManager.quality_presets
     = QualityPresets.catalog
  /\ List.map ClipsManager.id ClipsManager.quality_presets
     = QualityPresets.listed
  /\ (forall name,
        ~ In name QualityPresets.catalog ->
        QualityPresets.resolve name = inl (QualityPresets.UnknownPreset name)
        /\ forall clip opts now eng,
             QualityPresets.submit_export clip name opts now eng =
               (inl (QualityPresets.UnknownPreset name), eng))
  /\ (forall name,
        In name QualityPresets.catalog ->
        exists p,
          QualityPresets.resolve name = inr p
          /\ In p QualityPresets.table
          /\ QualityPresets.name p = name
          /\ forall clip opts now eng,
               QualityPresets.submit_export clip name opts now eng =
                 (inr (QualityPresets.next_id eng),
                  {| QualityPresets.jobs :=
                       <[QualityPresets.next_id eng :=
                           ExportEngine.new_job (QualityPresets.next_id eng)
                             clip name opts now]> (QualityPresets.jobs eng);
                     QualityPresets.next_id := S (QualityPresets.next_id eng) |}))
  /\ QualityPresets.resolve "nonexistent" =
       inl (QualityPresets.UnknownPreset "nonexistent")
  /\ (forall picks,
        exists p,
          QualityPresets.resolve
            (ClipsManager.quality_preset
               (ClipsManager.selectPresets picks ClipsManager.initialOptions))
          = inr p)
  /\ (forall picks,
        exists p,
          QualityPresets.resolve
            (ApiClipsManager.quality_preset
               (ApiClipsManager.selectPresets picks ApiClipsManager.initialOptions))
          = inr p).
Proof.
  split; [reflexivity |].
  split.
  { cbn. repeat constructor; cbn; intuition discriminate. }
  split; [reflexivity |]. split; [reflexivity |].
  split; [| split; [| split; [| split]]].
  - intros name Hnot. pose proof (resolve_unknown name Hnot) as E.
    split; [exact E |]. intros. unfold QualityPresets.submit_export.
    now rewrite E.
  - intros name Hin. destruct (resolve_known name Hin) as (p & E & Hp & Hid).
    exists p. repeat split; try assumption.
    intros. unfold QualityPresets.submit_export. rewrite E, Hid. reflexivity.
  - reflexivity.
  - intros picks.
    destruct (resolve_known _ (selectPresets_in_catalog picks)) as (p & E & _).
    eauto.
  - intros picks.
    destruct (resolve_known _ (api_selectPresets_in_catalog picks)) as (p & E & _).
    eauto.
Qed.

(** C5, as stated, at [facebook]: the name is none of the nine listed,
    the selector of the clips manager that exports through
    the API offers it, and it resolves to the Facebook preset instead of
    failing with [UnknownPreset]. *)
Lemma facebook_is_a_preset :
  ~ In "facebook"%string QualityPresets.listed
  /\ In "facebook"%string
       (List.map ApiClipsManager.id ApiClipsManager.quality_presets)
  /\ ApiClipsManager.quality_preset
       (ApiClipsManager.selectPreset 6 ApiClipsManager.initialOptions)
     = "facebook"%string
  /\ QualityPresets.resolve "facebook"
     = inr {| QualityPresets.name := "facebook"; QualityPresets.width := 1920;
              QualityPresets.height := 1080; QualityPresets.fps := 30;
              QualityPresets.video_bitrate := 4000 |}
  /\ QualityPresets.resolve "facebook"
     <> inl (QualityPresets.UnknownPreset "facebook").
Proof.
  split; [cbn; intuition discriminate |].
  split; [cbn; tauto |].
  split; [reflexivity |]. split; [reflexivity |]. discriminate.
Qed.

(** ** Composite score *)

Section ScoringFacts.
Import Scoring.

Lemma Qsum_scaled (t : Q) (l : list (Q * Q)) :
  (Qsum (List.map (fun '(w, v) => w * v)
           (List.map (fun '(w, v) => (w / t, v)) l))
   == Qsum (List.map (fun '(w, v) => w * v) l) / t)%Q.
Proof.
  induction l as [| [w v] l IH]; simpl.
  - unfold Qdiv. ring.
  - rewrite IH. unfold Qdiv. ring.
Qed.

Lemma Qsum_weights_scaled (t : Q) (l : list (Q * Q)) :
  (Qsum (List.map fst (List.map (fun '(w, v) => (w / t, v)) l))
   == Qsum (List.map fst l) / t)%Q.
Proof.
  induction l as [| [w v] l IH]; simpl.
  - unfold Qdiv. ring.
  - rewrite IH. unfold Qdiv. ring.
Qed.

(** With at least one extractor present the present weights sum to a
    positive number. *)
Lemma total_weight_pos b : present b <> [] -> (0 < total_weight b)%Q.
Proof.
  destruct b as [[s |] [h |] [a |] [v |]]; intros H;
    solve [ now elim H | reflexivity ].
Qed.

Lemma present_none b :
  present b = [] <->
  semantic b = None /\ heuristic b = None /\ audio b = None /\ visual b = None.
Proof.
  destruct b as [[s |] [h |] [a |] [v |]]; simpl; split;
    try discriminate; try tauto;
    intros (H1 & H2 & H3 & H4); discriminate.
Qed.

Lemma score_present b :
  present b <> [] ->
  score b = inr (Qsum (List.map (fun '(w, v) => w * v)%Q (renormalized b))).
Proof.
  unfold score. destruct (present b); [congruence | reflexivity].
Qed.

End ScoringFacts.

(** C1 (amended). For a candidate window with at least one available
    extractor the composite score is the weighted sum of the present
    sub-scores under the default weights 0.40, 0.25, 0.20, 0.15 divided by
    the sum of the present weights, so that the renormalized weights sum
    to 1; with no extractor available the engine fails with
    [NoSignalAvailable]. For semantic 80, heuristic 60, audio unavailable,
    visual 40 the present weights sum to 0.80 and the composite score is
    80*(0.40/0.80) + 60*(0.25/0.80) + 40*(0.15/0.80) = 66.25. *)
Theorem score_renormalized :
  (forall b,
      Scoring.present b <> [] ->
      exists q,
        Scoring.score b = inr q
        /\ (0 < Scoring.total_weight b)%Q
        /\ (Scoring.Qsum (List.map fst (Scoring.renormalized b)) == 1)%Q
        /\ (q == Scoring.Qsum
                   (List.map (fun '(w, v) => w * v) (Scoring.present b))
                 / Scoring.total_weight b)%Q)
  /\ (forall b, Scoring.present b = [] ->
                Scoring.score b = inl Scoring.NoSignalAvailable)
  /\ (Scoring.w_semantic + Scoring.w_heuristic + Scoring.w_audio
      + Scoring.w_visual == 1)%Q
  /\ (Scoring.total_weight Scenarios.audio_missing == 80 # 100)%Q
  /\ exists q,
       Scoring.score Scenarios.audio_missing = inr q
       /\ (q == 80 * ((40 # 100) / (80 # 100)) + 60 * ((25 # 100) / (80 # 100))
                + 40 * ((15 # 100) / (80 # 100)))%Q
       /\ (q == 6625 # 100)%Q.
Proof.
  split; [| split; [| split; [| split]]].
  - intros b Hb. eexists. split; [now apply score_present |].
    pose proof (total_weight_pos b Hb) as Hpos.
    split; [assumption |]. split.
    + unfold Scoring.renormalized. rewrite Qsum_weights_scaled.
      fold (Scoring.total_weight b). field. lra.
    + unfold Scoring.renormalized. apply Qsum_scaled.
  - intros b Hb. unfold Scoring.score. now rewrite Hb.
  - vm_compute. reflexivity.
  - vm_compute. reflexivity.
  - eexists. split; [reflexivity |].
    split; vm_compute; reflexivity.
Qed.

(** C1, as stated: the composite score of the scenario is not within 1e-6
    of 80*(0.40/0.85) + 60*(0.25/0.85) + 40*(0.15/0.85), and it is not 62.8
    to one decimal place; the weights 0.40, 0.25 and 0.15 of the three
    present extractors sum to 0.80, not to 0.85. *)
Lemma score_scenario_not_62_8 :
  ~ (exists q,
        Scoring.score Scenarios.audio_missing = inr q
        /\ ((80 * ((40 # 100) / (85 # 100)) + 60 * ((25 # 100) / (85 # 100))
              + 40 * ((15 # 100) / (85 # 100)) - (1 # 1000000) <= q
             /\ q <= 80 * ((40 # 100) / (85 # 100)) + 60 * ((25 # 100) / (85 # 100))
                     + 40 * ((15 # 100) / (85 # 100)) + (1 # 1000000))
            \/ (6275 # 100 <= q /\ q <= 6285 # 100))%Q).
Proof.
  intros (q & Hq & Hnear).
  vm_compute in Hq. injection Hq as <-.
  destruct Hnear as [[_ Hhi] | [_ Hhi]];
    vm_compute in Hhi; apply Hhi; reflexivity.
Qed.

Lemma score_renormalized_witness :
  exists q,
    Scoring.score Scenarios.audio_missing = inr q
    /\ (0 < Scoring.total_weight Scenarios.audio_missing)%Q
    /\ (Scoring.Qsum (List.map fst (Scoring.renormalized Scenarios.audio_missing))
        == 1)%Q
    /\ (q == Scoring.Qsum
               (List.map (fun '(w, v) => w * v)
                  (Scoring.present Scenarios.audio_missing))
             / Scoring.total_weight Scenarios.audio_missing)%Q.
Proof.
  apply (proj1 score_renormalized Scenarios.audio_missing).
  simpl. discriminate.
Defined.

(** ** Batch rollup *)

Section RollupFacts.
Import ExportEngine Batch.











Lemma deliver_other job_id target e (jobs : gmap nat ExportJob) :
  job_id <> target -> deliver job_id e jobs !! target = jobs !! target.
Proof.
  intros Hne. unfold deliver.
  destruct (jobs !! job_id) as [j |]; [| reflexivity].
  destruct (transition e j); [| reflexivity].
  now rewrite lookup_insert_ne.
Qed.

(** An event of one job leaves the record of every other job alone. *)
Lemma pool_step_other max_workers job_id e p target :
  target <> job_id ->
  jobs (pool_step max_workers (Renderer job_id e) p) !! target = jobs p !! target.
Proof.
  intros Hne. simpl. destruct (List.existsb _ _); [| reflexivity].
  simpl. apply deliver_other. congruence.
Qed.

Lemma existsb_eqb_In job_id l :
  List.existsb (Nat.eqb job_id) l = true <-> In job_id l.
Proof.
  rewrite existsb_exists. split.
  - intros (x & Hin & Hx). apply Nat.eqb_eq in Hx. now subst.
  - intros Hin. exists job_id. split; [assumption | apply Nat.eqb_refl].
Qed.

(** A job held by a worker stays held, with its record untouched, when
    the render of another job raises. *)
Lemma failure_keeps_other max_workers p failing other now err j :
  other <> failing ->
  In other (running p) ->
  jobs p !! other = Some j ->
  In other (running (pool_step max_workers (Renderer failing (RenderError now err)) p))
  /\ jobs (pool_step max_workers (Renderer failing (RenderError now err)) p)
       !! other = Some j.
Proof.
  intros Hne Hin Hj. split.
  - simpl. destruct (List.existsb _ _); [| assumption]. simpl.
    destruct (is_terminal_in _ _); [| assumption].
    apply filter_In. split; [assumption |].
    apply Bool.negb_true_iff. apply Nat.eqb_neq. congruence.
  - now rewrite pool_step_other.
Qed.

(** ... and it still completes when its own render returns. *)
Lemma failure_does_not_block max_workers p failing other now err later path j :
  other <> failing ->
  In other (running p) ->
  jobs p !! other = Some j ->
  state j = rendering ->
  state <$> (jobs (pool_run max_workers
                     [Renderer failing (RenderError now err);
                      Renderer other (Rendered later path)] p) !! other)
  = Some ExportEngine.completed.
Proof.
  intros Hne Hin Hj Hr.
  destruct (failure_keeps_other max_workers p failing other now err j Hne Hin Hj)
    as [Hin1 Hj1].
  unfold pool_run. cbn [List.fold_left].
  set (p1 := pool_step max_workers (Renderer failing (RenderError now err)) p) in *.
  apply existsb_eqb_In in Hin1.
  unfold pool_step at 1. rewrite Hin1. cbn [jobs].
  unfold deliver. rewrite Hj1. unfold transition. rewrite Hr.
  rewrite lookup_insert_eq. reflexivity.
Qed.

End RollupFacts.

(** On the worker pool as section 4.6 describes it, the batch of three
    clips whose second render raises rolls up to [partial_failure]: jobs 1
    and 3 are [completed] and job 2 is [failed] with the renderer's
    message. *)
Example modelled_pool_second_fails :
  Batch.get_batch_status (Batch.jobs Scenarios.after_second_fails)
    (fst Scenarios.three_clips) = Batch.partial_failure
  /\ Batch.job_states (Batch.jobs Scenarios.after_second_fails)
       (fst Scenarios.three_clips)
     = [ExportEngine.completed; ExportEngine.failed; ExportEngine.completed]
  /\ ExportEngine.message <$> (Batch.jobs Scenarios.after_second_fails !! 1%nat)
     = Some "ffmpeg exited with code 1"%string.
Proof. vm_compute. repeat split. Qed.

(** ** Worker pool bound *)

Section PoolFacts.
Import ExportEngine Batch.

Lemma enqueue_running clip_ids : forall preset_name opts now first_id p,
  running (enqueue clip_ids preset_name opts now first_id p) = running p.
Proof.
  induction clip_ids as [| clip rest IH]; intros; simpl; [reflexivity |].
  now rewrite IH.
Qed.

Lemma enqueue_queued clip_ids : forall preset_name opts now first_id p,
  (forall job_id j, jobs p !! job_id = Some j -> state j = queued) ->
  forall job_id j,
    jobs (enqueue clip_ids preset_name opts now first_id p) !! job_id = Some j ->
    state j = queued.
Proof.
  induction clip_ids as [| clip rest IH]; intros preset_name opts now first_id p Hp;
    simpl; [exact Hp |].
  apply IH. simpl. intros job_id j.
  destruct (decide (first_id = job_id)) as [-> | Hne].
  - rewrite lookup_insert_eq. intros [= <-]. reflexivity.
  - rewrite lookup_insert_ne by assumption. apply Hp.
Qed.

(** A freshly submitted batch has no job rendering and no worker busy. *)
Lemma submit_bounded max_workers batch_id clip_ids preset_name opts now :
  bounded max_workers (snd (submit_batch batch_id clip_ids preset_name opts now)).
Proof.
  unfold bounded, submit_batch. simpl. rewrite enqueue_running. simpl.
  split; [lia |].
  intros job_id (j & Hj & Hr).
  apply enqueue_queued in Hj; [congruence |].
  simpl. intros k j'. rewrite lookup_empty. discriminate.
Qed.

Lemma filter_length_le {A} (f : A -> bool) (l : list A) :
  (List.length (List.filter f l) <= List.length l)%nat.
Proof.
  induction l as [| x l IH]; simpl; [lia |].
  destruct (f x); simpl; lia.
Qed.

Lemma pool_step_bounded max_workers ev p :
  bounded max_workers p -> bounded max_workers (pool_step max_workers ev p).
Proof.
  intros [Hlen Hheld]. destruct ev as [now | job_id e]; simpl.
  - destruct (Nat.ltb_spec (List.length (running p)) max_workers) as [Hlt | Hge];
      [| split; assumption].
    destruct (waiting p) as [| job_id rest]; [split; assumption |].
    split; simpl; [lia |].
    intros target (j & Hj & Hr). simpl in Hj.
    destruct (decide (job_id = target)) as [-> | Hne]; [now left |].
    right. apply Hheld. exists j. split; [| assumption].
    now rewrite deliver_other in Hj.
  - destruct (List.existsb (Nat.eqb job_id) (running p)) eqn:Ein;
      [| split; assumption].
    apply existsb_eqb_In in Ein.
    split; simpl.
    + destruct (is_terminal_in _ _); [| assumption].
      pose proof (filter_length_le (fun r => negb (Nat.eqb job_id r)) (running p)).
      lia.
    + intros target (j & Hj & Hr). simpl in Hj.
      destruct (decide (job_id = target)) as [-> | Hne].
      * unfold is_terminal_in. rewrite Hj, Hr. simpl. assumption.
      * assert (Hin : In target (running p)).
        { apply Hheld. exists j. split; [| assumption].
          now rewrite deliver_other in Hj. }
        destruct (is_terminal_in _ _); [| assumption].
        apply filter_In. split; [assumption |].
        apply Bool.negb_true_iff. now apply Nat.eqb_neq.
Qed.

Lemma pool_run_bounded max_workers events : forall p,
  bounded max_workers p -> bounded max_workers (pool_run max_workers events p).
Proof.
  unfold pool_run. induction events as [| ev events IH]; intros p Hp; simpl.
  - exact Hp.
  - apply IH. now apply pool_step_bounded.
Qed.

End PoolFacts.

(** ** One clip at a time in the simulated export *)

Section SequentialFacts.
Import ClipsManager.

Lemma states_app us vs s :
  states (us ++ vs) s = states us s ++ states vs (final us s).
Proof.
  revert s. induction us as [| u us IH]; intros s; simpl; [reflexivity |].
  now rewrite IH.
Qed.

Lemma final_app us vs s : final (us ++ vs) s = final vs (final us s).
Proof. unfold final. apply fold_left_app. Qed.

(** Progress updates leave the status map alone. *)
Lemma progress_updates_status clipId values : forall s,
  exportStatus (final (List.map (SetProgress clipId) values) s) = exportStatus s
  /\ Forall (fun s' => exportStatus s' = exportStatus s)
       (states (List.map (SetProgress clipId) values) s).
Proof.
  induction values as [| v values IH]; intros s; simpl.
  - split; [reflexivity | constructor].
  - destruct (IH (apply (SetProgress clipId v) s)) as [Hf Hs].
    split; [exact Hf |]. constructor; [reflexivity | exact Hs].
Qed.

Lemma idle_only clipId s : idle_state s -> only_processing clipId s.
Proof. intros H c Hc. now apply H in Hc. Qed.

Lemma only_at_most_one clipId s :
  only_processing clipId s -> at_most_one_processing s.
Proof. intros H a b Ha Hb. rewrite (H a Ha), (H b Hb). reflexivity. Qed.

Lemma mark_processing_only clipId s :
  idle_state s ->
  only_processing clipId (apply (SetStatus clipId "processing") s).
Proof.
  intros Hidle c Hc. unfold isProcessing in Hc. simpl in Hc.
  destruct (decide (clipId = c)) as [-> | Hne]; [reflexivity |].
  rewrite lookup_insert_ne in Hc by assumption.
  now apply Hidle in Hc.
Qed.

Lemma mark_completed_idle clipId s :
  only_processing clipId s ->
  idle_state (apply (SetStatus clipId "completed") s).
Proof.
  intros Honly c Hc. unfold isProcessing in Hc. simpl in Hc.
  destruct (decide (clipId = c)) as [-> | Hne].
  - rewrite lookup_insert_eq in Hc. discriminate.
  - rewrite lookup_insert_ne in Hc by assumption.
    apply Honly in Hc. congruence.
Qed.

Lemma only_processing_status clipId s s' :
  exportStatus s' = exportStatus s ->
  only_processing clipId s -> only_processing clipId s'.
Proof.
  intros E H c Hc. apply H. unfold isProcessing in *. congruence.
Qed.

(** One iteration of the outer loop, started with no clip in
    processing: only its own clip is ever in processing, and none is
    when it ends. *)
Lemma exportClip_sequential clipId s :
  idle_state s ->
  Forall (only_processing clipId) (states (exportClip clipId) s)
  /\ idle_state (final (exportClip clipId) s).
Proof.
  intros Hidle. unfold exportClip.
  set (s1 := apply (SetStatus clipId "processing") s).
  assert (H1 : only_processing clipId s1) by now apply mark_processing_only.
  set (s2 := apply (SetProgress clipId 0) s1).
  assert (H2 : only_processing clipId s2)
    by (eapply only_processing_status; [| exact H1]; reflexivity).
  destruct (progress_updates_status clipId (loopValues 101 0) s2) as [Hf Hs].
  set (s3 := final (List.map (SetProgress clipId) (loopValues 101 0)) s2) in *.
  assert (H3 : only_processing clipId s3)
    by (eapply only_processing_status; [exact Hf | exact H2]).
  change ([SetStatus clipId "processing"; SetProgress clipId 0]
          ++ List.map (SetProgress clipId) (loopValues 101 0)
          ++ [SetStatus clipId "completed"])
    with (SetStatus clipId "processing" :: SetProgress clipId 0
          :: (List.map (SetProgress clipId) (loopValues 101 0)
              ++ [SetStatus clipId "completed"])).
  cbn [states final List.fold_left]. fold s1. fold s2.
  change (List.fold_left (fun acc u => apply u acc)
            (List.map (SetProgress clipId) (loopValues 101 0)
             ++ [SetStatus clipId "completed"]) s2)
    with (final (List.map (SetProgress clipId) (loopValues 101 0)
                 ++ [SetStatus clipId "completed"]) s2).
  rewrite states_app, final_app. fold s3.
  split.
  - constructor; [exact H1 |]. constructor; [exact H2 |].
    apply Forall_app. split.
    + eapply List.Forall_impl; [| exact Hs].
      intros s' E. eapply only_processing_status; [exact E | exact H2].
    + constructor; [| constructor].
      apply idle_only. now apply mark_completed_idle.
  - change (idle_state (apply (SetStatus clipId "completed") s3)).
    now apply mark_completed_idle.
Qed.

Lemma export_loop_sequential selectedClips : forall s,
  idle_state s ->
  Forall at_most_one_processing
    (states (List.concat (List.map exportClip selectedClips)) s).
Proof.
  induction selectedClips as [| c rest IH]; intros s Hidle.
  - constructor.
  - cbn [List.map List.concat]. rewrite states_app.
    destruct (exportClip_sequential c s Hidle) as [Hown Hend].
    apply Forall_app. split.
    + eapply List.Forall_impl; [| exact Hown].
      intros s'. apply only_at_most_one.
    + now apply IH.
Qed.

Lemma exportClip_status_own clipId s :
  exportStatus (final (exportClip clipId) s) !! clipId = Some "completed"%string.
Proof.
  unfold exportClip. rewrite app_assoc, final_app.
  change (exportStatus
            (apply (SetStatus clipId "completed")
               (final ([SetStatus clipId "processing"; SetProgress clipId 0]
                       ++ List.map (SetProgress clipId) (loopValues 101 0)) s))
          !! clipId = Some "completed"%string).
  simpl. apply lookup_insert_eq.
Qed.

Lemma exportClip_status_other clipId other s :
  other <> clipId ->
  exportStatus (final (exportClip other) s) !! clipId = exportStatus s !! clipId.
Proof.
  intros Hne. unfold exportClip. rewrite app_assoc, final_app.
  change (exportStatus
            (apply (SetStatus other "completed")
               (final ([SetStatus other "processing"; SetProgress other 0]
                       ++ List.map (SetProgress other) (loopValues 101 0)) s))
          !! clipId = exportStatus s !! clipId).
  cbn [apply exportStatus]. rewrite lookup_insert_ne by assumption.
  rewrite final_app.
  destruct (progress_updates_status other (loopValues 101 0)
              (final [SetStatus other "processing"; SetProgress other 0] s))
    as [-> _].
  simpl. now rewrite lookup_insert_ne.
Qed.


End SequentialFacts.

(** C7. Under any sequence of pool events after a batch submission, at most
    [max_workers] jobs are in state [rendering] at the same time: any
    duplicate-free list of rendering jobs has at most [max_workers]
    elements. The default bound is 3. In the clips manager's simulated
    export, started with no clip in processing, at most one clip is in
    processing at any point. *)
Theorem pool_never_exceeds_bound :
  (forall max_workers batch_id clip_ids preset_name opts now events ids,
      List.NoDup ids ->
      (forall job_id, In job_id ids ->
         Batch.is_rendering
           (Batch.pool_run max_workers events
              (snd (Batch.submit_batch batch_id clip_ids preset_name opts now)))
           job_id) ->
      (List.length ids <= max_workers)%nat)
  /\ Batch.default_max_workers = 3%nat
  /\ (forall selectedClips s,
        ClipsManager.idle_state s ->
        Forall ClipsManager.at_most_one_processing
          (ClipsManager.states
             (ClipsManager.handleExportSelected selectedClips) s)).
Proof.
  split; [| split].
  - intros max_workers batch_id clip_ids preset_name opts now events ids Hnd Hall.
    destruct (pool_run_bounded max_workers events _
                (submit_bounded max_workers batch_id clip_ids preset_name opts now))
      as [Hlen Hheld].
    etransitivity; [| exact Hlen].
    apply NoDup_incl_length; [exact Hnd |].
    intros job_id Hin. apply Hheld. now apply Hall.
  - reflexivity.
  - intros selectedClips s Hidle.
    rewrite handleExportSelected_concat.
    now apply export_loop_sequential.
Qed.

(** ** The properties at the concrete scenarios *)

Example smooth_trace_defined :
  Watch.trace Scenarios.smooth_run Scenarios.started = Some Scenarios.smooth_trace.
Proof. reflexivity. Qed.

Example smooth_trace_progress :
  List.map (fun w => (ExportEngine.progress (Watch.job w),
                      ClipCard.exportProgress (Watch.card w)))
    Scenarios.smooth_trace
  = [(0, 0); (0, 0); (0, 0); (40, 0); (40, 40); (40, 40); (90, 40); (90, 40);
     (90, 90)]%nat.
Proof. reflexivity. Qed.

Example rendering_at_40_state :
  ExportEngine.state (Watch.job Scenarios.rendering_at_40) = ExportEngine.rendering
  /\ ClipCard.exporting (Watch.card Scenarios.rendering_at_40) = true
  /\ Watch.poll_pending Scenarios.rendering_at_40 = true.
Proof. repeat split. Qed.

Lemma export_progress_monotone_witness :
  (StronglySorted le
     (List.map (fun w => ExportEngine.progress (Watch.job w)) Scenarios.smooth_trace)
   /\ StronglySorted le
        (List.map (fun w => ClipCard.exportProgress (Watch.card w))
           Scenarios.smooth_trace)
   /\ Forall (fun w =>
                (ExportEngine.progress (Watch.job w) <= 100)%nat
                /\ (ClipCard.exportProgress (Watch.card w) <= 100)%nat)
        Scenarios.smooth_trace)
  /\ (StronglySorted le
        (ClipsManager.progressWrites "c2"
           (ClipsManager.handleExportSelected ["c1"; "c2"]%string))
      /\ Forall (fun p => (p <= 100)%nat)
           (ClipsManager.progressWrites "c2"
              (ClipsManager.handleExportSelected ["c1"; "c2"]%string))).
Proof.
  split.
  - apply (proj1 export_progress_monotone Scenarios.idle 7%nat
             "c1"%string "tiktok"%string ""%string 0%nat Scenarios.smooth_run);
      reflexivity.
  - apply (proj2 export_progress_monotone).
    + constructor; [simpl; intros [H | []]; discriminate H |].
      constructor; [simpl; tauto | constructor].
    + simpl. tauto.
Defined.

Lemma pollProgress_abandons_on_not_ok_witness :
  exists w',
    Watch.step (Watch.Poll Watch.NotOk) Scenarios.rendering_at_40 = Some w'
    /\ Watch.job w' = Watch.job Scenarios.rendering_at_40
    /\ Watch.card w' = Watch.card Scenarios.rendering_at_40
    /\ Watch.poll_pending w' = false
    /\ forall steps t,
         Watch.trace steps w' = Some t ->
         Forall (fun x => Watch.card x = Watch.card Scenarios.rendering_at_40) t.
Proof.
  apply (pollProgress_abandons_on_not_ok Scenarios.rendering_at_40).
  reflexivity.
Defined.

(** C4, as stated: for the job whose render raised "ffmpeg exited with code
    1", the card records ["Export failed"], which is not the message of
    the job, and paints no progress panel. *)
Lemma failed_export_shows_generic_message :
  ExportEngine.transition
    (ExportEngine.RenderError 3 "ffmpeg exited with code 1") Scenarios.in_render
    = Some Scenarios.render_failed
  /\ ClipCard.exportMessage
       (fst (ClipCard.pollProgress
               (ClipCard.PollOk (Watch.snapshot Scenarios.render_failed))
               Scenarios.busy))
     = "Export failed"%string
  /\ ClipCard.exportMessage
       (fst (ClipCard.pollProgress
               (ClipCard.PollOk (Watch.snapshot Scenarios.render_failed))
               Scenarios.busy))
     <> ExportEngine.message Scenarios.render_failed
  /\ ClipCard.progressPanel
       (fst (ClipCard.pollProgress
               (ClipCard.PollOk (Watch.snapshot Scenarios.render_failed))
               Scenarios.busy))
     = None.
Proof.
  split; [reflexivity |]. split; [reflexivity |].
  split; [| reflexivity].
  simpl. discriminate.
Qed.

Lemma failed_export_message_witness :
  exists j',
    ExportEngine.transition
      (ExportEngine.RenderError 3 "ffmpeg exited with code 1") Scenarios.in_render
      = Some j'
    /\ ExportEngine.state j' = ExportEngine.failed
    /\ ExportEngine.message j' = "ffmpeg exited with code 1"%string
    /\ ExportEngine.error j' =
         Some {| ExportEngine.kind := ExportEngine.RenderFailure;
                 ExportEngine.detail := "ffmpeg exited with code 1" |}
    /\ ClipCard.message (Watch.snapshot j') = "ffmpeg exited with code 1"%string
    /\ ClipCard.pollProgress (ClipCard.PollOk (Watch.snapshot j')) Scenarios.busy =
         ({| ClipCard.exporting := false;
             ClipCard.exportProgress :=
               ExportEngine.progress Scenarios.in_render;
             ClipCard.exportMessage := "Export failed";
             ClipCard.downloadUrl := ClipCard.downloadUrl Scenarios.busy |}, false)
    /\ ClipCard.progressPanel
         (fst (ClipCard.pollProgress (ClipCard.PollOk (Watch.snapshot j'))
                 Scenarios.busy))
       = None.
Proof.
  apply (failed_export_message Scenarios.in_render 3%nat
           "ffmpeg exited with code 1"%string Scenarios.busy).
  reflexivity.
Defined.

Lemma resolve_preset_spec_witness :
  (QualityPresets.resolve "vimeo" = inl (QualityPresets.UnknownPreset "vimeo")
   /\ forall clip opts now eng,
        QualityPresets.submit_export clip "vimeo" opts now eng =
          (inl (QualityPresets.UnknownPreset "vimeo"), eng))
  /\ exists p,
       QualityPresets.resolve "youtube_shorts" = inr p
       /\ In p QualityPresets.table
       /\ QualityPresets.name p = "youtube_shorts"%string
       /\ forall clip opts now eng,
            QualityPresets.submit_export clip "youtube_shorts" opts now eng =
              (inr (QualityPresets.next_id eng),
               {| QualityPresets.jobs :=
                    <[QualityPresets.next_id eng :=
                        ExportEngine.new_job (QualityPresets.next_id eng)
                          clip "youtube_shorts" opts now]> (QualityPresets.jobs eng);
                  QualityPresets.next_id := S (QualityPresets.next_id eng) |}).
Proof.
  split.
  - apply (proj1 (proj2 (proj2 (proj2 (proj2 resolve_preset_spec))))
             "vimeo"%string).
    simpl. intuition discriminate.
  - apply (proj1 (proj2 (proj2 (proj2 (proj2 (proj2 resolve_preset_spec)))))
             "youtube_shorts"%string).
    simpl. tauto.
Defined.

Lemma pool_never_exceeds_bound_witness :
  (List.length [0; 1]%nat <= 2)%nat
  /\ Forall ClipsManager.at_most_one_processing
       (ClipsManager.states
          (ClipsManager.handleExportSelected ["c1"; "c2"]%string)
          ClipsManager.initialState).
Proof.
  split.
  - apply (proj1 pool_never_exceeds_bound 2%nat 1%nat ["c1"; "c2"; "c3"]%string
             "tiktok"%string ""%string 0%nat
             (firstn 4 Scenarios.second_fails) [0; 1]%nat).
    + repeat constructor; simpl; lia.
    + intros job_id [<- | [<- | []]]; eexists; split; reflexivity.
  - apply (proj2 (proj2 pool_never_exceeds_bound)).
    intros c Hc. unfold ClipsManager.isProcessing in Hc. simpl in Hc.
    rewrite lookup_empty in Hc. discriminate.
Defined.

Lemma currentText_first_covering_witness :
  VideoSubtitles.currentText
    (Some [Scenarios.hello; Scenarios.brave; Scenarios.world]) (7 # 4)
    = "brave"%string
  /\ VideoSubtitles.currentText
       (Some [Scenarios.hello; Scenarios.brave; Scenarios.world]) 5
     = EmptyString.
Proof.
  split.
  - apply (proj1 (currentText_first_covering (7 # 4))
             [Scenarios.hello] Scenarios.brave [Scenarios.world]).
    + constructor; [| constructor].
      unfold VideoSubtitles.within, Qle. simpl. lia.
    + unfold VideoSubtitles.within, Qle. simpl. lia.
  - apply (proj1 (proj2 (currentText_first_covering 5))).
    repeat constructor; unfold VideoSubtitles.within, Qle; simpl; lia.
Defined.

Lemma uploadFile_progress_witness :
  VideoUpload.entries "f1"
    (VideoUpload.files
       (VideoUpload.run "f1" Scenarios.connection_lost
          (VideoUpload.uploadFile Scenarios.dropped)))
  = [Scenarios.after_connection_lost]
  /\ forall before later g,
       Scenarios.connection_lost = before ++ later ->
       In g (VideoUpload.entries "f1"
               (VideoUpload.files
                  (VideoUpload.run "f1" before
                     (VideoUpload.uploadFile Scenarios.dropped)))) ->
       (VideoUpload.progress g <= 90)%nat.
Proof.
  split.
  - exact (proj1
             (uploadFile_progress "f1"%string Scenarios.dropped
                Scenarios.connection_lost
                ltac:(intros f [<- | []]; split; reflexivity))).
  - exact (proj2 (proj2 (proj2 (proj2
             (uploadFile_progress "f1"%string Scenarios.dropped
                Scenarios.connection_lost
                ltac:(intros f [<- | []]; split; reflexivity))))) eq_refl).
Defined.

(** * Further properties of the front-end code *)

(** ** Selecting clips *)

Section SelectionFacts.
Import ClipSelection.

Lemma includes_In clipId (l : list string) :
  List.existsb (String.eqb clipId) l = true <-> In clipId l.
Proof.
  rewrite existsb_exists. split.
  - intros (x & Hin & Hx). apply String.eqb_eq in Hx. now subst.
  - intros Hin. exists clipId. split; [assumption | apply String.eqb_refl].
Qed.

Lemma In_without clipId c (l : list string) :
  In c (List.filter (fun id => negb (String.eqb id clipId)) l) <->
  In c l /\ c <> clipId.
Proof.
  rewrite filter_In, Bool.negb_true_iff, String.eqb_neq. reflexivity.
Qed.

Lemma without_absent clipId (l : list string) :
  ~ In clipId l ->
  List.filter (fun id => negb (String.eqb id clipId)) l = l.
Proof.
  induction l as [| x l IH]; simpl; intros Hnot; [reflexivity |].
  destruct (String.eqb_spec x clipId) as [-> | Hne]; simpl.
  - tauto.
  - rewrite IH by tauto. reflexivity.
Qed.

Lemma NoDup_without clipId (l : list string) :
  List.NoDup l ->
  List.NoDup (List.filter (fun id => negb (String.eqb id clipId)) l).
Proof. apply List.NoDup_filter. Qed.

Lemma toggle_NoDup clipId (l : list string) :
  List.NoDup l -> List.NoDup (handleToggleClip clipId l).
Proof.
  intros Hnd. unfold handleToggleClip.
  destruct (List.existsb _ l) eqn:E.
  - now apply NoDup_without.
  - apply List.NoDup_app; [assumption | repeat constructor; simpl; tauto |].
    intros x Hx [<- | []].
    apply includes_In in Hx. congruence.
Qed.

Lemma act_NoDup clips a (l : list string) :
  List.NoDup (List.map id clips) -> List.NoDup l -> List.NoDup (act clips a l).
Proof.
  intros Hids Hl. destruct a as [| | index]; simpl.
  - exact Hids.
  - constructor.
  - destruct (clips !! index); [now apply toggle_NoDup | assumption].
Qed.

Lemma act_incl clips a (l : list string) :
  incl l (List.map id clips) -> incl (act clips a l) (List.map id clips).
Proof.
  intros Hl. destruct a as [| | index]; simpl.
  - apply incl_refl.
  - intros x [].
  - destruct (clips !! index) as [clip |] eqn:E; [| assumption].
    unfold handleToggleClip. destruct (List.existsb _ l).
    + intros x Hx. apply In_without in Hx as [Hx _]. now apply Hl.
    + apply incl_app; [assumption |].
      intros x [<- | []]. apply in_map.
      apply list_elem_of_In. eapply list_elem_of_lookup_2. exact E.
Qed.

End SelectionFacts.

(** X1. Toggling a clip flips its membership in the selection and changes
    the membership of no other clip; on a duplicate-free selection the
    count shown on the export button moves by exactly one. *)
Theorem handleToggleClip_flips (clipId : string) (prev : list string) :
  (In clipId (ClipSelection.handleToggleClip clipId prev) <-> ~ In clipId prev)
  /\ (forall other, other <> clipId ->
        (In other (ClipSelection.handleToggleClip clipId prev) <-> In other prev))
  /\ (List.NoDup prev ->
      List.length (ClipSelection.handleToggleClip clipId prev) =
        if List.existsb (String.eqb clipId) prev
        then (List.length prev - 1)%nat else S (List.length prev)).
Proof.
  unfold ClipSelection.handleToggleClip.
  destruct (List.existsb (String.eqb clipId) prev) eqn:E.
  - assert (Hin : In clipId prev) by now apply includes_In.
    split; [| split].
    + rewrite In_without. tauto.
    + intros other Hne. rewrite In_without. tauto.
    + intros Hnd. clear E. induction Hnd as [| x l Hx Hnd IH]; [destruct Hin |].
      simpl. destruct (String.eqb_spec x clipId) as [-> | Hne]; simpl.
      * rewrite without_absent by assumption. lia.
      * destruct Hin as [-> | Hin]; [congruence |].
        rewrite IH by assumption. destruct l; [destruct Hin | simpl; lia].
  - assert (Hnot : ~ In clipId prev).
    { intros H. apply includes_In in H. congruence. }
    split; [| split].
    + rewrite in_app_iff. simpl. tauto.
    + intros other Hne. rewrite in_app_iff. simpl. split; [| tauto].
      intros [H | [H | []]]; [assumption | congruence].
    + intros _. rewrite length_app. simpl. lia.
Qed.

(** X2. Whatever sequence of select-all, deselect-all and card clicks the
    user performs, the selection only holds ids of clips of the grid, and
    it holds none of them twice when the clips have distinct ids. *)
Theorem selection_session_invariant
    (clips : list ClipSelection.Clip) (actions : list ClipSelection.Action) :
  incl (ClipSelection.session clips actions)
    (List.map ClipSelection.id clips)
  /\ (List.NoDup (List.map ClipSelection.id clips) ->
      List.NoDup (ClipSelection.session clips actions)).
Proof.
  unfold ClipSelection.session.
  assert (H : forall l,
             incl l (List.map ClipSelection.id clips) ->
             incl (List.fold_left
                     (fun sel a => ClipSelection.act clips a sel) actions l)
               (List.map ClipSelection.id clips)
             /\ (List.NoDup (List.map ClipSelection.id clips) ->
                 List.NoDup l ->
                 List.NoDup (List.fold_left
                               (fun sel a => ClipSelection.act clips a sel)
                               actions l))).
  { induction actions as [| a actions IH]; intros l Hl; simpl.
    - split; [assumption | tauto].
    - destruct (IH (ClipSelection.act clips a l) (act_incl clips a l Hl))
        as [Hi Hn].
      split; [assumption |].
      intros Hids Hnd. apply Hn; [assumption |]. now apply act_NoDup. }
  destruct (H [] ltac:(intros x [])) as [Hi Hn].
  split; [assumption |]. intros Hids. apply Hn; [assumption | constructor].
Qed.



(** ** The state the simulated export leaves behind *)

Section SimulatedExportFacts.
Import ClipsManager.

Lemma progress_updates_progress clipId values : forall s,
  values <> [] ->
  exportProgress (final (List.map (SetProgress clipId) values) s) !! clipId
    = Some (List.last values 0%nat).
Proof.
  induction values as [| v values IH]; intros s Hne; [congruence |].
  destruct values as [| v' values].
  - simpl. apply lookup_insert_eq.
  - change (final (List.map (SetProgress clipId) (v :: v' :: values)) s)
      with (final (List.map (SetProgress clipId) (v' :: values))
              (apply (SetProgress clipId v) s)).
    rewrite IH by discriminate. reflexivity.
Qed.

Lemma exportClip_progress_own clipId s :
  exportProgress (final (exportClip clipId) s) !! clipId = Some 100%nat.
Proof.
  unfold exportClip. rewrite app_assoc, final_app.
  change (exportProgress
            (final ([SetStatus clipId "processing"; SetProgress clipId 0]
                    ++ List.map (SetProgress clipId) (loopValues 101 0)) s)
          !! clipId = Some 100%nat).
  rewrite final_app, progress_updates_progress by (rewrite loopValues_steps; discriminate).
  reflexivity.
Qed.

Lemma progress_updates_other clipId other values : forall s,
  other <> clipId ->
  exportProgress (final (List.map (SetProgress other) values) s) !! clipId
    = exportProgress s !! clipId.
Proof.
  induction values as [| v values IH]; intros s Hne; [reflexivity |].
  change (final (List.map (SetProgress other) (v :: values)) s)
    with (final (List.map (SetProgress other) values)
            (apply (SetProgress other v) s)).
  rewrite IH by assumption. simpl. now rewrite lookup_insert_ne.
Qed.

Lemma exportClip_progress_other clipId other s :
  other <> clipId ->
  exportProgress (final (exportClip other) s) !! clipId
    = exportProgress s !! clipId.
Proof.
  intros Hne. unfold exportClip. rewrite app_assoc, final_app.
  change (exportProgress
            (final ([SetStatus other "processing"; SetProgress other 0]
                    ++ List.map (SetProgress other) (loopValues 101 0)) s)
          !! clipId = exportProgress s !! clipId).
  rewrite final_app, progress_updates_other by assumption.
  simpl. now rewrite lookup_insert_ne.
Qed.

(** The entries of a clip after the export of a list of clips: those of
    its last own iteration if it is in the list, its old ones otherwise. *)
Lemma export_loop_entries clipId selectedClips : forall s,
  let s' := final (List.concat (List.map exportClip selectedClips)) s in
  (In clipId selectedClips ->
   exportStatus s' !! clipId = Some "completed"%string
   /\ exportProgress s' !! clipId = Some 100%nat)
  /\ (~ In clipId selectedClips ->
      exportStatus s' !! clipId = exportStatus s !! clipId
      /\ exportProgress s' !! clipId = exportProgress s !! clipId).
Proof.
  induction selectedClips as [| c rest IH]; intros s; cbn zeta.
  - split; [intros [] | intros _; split; reflexivity].
  - cbn [List.map List.concat]. rewrite final_app.
    specialize (IH (final (exportClip c) s)). cbn zeta in IH.
    destruct IH as [IHin IHout].
    destruct (in_dec String.string_dec clipId rest) as [Hrest | Hnot].
    + split; [intros _; now apply IHin | simpl; tauto].
    + destruct (IHout Hnot) as [Es Ep]. rewrite Es, Ep.
      split.
      * intros [-> | Hin]; [| contradiction].
        split; [apply exportClip_status_own | apply exportClip_progress_own].
      * intros Hout. simpl in Hout.
        rewrite exportClip_status_other, exportClip_progress_other by tauto.
        split; reflexivity.
Qed.

End SimulatedExportFacts.

(** X4. When the simulated export of the clips manager ends, every selected
    clip is marked "completed" at 100 percent and the entries of every
    other clip are exactly what they were before; with nothing selected no
    entry changes at all. *)
Theorem handleExportSelected_final_state
    (selectedClips : list string) (s : ClipsManager.ExportState) (clipId : string) :
  (In clipId selectedClips ->
   ClipsManager.exportStatus
     (ClipsManager.final (ClipsManager.handleExportSelected selectedClips) s)
     !! clipId = Some "completed"%string
   /\ ClipsManager.exportProgress
        (ClipsManager.final (ClipsManager.handleExportSelected selectedClips) s)
        !! clipId = Some 100%nat)
  /\ (~ In clipId selectedClips ->
      ClipsManager.exportStatus
        (ClipsManager.final (ClipsManager.handleExportSelected selectedClips) s)
        !! clipId = ClipsManager.exportStatus s !! clipId
      /\ ClipsManager.exportProgress
           (ClipsManager.final (ClipsManager.handleExportSelected selectedClips) s)
           !! clipId = ClipsManager.exportProgress s !! clipId)
  /\ ClipsManager.final (ClipsManager.handleExportSelected []) s = s.
Proof.
  rewrite handleExportSelected_concat.
  destruct (export_loop_entries clipId selectedClips s) as [Hin Hout].
  split; [exact Hin |]. split; [exact Hout | reflexivity].
Qed.

(** ** The file list of the upload component *)

Section UploadListFacts.
Import VideoUpload UploadList.

Lemma entries_removeFile fileId (l : list UploadedFile) :
  entries fileId (removeFile fileId l) = [].
Proof.
  unfold entries, removeFile. induction l as [| f l IH]; simpl; [reflexivity |].
  destruct (String.eqb (id f) fileId) eqn:E; simpl; [assumption |].
  now rewrite E.
Qed.

Lemma entries_removeFile_other fileId other (l : list UploadedFile) :
  other <> fileId ->
  entries other (removeFile fileId l) = entries other l.
Proof.
  intros Hne. unfold entries, removeFile.
  induction l as [| f l IH]; simpl; [reflexivity |].
  destruct (String.eqb_spec (id f) fileId) as [E | N]; simpl.
  - destruct (String.eqb_spec (id f) other) as [E' | N']; [congruence | assumption].
  - destruct (String.eqb (id f) other); now rewrite IH.
Qed.

(** A per-entry update that only rewrites the entries of one id is the
    identity on a list without such entries. *)
Lemma map_absent fileId (g : UploadedFile -> UploadedFile) (l : list UploadedFile) :
  (forall f, String.eqb (id f) fileId = false -> g f = f) ->
  entries fileId l = [] -> List.map g l = l.
Proof.
  intros Hg. unfold entries. induction l as [| f l IH]; simpl; [reflexivity |].
  destruct (String.eqb (id f) fileId) eqn:E; [discriminate |].
  intros H. now rewrite Hg, IH.
Qed.

Lemma tick_other fileId f : String.eqb (id f) fileId = false -> tick fileId f = f.
Proof. intros E. unfold tick. now rewrite E. Qed.

Lemma markError_other fileId f :
  String.eqb (id f) fileId = false -> markError fileId f = f.
Proof. intros E. unfold markError. now rewrite E. Qed.

Lemma markProcessing_other fileId job f :
  String.eqb (id f) fileId = false -> markProcessing fileId job f = f.
Proof. intros E. unfold markProcessing. now rewrite E. Qed.

Lemma recordStatus_other fileId data f :
  String.eqb (id f) fileId = false -> recordStatus fileId data f = f.
Proof. intros E. unfold recordStatus. now rewrite E. Qed.

(** The file list after any event of an upload is the old one with a
    per-entry update that leaves the entries of other ids alone. *)
Lemma step_pointwise fileId e u :
  exists g, files (step fileId e u) = List.map g (files u)
            /\ forall f, String.eqb (id f) fileId = false -> g f = f.
Proof.
  destruct e as [| | r]; simpl.
  - destruct (interval_armed u).
    + exists (tick fileId). split; [reflexivity | apply tick_other].
    + exists (fun f => f). split; [now rewrite List.map_id | reflexivity].
  - destruct (settled u).
    + exists (fun f => f). split; [now rewrite List.map_id | reflexivity].
    + exists (markError fileId). split; [reflexivity | apply markError_other].
  - destruct (settled u).
    + exists (fun f => f). split; [now rewrite List.map_id | reflexivity].
    + destruct (ok r), (body r) as [job |]; simpl.
      * exists (markProcessing fileId job).
        split; [reflexivity | apply markProcessing_other].
      * exists (markError fileId). split; [reflexivity | apply markError_other].
      * exists (markError fileId). split; [reflexivity | apply markError_other].
      * exists (markError fileId). split; [reflexivity | apply markError_other].
Qed.

Lemma poll_pointwise fileId o (l : list UploadedFile) :
  exists g, fst (poll fileId o l) = List.map g l
            /\ forall f, String.eqb (id f) fileId = false -> g f = f.
Proof.
  destruct o as [| data]; simpl.
  - exists (fun f => f). split; [now rewrite List.map_id | reflexivity].
  - exists (recordStatus fileId data).
    split; [| apply recordStatus_other].
    destruct (String.eqb _ "completed"); [reflexivity |].
    destruct (String.eqb _ "failed"); reflexivity.
Qed.

Lemma map_pointwise_lookup fileId (g : UploadedFile -> UploadedFile)
    (l : list UploadedFile) (i : nat) (f : UploadedFile) :
  (forall f, String.eqb (id f) fileId = false -> g f = f) ->
  l !! i = Some f -> id f <> fileId ->
  List.map g l !! i = Some f.
Proof.
  intros Hg Hl Hne.
  change (List.map g l) with (g <$> l).
  rewrite list_lookup_fmap, Hl. simpl. f_equal.
  apply Hg. now apply String.eqb_neq.
Qed.

End UploadListFacts.

(** X5. Removing a file drops every entry with its id and keeps the
    entries of all other ids, in order. Afterwards the interval firings,
    the settlement of the request and the status polls of the removed
    file leave the list exactly as it is, but a poll is rescheduled just as
    if the file were still listed: removal does not stop the polling. *)
Theorem removeFile_then_updates
    (fileId : string) (prev : list VideoUpload.UploadedFile) :
  VideoUpload.entries fileId (UploadList.removeFile fileId prev) = []
  /\ (forall other, other <> fileId ->
        VideoUpload.entries other (UploadList.removeFile fileId prev)
        = VideoUpload.entries other prev)
  /\ (forall e armed done,
        VideoUpload.files
          (VideoUpload.step fileId e
             {| VideoUpload.files := UploadList.removeFile fileId prev;
                VideoUpload.interval_armed := armed;
                VideoUpload.settled := done |})
        = UploadList.removeFile fileId prev)
  /\ (forall o,
        fst (VideoUpload.poll fileId o (UploadList.removeFile fileId prev))
        = UploadList.removeFile fileId prev
        /\ snd (VideoUpload.poll fileId o (UploadList.removeFile fileId prev))
           = snd (VideoUpload.poll fileId o prev)).
Proof.
  split; [apply entries_removeFile |].
  split; [intros; now apply entries_removeFile_other |].
  split.
  - intros e armed done.
    destruct (step_pointwise fileId e
                {| VideoUpload.files := UploadList.removeFile fileId prev;
                   VideoUpload.interval_armed := armed;
                   VideoUpload.settled := done |}) as (g & -> & Hg).
    simpl. eapply map_absent; [exact Hg | apply entries_removeFile].
  - intros o. split.
    + destruct (poll_pointwise fileId o (UploadList.removeFile fileId prev))
        as (g & -> & Hg).
      eapply map_absent; [exact Hg | apply entries_removeFile].
    + destruct o as [| data]; simpl; [reflexivity |].
      destruct (String.eqb _ "completed"); [reflexivity |].
      destruct (String.eqb _ "failed"); reflexivity.
Qed.

(** X6. No event of one file's upload and no status poll of one file's job
    adds, removes or moves an entry, and each leaves every entry of
    another file exactly as it was. *)
Theorem upload_updates_isolated
    (fileId : string) (e : VideoUpload.Event) (u : VideoUpload.Upload)
    (o : VideoUpload.PollOutcome) :
  List.length (VideoUpload.files (VideoUpload.step fileId e u))
    = List.length (VideoUpload.files u)
  /\ List.length (fst (VideoUpload.poll fileId o (VideoUpload.files u)))
     = List.length (VideoUpload.files u)
  /\ (forall (i : nat) (f : VideoUpload.UploadedFile),
        VideoUpload.files u !! i = Some f ->
        VideoUpload.id f <> fileId ->
        VideoUpload.files (VideoUpload.step fileId e u) !! i = Some f
        /\ fst (VideoUpload.poll fileId o (VideoUpload.files u)) !! i = Some f).
Proof.
  destruct (step_pointwise fileId e u) as (g & Eg & Hg).
  destruct (poll_pointwise fileId o (VideoUpload.files u)) as (h & Eh & Hh).
  rewrite Eg, Eh, !List.length_map.
  split; [reflexivity |]. split; [reflexivity |].
  intros i f Hi Hne. split; eapply map_pointwise_lookup; eassumption.
Qed.

(** ** Submitting a YouTube URL *)

Section YoutubeFacts.
Import VideoUpload UploadList.

Lemma markQueued_other fileId job f :
  String.eqb (id f) fileId = false -> markQueued fileId job f = f.
Proof. intros E. unfold markQueued. now rewrite E. Qed.

Lemma markSubmitError_other fileId f :
  String.eqb (id f) fileId = false -> markSubmitError fileId f = f.
Proof. intros E. unfold markSubmitError. now rewrite E. Qed.

Lemma handleYoutubeSubmit_nonempty youtubeUrl fileId o prev :
  youtubeUrl <> EmptyString ->
  handleYoutubeSubmit youtubeUrl fileId o prev =
    match o with
    | SubmitOk job =>
        (List.map (markQueued fileId job) (prev ++ [youtubeEntry youtubeUrl fileId]),
         Some (fileId, job))
    | SubmitRejects | SubmitNotOk =>
        (List.map (markSubmitError fileId) (prev ++ [youtubeEntry youtubeUrl fileId]),
         None)
    end.
Proof. destruct youtubeUrl; [congruence | reflexivity]. Qed.

End YoutubeFacts.

(** X7. Submitting an empty URL changes nothing and starts no polling. A
    non-empty URL, with an id no listed file has, appends exactly one entry
    named by the URL and leaves the others as they are: on success the
    entry is "processing" at 5 percent with the job id and polling starts
    for it; when the request fails the entry is in "error" at 0 percent
    and no polling starts. *)
Theorem handleYoutubeSubmit_entry
    (youtubeUrl fileId : string) (o : UploadList.SubmitOutcome)
    (prev : list VideoUpload.UploadedFile) :
  UploadList.handleYoutubeSubmit EmptyString fileId o prev = (prev, None)
  /\ (youtubeUrl <> EmptyString ->
      VideoUpload.entries fileId prev = [] ->
      exists entry,
        fst (UploadList.handleYoutubeSubmit youtubeUrl fileId o prev)
          = prev ++ [entry]
        /\ VideoUpload.name entry = youtubeUrl
        /\ VideoUpload.id entry = fileId
        /\ match o with
           | UploadList.SubmitOk job =>
               VideoUpload.status entry = VideoUpload.processing
               /\ VideoUpload.progress entry = 5%nat
               /\ VideoUpload.jobId entry = Some job
               /\ snd (UploadList.handleYoutubeSubmit youtubeUrl fileId o prev)
                  = Some (fileId, job)
           | _ =>
               VideoUpload.status entry = VideoUpload.error
               /\ VideoUpload.progress entry = 0%nat
               /\ VideoUpload.jobId entry = None
               /\ snd (UploadList.handleYoutubeSubmit youtubeUrl fileId o prev)
                  = None
           end).
Proof.
  split; [reflexivity |].
  intros Hurl Hfresh. rewrite handleYoutubeSubmit_nonempty by assumption.
  destruct o as [| | job]; simpl; rewrite List.map_app; simpl.
  - exists (UploadList.markSubmitError fileId (UploadList.youtubeEntry youtubeUrl fileId)).
    rewrite (map_absent fileId) by (auto using markSubmitError_other).
    unfold UploadList.markSubmitError. simpl. rewrite String.eqb_refl. simpl.
    repeat split.
  - exists (UploadList.markSubmitError fileId (UploadList.youtubeEntry youtubeUrl fileId)).
    rewrite (map_absent fileId) by (auto using markSubmitError_other).
    unfold UploadList.markSubmitError. simpl. rewrite String.eqb_refl. simpl.
    repeat split.
  - exists (UploadList.markQueued fileId job (UploadList.youtubeEntry youtubeUrl fileId)).
    rewrite (map_absent fileId) by (auto using markQueued_other).
    unfold UploadList.markQueued. simpl. rewrite String.eqb_refl. simpl.
    repeat split.
Qed.

(** ** The aspect ratio sent with an upload *)

Section AspectRatioFacts.
Import UploadList.




End AspectRatioFacts.


Example splitColon_examples :
  UploadList.splitColon [] "9:16" = ["9"; "16"]%string
  /\ UploadList.splitColon [] "" = [""]%string
  /\ UploadList.splitColon [] "a::b:" = ["a"; ""; "b"; ""]%string.
Proof. repeat split. Qed.

Example getAspectRatio_examples :
  UploadList.getAspectRatio UploadList.digitsNumber None
    = (UploadList.Num 9, UploadList.Num 16)
  /\ UploadList.getAspectRatio UploadList.digitsNumber (Some "4:5"%string)
     = (UploadList.Num 4, UploadList.Num 5)
  /\ UploadList.getAspectRatio UploadList.digitsNumber (Some "0:x"%string)
     = (UploadList.Num 9, UploadList.Num 16)
  /\ UploadList.getAspectRatio UploadList.digitsNumber (Some ""%string)
     = (UploadList.Num 9, UploadList.Num 16).
Proof. repeat split. Qed.

(** ** The panels of the clip card *)

Section CardFacts.
Import ClipCard CardSession.

Lemma step_card_ok i s : card_ok s -> card_ok (step i s).
Proof.
  intros (Hp & He & Hu). unfold card_ok.
  destruct i as [o | o]; simpl.
  - unfold handleExport.
    destruct (exporting (card s)) eqn:E; simpl; [auto |].
    assert (polls s = 0%nat).
    { destruct (polls s) as [| [| n]]; [reflexivity | | lia].
      specialize (He eq_refl). congruence. }
    destruct o; simpl; repeat split; auto; try lia; discriminate.
  - destruct (polls s) as [| others] eqn:Ep; [unfold card_ok; rewrite Ep; auto |].
    assert (others = 0%nat) by lia. subst others.
    specialize (He eq_refl).
    destruct o as [| | reply]; simpl.
    + auto.
    + repeat split; auto; lia.
    + destruct (String.eqb (status reply) "completed"); simpl;
        [repeat split; auto; try lia; discriminate |].
      destruct (String.eqb (status reply) "failed"); simpl;
        [repeat split; auto; try lia; discriminate |].
      repeat split; auto.
Qed.

Lemma run_card_ok inputs : forall s, card_ok s -> card_ok (run inputs s).
Proof.
  unfold run. induction inputs as [| i inputs IH]; intros s H; simpl.
  - exact H.
  - apply IH. now apply step_card_ok.
Qed.

Lemma initial_card_ok : card_ok {| card := initialCard; polls := 0 |}.
Proof. unfold card_ok. simpl. repeat split; auto; discriminate. Qed.

(** The download URL of a card is only ever set by a poll that read
    "completed". *)
Lemma run_url_needs_completed inputs : forall s,
  downloadUrl (card (run inputs s)) <> None ->
  downloadUrl (card s) <> None \/ sawCompleted inputs = true.
Proof.
  unfold run. induction inputs as [| i inputs IH]; intros s Hurl; simpl in *.
  - now left.
  - destruct (IH _ Hurl) as [Hstep | Hsaw]; [| right; rewrite Hsaw; apply Bool.orb_true_r].
    destruct i as [o | o]; simpl in Hstep.
    + unfold handleExport in Hstep.
      destruct (exporting (card s)); simpl in Hstep; [now left |].
      destruct o; simpl in Hstep; congruence.
    + destruct (polls s); [now left |].
      destruct o as [| | reply]; simpl in Hstep; try (now left).
      destruct (String.eqb (status reply) "completed") eqn:E; simpl in *;
        [now right |].
      destruct (String.eqb (status reply) "failed"); simpl in Hstep; now left.
Qed.

End CardFacts.

(** X9. In every state of the clip card exactly one of the progress panel,
    the "Download Ready" button and the "Export" button is painted. *)
Theorem card_paints_one_panel (c : ClipCard.CardState) :
  (Nat.b2n (CardSession.showsProgress c)
   + Nat.b2n (CardSession.showsDownloadReady c)
   + Nat.b2n (CardSession.showsExportButton c) = 1)%nat.
Proof.
  unfold CardSession.showsProgress, CardSession.showsDownloadReady,
    CardSession.showsExportButton.
  destruct (ClipCard.exporting c), (CardSession.hasUrl c); reflexivity.
Qed.

(** X10. Whatever the user clicks and however the requests end, a clip
    card started from its initial state never has more than one polling
    loop, polls only while it is exporting, holds no download URL while it
    is exporting, and offers "Download Ready" only after a poll has read
    the status "completed". *)
Theorem card_session_invariant (inputs : list CardSession.Input) :
  let s := CardSession.run inputs
             {| CardSession.card := CardSession.initialCard;
                CardSession.polls := 0 |} in
  (CardSession.polls s <= 1)%nat
  /\ (CardSession.polls s = 1%nat ->
      ClipCard.exporting (CardSession.card s) = true)
  /\ (ClipCard.exporting (CardSession.card s) = true ->
      ClipCard.downloadUrl (CardSession.card s) = None)
  /\ (CardSession.showsDownloadReady (CardSession.card s) = true ->
      CardSession.sawCompleted inputs = true).
Proof.
  cbn zeta.
  destruct (run_card_ok inputs _ initial_card_ok) as (Hp & He & Hu).
  repeat split; try assumption.
  intros Hshown.
  destruct (run_url_needs_completed inputs
              {| CardSession.card := CardSession.initialCard;
                 CardSession.polls := 0 |}) as [H | H].
  - unfold CardSession.showsDownloadReady, CardSession.hasUrl in Hshown.
    destruct (ClipCard.downloadUrl _); [discriminate | discriminate].
  - simpl in H. congruence.
  - exact H.
Qed.

(** ** Exporting through the API *)

Section ApiExportFacts.
Import ClipsManager ApiExport.

Lemma final_cons u us s : final (u :: us) s = final us (apply u s).
Proof. reflexivity. Qed.

(** Updates written to other clips leave the entries of a clip alone. *)
Lemma final_untouched clipId us : forall s,
  Forall (fun u => target u <> clipId) us ->
  exportStatus (final us s) !! clipId = exportStatus s !! clipId
  /\ exportProgress (final us s) !! clipId = exportProgress s !! clipId.
Proof.
  induction us as [| u us IH]; intros s Hall; [split; reflexivity |].
  inversion Hall as [| ? ? Hu Hus]; subst.
  rewrite final_cons. destruct (IH (apply u s) Hus) as [-> ->].
  destruct u as [c v | c v]; simpl in *;
    rewrite ?lookup_insert_ne by assumption; split; reflexivity.
Qed.

Lemma pollLoop_targets clipId fetches :
  Forall (fun u => target u = clipId) (fst (pollLoop clipId fetches)).
Proof.
  induction fetches as [| f fetches IH]; simpl; [constructor |].
  destruct f as [reason | | d]; simpl; try constructor.
  destruct (String.eqb (status d) "completed"); simpl;
    [repeat constructor |].
  destruct (String.eqb (status d) "failed"); simpl; [repeat constructor |].
  destruct (pollLoop clipId fetches) as [updates o]. simpl in *.
  constructor; [reflexivity | assumption].
Qed.

Lemma exportClip_targets clipId post fetches :
  Forall (fun u => target u = clipId) (fst (ApiExport.exportClip clipId post fetches)).
Proof.
  unfold ApiExport.exportClip. destruct post as [reason | text | exportId]; simpl;
    try (repeat constructor).
  pose proof (pollLoop_targets clipId fetches) as H.
  destruct (pollLoop clipId fetches) as [updates o]. simpl in *.
  constructor; [reflexivity |]. constructor; [reflexivity | assumption].
Qed.

Lemma exportLoop_targets selectedClips : forall network,
  Forall (fun u => In (target u) selectedClips)
    (fst (exportLoop selectedClips network)).
Proof.
  induction selectedClips as [| c rest IH]; intros network; simpl; [constructor |].
  destruct network as [| [post fetches] later]; simpl.
  - repeat constructor.
  - pose proof (exportClip_targets c post fetches) as Hc.
    destruct (ApiExport.exportClip c post fetches) as [updates o]. simpl in Hc.
    assert (Hc' : Forall (fun u => In (target u) (c :: rest)) updates).
    { eapply List.Forall_impl; [| exact Hc]. intros u <-. now left. }
    destruct o; simpl; try assumption.
    specialize (IH later).
    destruct (exportLoop rest later) as [more o']. simpl in *.
    apply Forall_app. split; [assumption |].
    eapply List.Forall_impl; [| exact IH]. intros u Hu. now right.
Qed.

Lemma pollLoop_exported clipId fetches : forall s,
  snd (pollLoop clipId fetches) = Exported ->
  exportStatus (final (fst (pollLoop clipId fetches)) s) !! clipId
    = Some "completed"%string
  /\ exportProgress (final (fst (pollLoop clipId fetches)) s) !! clipId
     = Some 100%nat.
Proof.
  induction fetches as [| f fetches IH]; intros s; simpl; [discriminate |].
  destruct f as [reason | | d]; simpl; try discriminate.
  destruct (String.eqb (status d) "completed"); simpl.
  { intros _. split; apply lookup_insert_eq. }
  destruct (String.eqb (status d) "failed"); simpl; [discriminate |].
  destruct (pollLoop clipId fetches) as [updates o]. cbn [fst snd] in *.
  intros Ho. rewrite final_cons. now apply IH.
Qed.

Lemma exportClip_exported clipId post fetches s :
  snd (ApiExport.exportClip clipId post fetches) = Exported ->
  exportStatus (final (fst (ApiExport.exportClip clipId post fetches)) s) !! clipId
    = Some "completed"%string
  /\ exportProgress (final (fst (ApiExport.exportClip clipId post fetches)) s)
       !! clipId = Some 100%nat.
Proof.
  unfold ApiExport.exportClip.
  destruct post as [reason | text | exportId]; simpl; try discriminate.
  pose proof (pollLoop_exported clipId fetches) as H.
  destruct (pollLoop clipId fetches) as [updates o]. cbn [fst snd] in *.
  intros Ho. cbn [app]. rewrite !final_cons. now apply H.
Qed.

Lemma exportLoop_exported selectedClips : forall network s clipId,
  snd (exportLoop selectedClips network) = Exported ->
  In clipId selectedClips ->
  exportStatus (final (fst (exportLoop selectedClips network)) s) !! clipId
    = Some "completed"%string
  /\ exportProgress (final (fst (exportLoop selectedClips network)) s) !! clipId
     = Some 100%nat.
Proof.
  induction selectedClips as [| c rest IH]; intros network s clipId Ho Hin;
    [destruct Hin |].
  simpl in *.
  destruct network as [| [post fetches] later]; [discriminate |].
  pose proof (exportClip_exported c post fetches s) as Hown.
  destruct (ApiExport.exportClip c post fetches) as [updates o].
  destruct o; try discriminate. simpl in Hown. specialize (Hown eq_refl).
  pose proof (exportLoop_targets rest later) as Htargets.
  specialize (IH later (final updates s) clipId).
  destruct (exportLoop rest later) as [more o']. simpl in *.
  rewrite final_app.
  destruct (in_dec String.string_dec clipId rest) as [Hrest | Hnot].
  - now apply IH.
  - destruct Hin as [-> | Hin]; [| contradiction].
    destruct (final_untouched clipId more (final updates s)) as [-> ->];
      [| exact Hown].
    eapply List.Forall_impl; [| exact Htargets].
    intros u Hu E. apply Hnot. now rewrite <- E.
Qed.

(** The [catch] block: every selected clip is marked failed, no progress
    value and no other clip is touched. *)
Lemma mark_failed selectedClips : forall s,
  (forall clipId, In clipId selectedClips ->
     exportStatus
       (final (List.map (fun c => SetStatus c "failed") selectedClips) s)
       !! clipId = Some "failed"%string)
  /\ (forall clipId, ~ In clipId selectedClips ->
        exportStatus
          (final (List.map (fun c => SetStatus c "failed") selectedClips) s)
          !! clipId = exportStatus s !! clipId)
  /\ exportProgress
       (final (List.map (fun c => SetStatus c "failed") selectedClips) s)
     = exportProgress s.
Proof.
  induction selectedClips as [| c rest IH]; intros s.
  - split; [intros ? [] |]. split; reflexivity.
  - cbn [List.map]. rewrite final_cons.
    destruct (IH (apply (SetStatus c "failed") s)) as (Hin & Hout & Hp).
    split; [| split].
    + intros clipId Hc.
      destruct (in_dec String.string_dec clipId rest) as [Hrest | Hnot];
        [now apply Hin |].
      destruct Hc as [-> | Hc]; [| contradiction].
      rewrite Hout by assumption. simpl. apply lookup_insert_eq.
    + intros clipId Hc. simpl in Hc.
      rewrite Hout by tauto. simpl. rewrite lookup_insert_ne by tauto.
      reflexivity.
    + rewrite Hp. reflexivity.
Qed.

(** What the [catch] block leaves when an error reached it. *)
Lemma handleExportSelected_threw selectedClips network s reason :
  snd (ApiExport.handleExportSelected selectedClips network) = Threw reason ->
  (forall clipId, In clipId selectedClips ->
     exportStatus
       (final (fst (ApiExport.handleExportSelected selectedClips network)) s)
       !! clipId = Some "failed"%string)
  /\ exportProgress
       (final (fst (ApiExport.handleExportSelected selectedClips network)) s)
     = exportProgress (final (fst (exportLoop selectedClips network)) s)
  /\ (forall clipId, ~ In clipId selectedClips ->
        exportStatus
          (final (fst (ApiExport.handleExportSelected selectedClips network)) s)
          !! clipId = exportStatus s !! clipId).
Proof.
  unfold ApiExport.handleExportSelected.
  destruct selectedClips as [| c rest]; [discriminate |].
  set (sel := c :: rest).
  pose proof (exportLoop_targets sel network) as Htargets.
  destruct (exportLoop sel network) as [updates o].
  destruct o; simpl; try discriminate. intros _.
  rewrite !final_app.
  destruct (mark_failed sel (final updates s)) as (Hin & Hout & Hp).
  split; [exact Hin |]. split; [exact Hp |].
  intros clipId Hnot. rewrite Hout by assumption.
  apply final_untouched.
  eapply List.Forall_impl; [| exact Htargets].
  intros u Hu E. apply Hnot. now rewrite <- E.
Qed.

(** What a run that reached its end leaves. *)
Lemma handleExportSelected_exported selectedClips network s clipId :
  snd (ApiExport.handleExportSelected selectedClips network) = Exported ->
  In clipId selectedClips ->
  exportStatus
    (final (fst (ApiExport.handleExportSelected selectedClips network)) s)
    !! clipId = Some "completed"%string
  /\ exportProgress
       (final (fst (ApiExport.handleExportSelected selectedClips network)) s)
       !! clipId = Some 100%nat.
Proof.
  unfold ApiExport.handleExportSelected.
  destruct selectedClips as [| c rest]; [discriminate |].
  set (sel := c :: rest).
  pose proof (exportLoop_exported sel network s clipId) as H.
  destruct (exportLoop sel network) as [updates o].
  destruct o; simpl in *; try discriminate.
  intros _ Hin. now apply H.
Qed.




End ApiExportFacts.

(** X11. When anything goes wrong during an export through the API (a
    request is rejected or not ok, or a status reads "failed"), every clip
    of the selection ends up marked "failed": the clip that failed, the
    clips that were never started, and the clips that had already been
    exported, whose progress stays as the loop left it. Clips outside the
    selection keep their status. *)
Theorem api_export_failure_marks_all
    (selectedClips : list string)
    (network : list (ApiExport.Post * list ApiExport.StatusFetch))
    (s : ClipsManager.ExportState) (reason : string) :
  snd (ApiExport.handleExportSelected selectedClips network)
    = ApiExport.Threw reason ->
  (forall clipId, In clipId selectedClips ->
     ClipsManager.exportStatus
       (ClipsManager.final
          (fst (ApiExport.handleExportSelected selectedClips network)) s)
       !! clipId = Some "failed"%string)
  /\ ClipsManager.exportProgress
       (ClipsManager.final
          (fst (ApiExport.handleExportSelected selectedClips network)) s)
     = ClipsManager.exportProgress
         (ClipsManager.final (fst (ApiExport.exportLoop selectedClips network)) s)
  /\ (forall clipId, ~ In clipId selectedClips ->
        ClipsManager.exportStatus
          (ClipsManager.final
             (fst (ApiExport.handleExportSelected selectedClips network)) s)
          !! clipId = ClipsManager.exportStatus s !! clipId).
Proof.
  apply handleExportSelected_threw.
Qed.

(** X12. When an export through the API runs to its end, every selected
    clip is marked "completed" at 100 percent, whatever progress values
    the server reported on the way. *)
Theorem api_export_success_completes_all
    (selectedClips : list string)
    (network : list (ApiExport.Post * list ApiExport.StatusFetch))
    (s : ClipsManager.ExportState) (clipId : string) :
  snd (ApiExport.handleExportSelected selectedClips network) = ApiExport.Exported ->
  In clipId selectedClips ->
  ClipsManager.exportStatus
    (ClipsManager.final
       (fst (ApiExport.handleExportSelected selectedClips network)) s)
    !! clipId = Some "completed"%string
  /\ ClipsManager.exportProgress
       (ClipsManager.final
          (fst (ApiExport.handleExportSelected selectedClips network)) s)
       !! clipId = Some 100%nat.
Proof.
  apply handleExportSelected_exported.
Qed.

(** ** Batch export: the rollup and what the clips manager does *)




(** ** The live transcription never loses what it has received *)

Section TranscriptionFacts.
Import LiveTranscription.

(** [x || old] is truthy whenever [old] is. *)
Lemma orElse_keeps_truthy x old : truthy old = true -> truthy (orElse x old) = true.
Proof.
  intros H. unfold orElse. destruct x as [v |]; [| exact H].
  destruct (truthy v) eqn:E; assumption.
Qed.

Lemma handle_keeps e v :
  (truthy (transcript v) = true -> truthy (transcript (handle e v)) = true)
  /\ (truthy (wordCount v) = true -> truthy (wordCount (handle e v)) = true)
  /\ (truthy (summary v) = true -> truthy (summary (handle e v)) = true).
Proof.
  destruct e as [| [data |] | [data |] |]; cbn [handle]; try tauto.
  - destruct data; cbn [transcript wordCount summary]; try tauto;
      (split; [| split]; [apply orElse_keeps_truthy | apply orElse_keeps_truthy | tauto]).
  - destruct data; cbn [transcript wordCount summary]; try tauto;
      (split; [| split]; [apply orElse_keeps_truthy | tauto | apply orElse_keeps_truthy]).
Qed.

End TranscriptionFacts.

Example transcription_payloads :
  (* a negative count is truthy and replaces the count *)
  LiveTranscription.wordCount
    (LiveTranscription.handle
       (LiveTranscription.ProgressEvent
          (Some (LiveTranscription.JObject
             [("word_count"%string, LiveTranscription.JNumber (-5))])))
       Samples.received)
  = LiveTranscription.JNumber (-5)
  (* a new transcript runs the effect again, which disconnects *)
  /\ LiveTranscription.isConnected
       (LiveTranscription.receive (firstn 1 Samples.stream)
          LiveTranscription.initialView) = true
  /\ LiveTranscription.isConnected Samples.received = false
  (* the payload null: nothing on "progress", stage and progress on "complete" *)
  /\ LiveTranscription.handle
       (LiveTranscription.ProgressEvent (Some LiveTranscription.JNull))
       Samples.received = Samples.received
  /\ LiveTranscription.getStageLabel
       (LiveTranscription.handle
          (LiveTranscription.CompleteEvent (Some LiveTranscription.JNull))
          Samples.received) = "Processing complete!"%string
  /\ LiveTranscription.transcript
       (LiveTranscription.receive Samples.stream LiveTranscription.initialView)
     = LiveTranscription.JString "hello world".
Proof. vm_compute. repeat split. Qed.

(** X13. The handlers of the stream, on events in any order and with any
    payload (of any JSON type, [null], or text that does not parse), never
    erase what the live transcription has received: a transcript, a word
    count and a summary that hold a truthy value (a non-empty string, a
    number other than zero, an object) are only ever replaced by truthy
    values. *)
Theorem transcription_never_erased
    (events : list LiveTranscription.StreamEvent) (v : LiveTranscription.View) :
  (LiveTranscription.truthy (LiveTranscription.transcript v) = true ->
   LiveTranscription.truthy
     (LiveTranscription.transcript (LiveTranscription.receive events v)) = true)
  /\ (LiveTranscription.truthy (LiveTranscription.wordCount v) = true ->
      LiveTranscription.truthy
        (LiveTranscription.wordCount (LiveTranscription.receive events v)) = true)
  /\ (LiveTranscription.truthy (LiveTranscription.summary v) = true ->
      LiveTranscription.truthy
        (LiveTranscription.summary (LiveTranscription.receive events v)) = true).
Proof.
  unfold LiveTranscription.receive. revert v.
  induction events as [| e events IH]; intros v; simpl; [tauto |].
  destruct (handle_keeps e v) as (Ht & Hw & Hs).
  destruct (IH (LiveTranscription.handle e v)) as (It & Iw & Is).
  repeat split; auto.
Qed.

(** ** Sizes on the storage page *)

Section StorageFacts.
Import Storage.

Lemma string_append_cons (x : ascii) (a b : string) :
  String.append (String x a) b = String x (String.append a b).
Proof. reflexivity. Qed.

Lemma string_append_assoc (a b c : string) :
  String.append (String.append a b) c = String.append a (String.append b c).
Proof.
  induction a as [| x a IH]; [reflexivity |].
  rewrite !string_append_cons. f_equal. exact IH.
Qed.

Lemma string_append_length (a b : string) :
  String.length (String.append a b) = (String.length a + String.length b)%nat.
Proof.
  induction a as [| x a IH]; [reflexivity |].
  rewrite string_append_cons. simpl. f_equal. exact IH.
Qed.

Lemma repeat_zero_length (n : nat) :
  String.length (Js.repeat_string n "0") = n.
Proof.
  induction n as [| n IH]; [reflexivity |].
  change (Js.repeat_string (S n) "0")
    with (String "0" (Js.repeat_string n "0")).
  simpl. f_equal. exact IH.
Qed.

Lemma substring_length (s : string) : forall i j,
  (i + j <= String.length s)%nat -> String.length (substring i j s) = j.
Proof.
  induction s as [| c s IH]; intros i j H; simpl in *.
  - assert (i = 0 /\ j = 0)%nat as [-> ->] by lia. reflexivity.
  - destruct i as [| i].
    + destruct j as [| j]; [reflexivity |]. simpl. rewrite IH by lia. reflexivity.
    + apply IH. lia.
Qed.

Lemma substring_whole (s : string) : substring 0 (String.length s) s = s.
Proof. induction s as [| c s IH]; simpl; [reflexivity | now rewrite IH]. Qed.

Lemma substring_none (s : string) : substring 0 0 s = EmptyString.
Proof. destruct s; reflexivity. Qed.

Lemma substring_split (s : string) : forall i j,
  (i + j = String.length s)%nat ->
  String.append (substring 0 i s) (substring i j s) = s.
Proof.
  induction s as [| c s IH]; intros i j H.
  - simpl in H. assert (i = 0 /\ j = 0)%nat as [-> ->] by lia. reflexivity.
  - destruct i as [| i].
    + simpl in H. subst j. rewrite substring_none.
      exact (substring_whole (String c s)).
    + change (substring 0 (S i) (String c s)) with (String c (substring 0 i s)).
      change (substring (S i) j (String c s)) with (substring i j s).
      rewrite string_append_cons. f_equal. apply IH. simpl in H. lia.
Qed.

(** The shape of [toFixed 2] on a non-negative number below 10^21: the
    digits of the nearest integer to [100 x], padded to three characters
    at least, with the point before the last two. *)
Lemma toFixed_2_shape (x : Q) :
  (0 <= x)%Q -> (x < inject_Z (10 ^ 21))%Q ->
  let n := Qfloor (x * 100 + (1 # 2)) in
  let padded :=
    if (String.length (Js.digits n) <=? 2)%nat
    then String.append
           (Js.repeat_string (3 - String.length (Js.digits n)) "0")
           (Js.digits n)
    else Js.digits n in
  exists a b,
    toFixed 2 x = String.append a (String.append "." b)
    /\ String.length b = 2%nat
    /\ (1 <= String.length a)%nat
    /\ String.append a b = padded.
Proof.
  intros Hx Hlt n padded. unfold toFixed.
  apply Qle_bool_iff in Hx. rewrite Hx. cbn [negb].
  assert (Hbig : Qle_bool (inject_Z (10 ^ 21)) x = false).
  { destruct (Qle_bool (inject_Z (10 ^ 21)) x) eqn:E; [| reflexivity].
    apply Qle_bool_iff in E. lra. }
  rewrite Hbig.
  change (inject_Z (10 ^ Z.of_nat 2)) with 100%Q. fold n.
  cbn [String.append]. fold padded.
  change (2 + 1 - String.length (Js.digits n))%nat
    with (3 - String.length (Js.digits n))%nat.
  fold padded.
  assert (Hlen : (3 <= String.length padded)%nat).
  { unfold padded. destruct (Nat.leb_spec (String.length (Js.digits n)) 2).
    - rewrite string_append_length, repeat_zero_length. lia.
    - lia. }
  exists (substring 0 (String.length padded - 2) padded),
         (substring (String.length padded - 2) 2 padded).
  split; [reflexivity |].
  split; [apply substring_length; lia |].
  split; [rewrite substring_length by lia; lia |].
  apply substring_split. lia.
Qed.

(** From 1024 on, dividing a double by 1024 is exact: the quotient has the
    same significand, ten binades lower. *)
Lemma div_1024_exact (mb : Q) :
  Js.is_double mb -> (1024 <= mb)%Q -> (Js.div mb 1024 == mb / 1024)%Q.
Proof.
  intros Hd Hmb. unfold Js.div, Js.is_double in *.
  assert (Hp : (0 < mb)%Q) by lra.
  assert (Hx : (0 < mb / 1024)%Q) by (apply Qlt_shift_div_l; lra).
  rewrite round_pos in Hd by assumption. rewrite round_pos by assumption.
  destruct (binade_spec mb Hp) as [Blo Bhi].
  assert (B10 : 10 <= Js.binade mb).
  { apply binade_ge; [exact Hp |]. exact Hmb. }
  assert (Bx : Js.binade (mb / 1024) = Js.binade mb - 10).
  { assert (E10 : forall e, (Js.pow2 (e - 10) == Js.pow2 e / 1024)%Q).
    { intros e. rewrite pow2_sub. reflexivity. }
    assert (Js.binade mb - 10 <= Js.binade (mb / 1024)).
    { apply binade_ge; [exact Hx |]. rewrite E10.
      apply Qle_shift_div_l; [reflexivity |].
      assert (T2 : (Js.pow2 (Js.binade mb) / 1024 * 1024
                    == Js.pow2 (Js.binade mb))%Q) by field.
      rewrite T2. exact Blo. }
    assert (Js.binade (mb / 1024) < Js.binade mb - 10 + 1); [| lia].
    apply binade_lt; [exact Hx |].
    replace (Js.binade mb - 10 + 1) with (Js.binade mb + 1 - 10) by lia.
    rewrite E10.
    apply Qlt_shift_div_l; [reflexivity |].
    assert (T : (mb / 1024 * 1024 == mb)%Q) by field.
    rewrite T. exact Bhi. }
  assert (U : (Js.ulp (mb / 1024) == Js.ulp mb / 1024)%Q).
  { unfold Js.ulp. rewrite Bx, !Z.max_l by lia.
    replace (Js.binade mb - 10 - 52) with (Js.binade mb - 52 - 10) by lia.
    rewrite pow2_sub. reflexivity. }
  pose proof (ulp_pos mb) as Hu.
  assert (M : (mb / 1024 / Js.ulp (mb / 1024) == mb / Js.ulp mb)%Q).
  { rewrite U. field. lra. }
  assert (N : Js.nearest_even (mb / 1024 / Js.ulp (mb / 1024))
              = Js.nearest_even (mb / Js.ulp mb)).
  { now apply nearest_even_comp. }
  rewrite N, U.
  revert Hd. generalize (inject_Z (Js.nearest_even (mb / Js.ulp mb))).
  revert Hu. generalize (Js.ulp mb). intros u Hu r Hd.
  rewrite <- Hd. field.
Qed.

End StorageFacts.

Example formatSize_examples :
  Storage.formatSize 1536 = "1.50 GB"%string
  /\ Storage.formatSize (1 # 2) = "0.50 MB"%string
  /\ Storage.formatSize 0 = "0.00 MB"%string
  /\ Storage.formatSize (1048575 # 1024) = "1024.00 MB"%string
  /\ Storage.formatSize (2469 # 2) = "1.21 GB"%string
  /\ Storage.toFixed 2 (- (1 # 1024)) = "-0.00"%string
  /\ Storage.toFixed 2 (1 # 8) = "0.13"%string
  /\ Storage.formatSize (inject_Z (1024 * 10 ^ 21)) = "1e+21 GB"%string.
Proof. vm_compute. repeat split. Qed.

(** X14. A non-negative size below 10^21 MB is shown in GB exactly from
    1024 MB on and in MB below. The number shown is the integer nearest to
    a hundred times the value (the size itself or its rounded quotient by
    1024, which for a double is the exact quotient), the larger one on a
    tie, printed with at least one digit before the point and always
    exactly two after it. *)
Theorem formatSize_two_decimals (mb : Q) :
  (0 <= mb)%Q -> (mb < inject_Z (10 ^ 21))%Q ->
  let gb := Qle_bool 1024 mb in
  let shown := if gb then Js.div mb 1024 else mb in
  let n := Qfloor (shown * 100 + (1 # 2)) in
  (gb = true <-> (1024 <= mb)%Q)
  /\ (Js.is_double mb -> (shown == if gb then mb / 1024 else mb)%Q)
  /\ (inject_Z n - (1 # 2) <= shown * 100)%Q
  /\ (shown * 100 < inject_Z n + (1 # 2))%Q
  /\ exists a b,
       Storage.formatSize mb =
         String.append a
           (String.append "." (String.append b (if gb then " GB" else " MB")))
       /\ String.length b = 2%nat
       /\ (1 <= String.length a)%nat
       /\ String.append a b =
            if (String.length (Js.digits n) <=? 2)%nat
            then String.append
                   (Js.repeat_string (3 - String.length (Js.digits n)) "0")
                   (Js.digits n)
            else Js.digits n.
Proof.
  intros Hmb Hlt gb shown n.
  assert (Hgb : gb = true <-> (1024 <= mb)%Q) by apply Qle_bool_iff.
  assert (Hshown : (0 <= shown)%Q /\ (shown < inject_Z (10 ^ 21))%Q).
  { unfold shown. destruct gb; [| split; assumption].
    assert (H1024 : (1024 <= mb)%Q) by now apply Hgb.
    assert (Hq : (1 <= mb / 1024)%Q) by (apply Qle_shift_div_l; lra).
    split.
    - apply round_nonneg. lra.
    - pose proof (round_le_3half _ Hq) as Hr. unfold Js.div.
      assert (E : (mb == mb / 1024 * 1024)%Q) by field.
      revert Hr E Hq Hlt. change (inject_Z (10 ^ 21)) with (10 ^ 21)%Q.
      generalize (Js.round (mb / 1024)) (mb / 1024)%Q (10 ^ 21)%Q.
      intros r q big Hr E Hq Hlt. lra. }
  destruct Hshown as [Hs0 Hs1].
  split; [exact Hgb |].
  split.
  { intros Hd. unfold shown. destruct gb eqn:E; [| reflexivity].
    apply div_1024_exact; [exact Hd | now apply Hgb]. }
  destruct (Qfloor_bounds (shown * 100 + (1 # 2))) as [Hlo Hhi]. fold n in Hlo, Hhi.
  split; [lra |]. split; [lra |].
  destruct (toFixed_2_shape shown Hs0 Hs1) as (a & b & E & Hb & Ha & Hab).
  exists a, b. fold n in Hab.
  split; [| repeat split; assumption].
  unfold Storage.formatSize. fold gb. unfold shown in E.
  destruct gb; rewrite E, !string_append_assoc; reflexivity.
Qed.

(** ** Subtitles over segments that do not overlap *)

Section DisjointSegmentFacts.
Import VideoSubtitles Segments.

Lemma find_in_disjoint (t : Q) (segments : list WordSegment) :
  disjoint segments ->
  forall seg, In seg segments -> within t seg ->
  List.find (covers t) segments = Some seg.
Proof.
  induction 1 as [| first rest Hrest IH Hfirst]; intros seg Hin Hseg;
    [destruct Hin |].
  simpl. destruct (covers t first) eqn:E.
  - destruct Hin as [-> | Hin]; [reflexivity |].
    exfalso. apply covers_within in E.
    rewrite List.Forall_forall in Hfirst. specialize (Hfirst seg Hin).
    unfold before, within in *.
    destruct E as [_ E2]. destruct Hseg as [S1 _]. lra.
  - destruct Hin as [-> | Hin].
    + apply covers_within in Hseg. congruence.
    + now apply IH.
Qed.

Lemma disjoint_app (front back : list WordSegment) :
  disjoint (front ++ back) ->
  disjoint back
  /\ forall x y, In x front -> In y back -> before x y.
Proof.
  unfold disjoint. induction front as [| f front IH]; simpl; intros H.
  - split; [assumption | intros x y []].
  - inversion H as [| ? ? Hrest Hf]; subst.
    destruct (IH Hrest) as [Hback Hcross].
    split; [assumption |].
    intros x y [<- | Hx] Hy.
    + rewrite List.Forall_forall in Hf. apply Hf. apply in_or_app. now right.
    + now apply Hcross.
Qed.

End DisjointSegmentFacts.

(** X15. When the word segments do not overlap, the subtitle at a time
    inside a segment is the text of that very segment, wherever the
    segment stands in the list, and a time in the gap between two
    neighbouring segments (each starting no later than it ends) shows no
    text. *)
Theorem currentText_disjoint
    (t : Q) (segments : list VideoSubtitles.WordSegment) :
  Segments.disjoint segments ->
  (forall seg, In seg segments -> VideoSubtitles.within t seg ->
     VideoSubtitles.currentText (Some segments) t = VideoSubtitles.text seg)
  /\ (forall a b front back,
        segments = front ++ a :: b :: back ->
        (VideoSubtitles.start_time a <= VideoSubtitles.end_time a)%Q ->
        (VideoSubtitles.start_time b <= VideoSubtitles.end_time b)%Q ->
        (VideoSubtitles.end_time a < t)%Q ->
        (t < VideoSubtitles.start_time b)%Q ->
        VideoSubtitles.currentText (Some segments) t = EmptyString).
Proof.
  intros Hdis. split.
  - intros seg Hin Hseg.
    rewrite currentText_find, (find_in_disjoint t segments Hdis seg Hin Hseg).
    reflexivity.
  - intros a b front back -> Hwf Hwf' Ha Hb.
    rewrite currentText_find, find_nothing; [reflexivity |].
    destruct (disjoint_app front (a :: b :: back) Hdis) as [Htail Hcross].
    unfold Segments.disjoint in Htail.
    inversion Htail as [| ? ? Htail' Ha_after]; subst.
    inversion Htail' as [| ? ? _ Hb_after]; subst.
    rewrite List.Forall_forall in Ha_after, Hb_after.
    apply List.Forall_forall. intros seg Hin [S1 S2].
    apply in_app_or in Hin.
    destruct Hin as [Hin | [<- | [<- | Hin]]].
    + specialize (Hcross seg a Hin ltac:(now left)).
      unfold Segments.before in Hcross. lra.
    + lra.
    + lra.
    + specialize (Hb_after seg Hin). unfold Segments.before in Hb_after. lra.
Qed.

(** ** Time formatting on whole seconds and whole minutes *)

Lemma Qfloor_add_Z (s : Q) (z : Z) : Qfloor (s + inject_Z z) = Qfloor s + z.
Proof.
  destruct (Qfloor_bounds s) as [Hlo Hhi].
  apply Qfloor_unique.
  - rewrite inject_Z_plus. lra.
  - rewrite !inject_Z_plus. change (inject_Z 1) with 1%Q. lra.
Qed.

(** X16. Below 2^53 seconds [formatTime] drops the fraction of a second
    and never rounds up: a non-negative time is shown like its whole
    number of seconds. Adding whole minutes (the sum being a double below
    2^53 again) only raises the minutes field, which is never folded into
    hours; the seconds field is unchanged. *)
Theorem formatTime_whole_units (s : Q) :
  (0 <= s)%Q -> Js.is_double s -> (s < inject_Z (2 ^ 53))%Q ->
  FormatTime.formatTime s = FormatTime.formatTime (inject_Z (Qfloor s))
  /\ forall k : Z, 0 <= k ->
       Js.is_double (s + inject_Z (60 * k)) ->
       (s + inject_Z (60 * k) < inject_Z (2 ^ 53))%Q ->
       FormatTime.formatTime (s + inject_Z (60 * k)) =
         String.append (Js.digits (Qfloor s / 60 + k))
           (String.append ":" (FormatTime.two_digits (Qfloor s mod 60))).
Proof.
  intros Hs Hd Hlt.
  assert (Hfl : 0 <= Qfloor s).
  { change 0 with (Qfloor 0). now apply Qfloor_resp_le. }
  assert (Hfu : Qfloor s < 2 ^ 53).
  { rewrite Zlt_Qlt. eapply Qle_lt_trans; [apply Qfloor_le | exact Hlt]. }
  split.
  - rewrite (formatTime_form s Hs Hd Hlt).
    rewrite formatTime_form, Qfloor_Z; [reflexivity | | |].
    + change 0%Q with (inject_Z 0). rewrite <- Zle_Qle. exact Hfl.
    + apply is_double_Z. lia.
    + rewrite <- Zlt_Qlt. exact Hfu.
  - intros k Hk Hdk Hltk.
    rewrite formatTime_form, Qfloor_add_Z; try assumption.
    + replace (Qfloor s + 60 * k) with (Qfloor s + k * 60) by lia.
      rewrite Z.div_add, Z.mod_add by lia. reflexivity.
    + assert (0 <= inject_Z (60 * k))%Q.
      { change 0%Q with (inject_Z 0). rewrite <- Zle_Qle. lia. }
      lra.
Qed.

(** ** One export at a time through the API *)

Section ApiSequentialFacts.
Import ClipsManager ApiExport.














End ApiSequentialFacts.

(** Two calls that overlap: both clips are in processing together. *)
Example two_calls_overlap :
  ApiExport.Interleaving [Samples.first_call; Samples.second_call]
    (Samples.first_call ++ Samples.second_call)
  /\ ClipsManager.isProcessing
       (ClipsManager.final (Samples.first_call ++ Samples.second_call)
          ClipsManager.initialState) "c1"
  /\ ClipsManager.isProcessing
       (ClipsManager.final (Samples.first_call ++ Samples.second_call)
          ClipsManager.initialState) "c2".
Proof.
  split; [| split; reflexivity].
  pose proof (ApiExport.interleaving_start 2) as H0.
  pose proof (ApiExport.interleaving_step _ _ 0 _
                (ClipsManager.SetStatus "c1" "processing") H0 eq_refl) as H1.
  pose proof (ApiExport.interleaving_step _ _ 0 _
                (ClipsManager.SetProgress "c1" 0) H1 eq_refl) as H2.
  pose proof (ApiExport.interleaving_step _ _ 1 _
                (ClipsManager.SetStatus "c2" "processing") H2 eq_refl) as H3.
  pose proof (ApiExport.interleaving_step _ _ 1 _
                (ClipsManager.SetProgress "c2" 0) H3 eq_refl) as H4.
  exact H4.
Qed.


(** ** Where the polling of an upload job ends *)

Section JobPollingFacts.
Import VideoUpload JobPolling.

Lemma poll_stopped_terminal fileId o (current : list UploadedFile) :
  snd (poll fileId o current) = false ->
  forall f, In f (entries fileId (fst (poll fileId o current))) ->
    status f = completed \/ status f = error.
Proof.
  destruct o as [| data]; simpl; [discriminate |].
  assert (Hmap : forall f,
             In f (entries fileId (List.map (recordStatus fileId data) current)) ->
             status f = (if String.eqb (job_status data) "completed" then completed
                         else if String.eqb (job_status data) "failed" then error
                         else processing)).
  { intros f Hin. unfold entries in Hin. apply filter_In in Hin as [Hin Hid].
    apply in_map_iff in Hin as (f0 & <- & _).
    unfold recordStatus in *.
    destruct (String.eqb (id f0) fileId) eqn:E; [reflexivity |].
    congruence. }
  destruct (String.eqb (job_status data) "completed") eqn:E1; simpl.
  - intros _ f Hin. left. now apply Hmap.
  - destruct (String.eqb (job_status data) "failed") eqn:E2; simpl.
    + intros _ f Hin. right. now apply Hmap.
    + discriminate.
Qed.

End JobPollingFacts.

(** X18. The polling of an upload job never ends while the file is still
    shown as uploading or processing: when no further poll is scheduled,
    every entry of the file is "completed" or "error". Rejected requests
    and any other status keep the polling alive. *)
Theorem pollJobStatus_ends_terminal
    (fileId : string) (outcomes : list VideoUpload.PollOutcome)
    (current : list VideoUpload.UploadedFile) :
  snd (JobPolling.pollChain fileId outcomes current) = false ->
  forall f,
    In f (VideoUpload.entries fileId
            (fst (JobPolling.pollChain fileId outcomes current))) ->
    VideoUpload.status f = VideoUpload.completed
    \/ VideoUpload.status f = VideoUpload.error.
Proof.
  revert current. induction outcomes as [| o outcomes IH]; intros current;
    simpl; [discriminate |].
  pose proof (poll_stopped_terminal fileId o current) as Hstop.
  destruct (VideoUpload.poll fileId o current) as [updated again].
  destruct again; simpl in *.
  - apply IH.
  - intros _. now apply Hstop.
Qed.

(** ** The further properties at sample data *)

Example clicks_session :
  ClipSelection.session Samples.grid Samples.clicks = ["c1"; "c3"; "c2"]%string.
Proof. reflexivity. Qed.

Lemma handleToggleClip_flips_witness :
  (In "c3"%string (ClipSelection.handleToggleClip "c2" ["c1"; "c2"; "c3"]%string)
   <-> In "c3"%string ["c1"; "c2"; "c3"]%string)
  /\ List.length (ClipSelection.handleToggleClip "c2" ["c1"; "c2"; "c3"]%string)
     = 2%nat.
Proof.
  split.
  - apply (proj1 (proj2 (handleToggleClip_flips "c2" ["c1"; "c2"; "c3"]%string))).
    discriminate.
  - apply (proj2 (proj2 (handleToggleClip_flips "c2" ["c1"; "c2"; "c3"]%string))).
    repeat constructor; simpl; intuition discriminate.
Defined.

Lemma selection_session_invariant_witness :
  List.NoDup (ClipSelection.session Samples.grid Samples.clicks).
Proof.
  apply (proj2 (selection_session_invariant Samples.grid Samples.clicks)).
  repeat constructor; simpl; intuition discriminate.
Defined.


Lemma handleExportSelected_final_state_witness :
  (ClipsManager.exportStatus
     (ClipsManager.final (ClipsManager.handleExportSelected ["c1"; "c2"]%string)
        ClipsManager.initialState) !! "c2"%string = Some "completed"%string
   /\ ClipsManager.exportProgress
        (ClipsManager.final (ClipsManager.handleExportSelected ["c1"; "c2"]%string)
           ClipsManager.initialState) !! "c2"%string = Some 100%nat)
  /\ (ClipsManager.exportStatus
        (ClipsManager.final (ClipsManager.handleExportSelected ["c1"; "c2"]%string)
           ClipsManager.initialState) !! "c3"%string
      = ClipsManager.exportStatus ClipsManager.initialState !! "c3"%string
      /\ ClipsManager.exportProgress
           (ClipsManager.final (ClipsManager.handleExportSelected ["c1"; "c2"]%string)
              ClipsManager.initialState) !! "c3"%string
         = ClipsManager.exportProgress ClipsManager.initialState !! "c3"%string).
Proof.
  split.
  - apply (proj1 (handleExportSelected_final_state ["c1"; "c2"]%string
                    ClipsManager.initialState "c2"%string)).
    simpl. tauto.
  - apply (proj1 (proj2 (handleExportSelected_final_state ["c1"; "c2"]%string
                           ClipsManager.initialState "c3"%string))).
    simpl. intuition discriminate.
Defined.

Lemma removeFile_then_updates_witness :
  VideoUpload.entries "f2" (UploadList.removeFile "f1" Samples.two_files)
  = VideoUpload.entries "f2" Samples.two_files.
Proof.
  apply (proj1 (proj2 (removeFile_then_updates "f1" Samples.two_files))).
  discriminate.
Defined.

Lemma upload_updates_isolated_witness :
  VideoUpload.files
    (VideoUpload.step "f1" VideoUpload.IntervalFires Samples.uploading_two)
    !! 1%nat = Some (VideoUpload.newFile "demo.mov" "f2")
  /\ fst (VideoUpload.poll "f1" Samples.still_processing
            (VideoUpload.files Samples.uploading_two))
       !! 1%nat = Some (VideoUpload.newFile "demo.mov" "f2").
Proof.
  apply (proj2 (proj2 (upload_updates_isolated "f1" VideoUpload.IntervalFires
                         Samples.uploading_two Samples.still_processing))).
  - reflexivity.
  - discriminate.
Defined.

Lemma handleYoutubeSubmit_entry_witness :
  exists entry,
    fst (UploadList.handleYoutubeSubmit "https://youtu.be/x" "y1"
           (UploadList.SubmitOk "job9") Samples.two_files)
      = Samples.two_files ++ [entry]
    /\ VideoUpload.name entry = "https://youtu.be/x"%string
    /\ VideoUpload.id entry = "y1"%string
    /\ (VideoUpload.status entry = VideoUpload.processing
        /\ VideoUpload.progress entry = 5%nat
        /\ VideoUpload.jobId entry = Some "job9"%string
        /\ snd (UploadList.handleYoutubeSubmit "https://youtu.be/x" "y1"
                  (UploadList.SubmitOk "job9") Samples.two_files)
           = Some ("y1"%string, "job9"%string)).
Proof.
  apply (proj2 (handleYoutubeSubmit_entry "https://youtu.be/x" "y1"
                  (UploadList.SubmitOk "job9") Samples.two_files)).
  - discriminate.
  - reflexivity.
Defined.


Example export_and_finish_state :
  CardSession.run Samples.export_and_finish
    {| CardSession.card := CardSession.initialCard; CardSession.polls := 0 |}
  = {| CardSession.card :=
         {| ClipCard.exporting := false; ClipCard.exportProgress := 100;
            ClipCard.exportMessage := "done";
            ClipCard.downloadUrl := Some "/dl/7"%string |};
       CardSession.polls := 0 |}.
Proof. reflexivity. Qed.

Lemma card_session_invariant_witness :
  CardSession.sawCompleted Samples.export_and_finish = true.
Proof.
  apply (proj2 (proj2 (proj2 (card_session_invariant Samples.export_and_finish)))).
  reflexivity.
Defined.

Example second_export_fails_outcome :
  snd (ApiExport.handleExportSelected ["c1"; "c2"; "c3"]%string
         Samples.second_export_fails)
  = ApiExport.Threw "ffmpeg exited with code 1"
  /\ ClipsManager.exportProgress
       (ClipsManager.final
          (fst (ApiExport.handleExportSelected ["c1"; "c2"; "c3"]%string
                  Samples.second_export_fails))
          ClipsManager.initialState) !! "c1"%string = Some 100%nat
  /\ ClipsManager.exportProgress
       (ClipsManager.final
          (fst (ApiExport.handleExportSelected ["c1"; "c2"; "c3"]%string
                  Samples.second_export_fails))
          ClipsManager.initialState) !! "c3"%string = None.
Proof. vm_compute. repeat split. Qed.

Lemma api_export_failure_marks_all_witness :
  ClipsManager.exportStatus
    (ClipsManager.final
       (fst (ApiExport.handleExportSelected ["c1"; "c2"; "c3"]%string
               Samples.second_export_fails))
       ClipsManager.initialState) !! "c1"%string = Some "failed"%string
  /\ ClipsManager.exportStatus
       (ClipsManager.final
          (fst (ApiExport.handleExportSelected ["c1"; "c2"; "c3"]%string
                  Samples.second_export_fails))
          ClipsManager.initialState) !! "c3"%string = Some "failed"%string.
Proof.
  split;
    apply (proj1 (api_export_failure_marks_all ["c1"; "c2"; "c3"]%string
                    Samples.second_export_fails ClipsManager.initialState
                    "ffmpeg exited with code 1"%string eq_refl));
    simpl; tauto.
Defined.

Lemma api_export_success_completes_all_witness :
  ClipsManager.exportStatus
    (ClipsManager.final
       (fst (ApiExport.handleExportSelected ["c1"]%string Samples.both_exported))
       ClipsManager.initialState) !! "c1"%string = Some "completed"%string
  /\ ClipsManager.exportProgress
       (ClipsManager.final
          (fst (ApiExport.handleExportSelected ["c1"]%string Samples.both_exported))
          ClipsManager.initialState) !! "c1"%string = Some 100%nat.
Proof.
  apply (api_export_success_completes_all ["c1"]%string Samples.both_exported
           ClipsManager.initialState "c1"%string).
  - reflexivity.
  - simpl. tauto.
Defined.

Lemma transcription_never_erased_witness :
  LiveTranscription.truthy
    (LiveTranscription.transcript
       (LiveTranscription.receive (skipn 2 Samples.stream) Samples.received))
  = true
  /\ LiveTranscription.truthy
       (LiveTranscription.wordCount
          (LiveTranscription.receive (skipn 2 Samples.stream) Samples.received))
     = true.
Proof.
  split.
  - apply (proj1 (transcription_never_erased (skipn 2 Samples.stream)
                    Samples.received)).
    reflexivity.
  - apply (proj1 (proj2 (transcription_never_erased (skipn 2 Samples.stream)
                           Samples.received))).
    reflexivity.
Defined.

Lemma formatSize_two_decimals_witness :
  exists a b,
    Storage.formatSize 1536 =
      String.append a (String.append "." (String.append b " GB"))
    /\ String.length b = 2%nat
    /\ (1 <= String.length a)%nat
    /\ String.append a b = "150"%string.
Proof.
  refine (proj2 (proj2 (proj2 (proj2 (formatSize_two_decimals 1536 _ _))))).
  - unfold Qle; simpl; lia.
  - unfold Qlt; simpl; lia.
Defined.

Lemma currentText_disjoint_witness :
  VideoSubtitles.currentText
    (Some [Samples.one; Samples.two; Samples.three]) (5 # 2)
    = "two"%string
  /\ VideoSubtitles.currentText
       (Some [Samples.one; Samples.two; Samples.three]) (7 # 2)
     = EmptyString.
Proof.
  assert (H : Segments.disjoint [Samples.one; Samples.two; Samples.three]).
  { unfold Segments.disjoint, Segments.before.
    repeat constructor; unfold Qlt; simpl; lia. }
  split.
  - apply (proj1 (currentText_disjoint (5 # 2) _ H) Samples.two).
    + simpl. tauto.
    + unfold VideoSubtitles.within, Qle. simpl. lia.
  - apply (proj2 (currentText_disjoint (7 # 2) _ H)
             Samples.two Samples.three [Samples.one] []).
    + reflexivity.
    + unfold Qle. simpl. lia.
    + unfold Qle. simpl. lia.
    + unfold Qlt. simpl. lia.
    + unfold Qlt. simpl. lia.
Defined.

Lemma formatTime_whole_units_witness :
  FormatTime.formatTime (479 # 8) = FormatTime.formatTime 59
  /\ FormatTime.formatTime ((119 # 2) + inject_Z (60 * 61)) = "61:59"%string.
Proof.
  split.
  - refine (proj1 (formatTime_whole_units (479 # 8) _ _ _)).
    + unfold Qle; simpl; lia.
    + vm_compute; reflexivity.
    + unfold Qlt; simpl; lia.
  - refine (proj2 (formatTime_whole_units (119 # 2) _ _ _) 61 _ _ _).
    + unfold Qle; simpl; lia.
    + vm_compute; reflexivity.
    + unfold Qlt; simpl; lia.
    + lia.
    + vm_compute; reflexivity.
    + unfold Qlt; simpl; lia.
Defined.


Example polling_example :
  JobPolling.pollChain "f1"
    [VideoUpload.PollThrows; Samples.still_processing; Samples.job_done;
     Samples.still_processing]
    Samples.two_files
  = ([{| VideoUpload.name := "talk.mp4"; VideoUpload.id := "f1";
         VideoUpload.progress := 100; VideoUpload.status := VideoUpload.completed;
         VideoUpload.message := Some "Done"%string; VideoUpload.jobId := None |};
      VideoUpload.newFile "demo.mov" "f2"], false).
Proof. reflexivity. Qed.

Lemma pollJobStatus_ends_terminal_witness :
  VideoUpload.status
    {| VideoUpload.name := "talk.mp4"; VideoUpload.id := "f1";
       VideoUpload.progress := 100; VideoUpload.status := VideoUpload.completed;
       VideoUpload.message := Some "Done"%string; VideoUpload.jobId := None |}
    = VideoUpload.completed
  \/ VideoUpload.status
       {| VideoUpload.name := "talk.mp4"; VideoUpload.id := "f1";
          VideoUpload.progress := 100; VideoUpload.status := VideoUpload.completed;
          VideoUpload.message := Some "Done"%string; VideoUpload.jobId := None |}
     = VideoUpload.error.
Proof.
  apply (pollJobStatus_ends_terminal "f1"
           [VideoUpload.PollThrows; Samples.still_processing; Samples.job_done]
           Samples.two_files).
  - reflexivity.
  - left. reflexivity.
Defined.
